(** * archivepronto: the Telegram archive worker (src/worker.js)

    A shallow embedding of the record store (StreamingGitHubCSVManager), the
    deletion queue (GitHubDeletionManager, handleScheduledDeletions) and the
    upload handler of src/worker.js, with the properties of the specification
    proved or refuted on it. The file holds, in this order: the embedding of
    the code, the notions of the specification, the text commands and the
    entry points of the worker (module [Commands]) and the parser of
    src/data_gen.js (module [DataGen]), the lemmas, the claims C1 to C10,
    and the further properties X1 to X25 of the code.

    Conventions of the embedding.
    - A JavaScript string that travels through [btoa]/[atob] holds only code
      units 0..255 ([btoa] throws on anything else), so strings are lists of
      8-bit characters.
    - Asynchronous functions run in a state-and-exception monad over a
      [World]: the two files kept in the GitHub repository, the list of
      transport faults still to come, the random source and the trace of
      requests and console errors. A [try]/[catch] is [try_catch]; what a
      computation did before it threw stays done.
    - The content API and the Bot API are not code of the worker. Their side
      is the [fetch_...] functions: a fault rejects the request or answers
      with status 500; otherwise a read serves the file as it is, a write is
      taken when it names the current version (none for a creation), and
      the Bot API answers [ok] with a fresh message id. A request that runs
      into a fault has no effect on the repository: the loss of the answer
      to a write that was applied is not part of the model.
    - The archive file travels in base64: [btoa] and [atob] are the coding
      and the forgiving decoding of the platform, the content API sends the
      text in lines of 60 characters and decodes what it is sent. The queue
      file is kept as the list of jobs that its JSON holds.
    - [console.log] is not modelled; [console.error] is an event of the
      trace. The upload handler and its webhook are modelled on the world
      alone; the handlers of text commands, which do not write the record
      store, are modelled in module [Commands] on a session: the world and
      the journal of the messages exchanged with the Bot API.
    - The texts of commands, the setting DELETE_DELAY_MS and the pages that
      src/data_gen.js reads do not travel through [btoa]; they are modelled
      on the same 8-bit characters, that is for texts of code units 0..255.
    - Numbers are doubles in the code and integers here: times in
      milliseconds, sizes and counts stay far below 2^53, where the two
      agree. *)

From Stdlib Require Import List Ascii String ZArith Lia Bool Arith.
Import ListNotations.

Set Implicit Arguments.

(* ===================================================================== *)
(** * JavaScript strings *)
(* ===================================================================== *)

Definition str := list ascii.

Definition lit (s : string) : str := list_ascii_of_string s.

Definition comma : ascii := ","%char.
Definition dquote : ascii := ascii_of_nat 34.
Definition newline : ascii := ascii_of_nat 10.

Definition str_eqb (a b : str) : bool :=
  if list_eq_dec ascii_dec a b then true else false.

(** JavaScript truthiness of a string: the empty string is falsy. *)
Definition truthy (s : str) : bool :=
  match s with [] => false | _ :: _ => true end.

(** White space as [String.prototype.trim] sees it, restricted to the code
    units 0..255: TAB, LF, VT, FF, CR, SP and NBSP. *)
Definition is_ws (c : ascii) : bool :=
  let n := nat_of_ascii c in
  ((9 <=? n) && (n <=? 13)) || (n =? 32) || (n =? 160).

Fixpoint trimStart (s : str) : str :=
  match s with
  | [] => []
  | c :: s' => if is_ws c then trimStart s' else s
  end.

Definition trimEnd (s : str) : str := rev (trimStart (rev s)).

Definition trim (s : str) : str := trimEnd (trimStart s).

(** [String.prototype.toLowerCase] on the code units 0..255: A-Z and the
    Latin-1 capitals U+00C0..U+00DE (without the multiplication sign). *)
Definition lower_char (c : ascii) : ascii :=
  let n := nat_of_ascii c in
  if ((65 <=? n) && (n <=? 90))
     || ((192 <=? n) && (n <=? 222) && negb (n =? 215))
  then ascii_of_nat (n + 32) else c.

Definition toLowerCase (s : str) : str := map lower_char s.

Fixpoint startsWith (s p : str) : bool :=
  match p, s with
  | [], _ => true
  | _ :: _, [] => false
  | a :: p', b :: s' => Ascii.eqb a b && startsWith s' p'
  end.

(** [s.includes(p)] *)
Fixpoint includes (s p : str) : bool :=
  startsWith s p ||
  match s with
  | [] => false
  | _ :: s' => includes s' p
  end.

Definition has_char (c : ascii) (s : str) : bool := existsb (Ascii.eqb c) s.

(** [s.split('\n')]: never empty, the last piece is what follows the last
    newline. *)
Fixpoint split_lines (s : str) : list str :=
  match s with
  | [] => [[]]
  | c :: s' =>
      if Ascii.eqb c newline then [] :: split_lines s'
      else match split_lines s' with
           | l :: ls => (c :: l) :: ls
           | [] => [[c]]
           end
  end.

(** [s.charAt(i)]: the empty string out of range. *)
Definition charAt (s : str) (i : nat) : str :=
  match nth_error s i with
  | Some c => [c]
  | None => []
  end.

(* ===================================================================== *)
(** * generateNumericalFileId *)
(* ===================================================================== *)

Definition digits : str := lit "0123456789".

(** The loop [for (let i = 0; i < length; i++) result += digits.charAt(...)].
    [draw i] is the value of [Math.floor(Math.random() * digits.length)] at
    the i-th iteration still to run. *)
Fixpoint generateNumericalFileId_loop
  (todo : nat) (draw : nat -> nat) (result : str) : str :=
  match todo with
  | 0 => result
  | S todo' =>
      generateNumericalFileId_loop todo' (fun i => draw (S i))
        (result ++ charAt digits (draw 0))
  end.

Definition generateNumericalFileId_len (length : nat) (draw : nat -> nat) : str :=
  generateNumericalFileId_loop length draw [].

(** The default argument [length = 16]. *)
Definition generateNumericalFileId (draw : nat -> nat) : str :=
  generateNumericalFileId_len 16 draw.

Definition is_digit (c : ascii) : bool :=
  let n := nat_of_ascii c in (48 <=? n) && (n <=? 57).

(* ===================================================================== *)
(** * The delimited-text layer of StreamingGitHubCSVManager *)
(* ===================================================================== *)

(** [parseCSVLine]: the [while (i < line.length)] loop, on the characters
    from position [i] on. [line[i + 1]] is the head of what follows. *)
Fixpoint parseCSVLine_loop
  (line : str) (current : str) (inQuotes : bool) (result : list str)
  : list str :=
  match line with
  | [] => result ++ [trim current]
  | char :: rest =>
      if Ascii.eqb char dquote then
        match rest with
        | next :: rest2 =>
            if inQuotes && Ascii.eqb next dquote
            then parseCSVLine_loop rest2 (current ++ [dquote]) inQuotes result
            else parseCSVLine_loop rest current (negb inQuotes) result
        | [] => parseCSVLine_loop rest current (negb inQuotes) result
        end
      else if Ascii.eqb char comma && negb inQuotes then
        parseCSVLine_loop rest [] inQuotes (result ++ [trim current])
      else
        parseCSVLine_loop rest (current ++ [char]) inQuotes result
  end.

Definition parseCSVLine (line : str) : list str :=
  parseCSVLine_loop line [] false [].

(** The [str.replace] of [escapeCSV]: every quote character is doubled. *)
Fixpoint double_quotes (s : str) : str :=
  match s with
  | [] => []
  | c :: s' =>
      if Ascii.eqb c dquote then dquote :: dquote :: double_quotes s'
      else c :: double_quotes s'
  end.

Definition escapeCSV (field : str) : str :=
  if has_char comma field || has_char dquote field || has_char newline field
  then dquote :: double_quotes field ++ [dquote]
  else field.

(* ===================================================================== *)
(** * The world outside the worker *)
(* ===================================================================== *)

(** A version token of the content API (the [sha] of a file). *)
Definition Sha := nat.

(** One entry of deletions.json. *)
Record DeletionJob := mkJob { chatId : Z; messageId : Z; deleteAt : Z }.

(** A file of the repository as the content API reports it. The size is
    metadata of its own: the client never measures the content. *)
Record RemoteFile (A : Type) := mkFile {
  rf_content : A;
  rf_sha : Sha;
  rf_size : Z
}.

(** What the next [fetch] runs into. *)
Inductive Fault :=
| NoFault
| NetworkDown    (* the promise of fetch rejects *)
| BadStatus.     (* a response whose status is 500 *)

(** The texts sent to the chat by handleFileUpload. *)
Inductive Text :=
| TxtChecking
| TxtAlreadyExists (file_name numericalId : str)
| TxtAdding
| TxtReceived (fileName numericalFileId : str) (totalFiles : Z)
| TxtError.

Inductive Request :=
| GetCsv                                        (* GET contents/archiveTG_data.csv *)
| GetBlob (sha : option Sha)                    (* GET git/blobs/<sha> *)
| PutCsv (content : str) (sha : option Sha)     (* PUT contents/archiveTG_data.csv *)
| GetDeletions                                  (* GET contents/deletions.json *)
| PutDeletions (deletions : list DeletionJob) (sha : option Sha)
| SendMessage (chat : Z) (text : Text)
| DeleteMessage (chat : Z) (message : Z).

(** The places of [console.error]; [console.log] is not modelled. *)
Inductive Console :=
| ErrGettingDeletions
| ErrGettingFileInfo
| ErrDownloadingLargeFile
| ErrGettingFileContent
| ErrFailedToGetContent
| ErrStreamingSearch
| ErrGettingFileCount
| ErrCheckingDuplicate
| ErrAppending
| ErrDeletingMessage (message : Z)
| ErrUpdatingDeletions
| ErrHandlingUpload
| ErrWebhook.

Inductive Event :=
| Fetch (r : Request)
| Error (c : Console)
| SetTimeout (chat message : Z).

Record World := mkWorld {
  csv_file : option (RemoteFile str);
  del_file : option (RemoteFile (list DeletionJob));
  next_sha : Sha;
  faults : list Fault;
  random : nat -> nat;     (* the values Math.floor(Math.random() * 10) to come *)
  next_message : Z;
  trace : list Event       (* oldest first *)
}.

Inductive Err :=
| NetworkError
| GitHubApiError (status : nat)
| BlobFetchFailed (status : nat)
| ReadCurrentFailed
| TypeError
| InvalidCharacterError.

Inductive Res (A : Type) :=
| Ok (a : A)
| Throw (e : Err).
Arguments Throw {A} e.

(** An asynchronous computation: it ends in a value or an exception, and the
    effects it had before an exception stay. *)
Definition M (A : Type) := World -> Res A * World.

Definition ret {A} (a : A) : M A := fun w => (Ok a, w).

Definition throw {A} (e : Err) : M A := fun w => (Throw e, w).

Definition bind {A B} (m : M A) (k : A -> M B) : M B :=
  fun w =>
    match m w with
    | (Ok a, w') => k a w'
    | (Throw e, w') => (Throw e, w')
    end.

(** [try { body } catch (error) { handler }] *)
Definition try_catch {A} (body : M A) (handler : Err -> M A) : M A :=
  fun w =>
    match body w with
    | (Ok a, w') => (Ok a, w')
    | (Throw e, w') => handler e w'
    end.

Declare Scope js_scope.
Delimit Scope js_scope with js.
Notation "x <- m ;; k" := (bind m (fun x => k))
  (at level 61, m at next level, right associativity) : js_scope.
Notation "m ;; k" := (bind m (fun _ => k))
  (at level 61, right associativity) : js_scope.
Open Scope js_scope.

(** [await Promise.all(ps)] over promises of calls made one after the other:
    every call runs; the first rejection, if any, is the result. *)
Fixpoint promise_all {A} (ps : list (M A)) : M (list A) :=
  match ps with
  | [] => ret []
  | p :: ps' =>
      fun w =>
        match p w with
        | (r, w1) =>
            match promise_all ps' w1 with
            | (rs, w2) =>
                (match r, rs with
                 | Ok a, Ok l => Ok (a :: l)
                 | Throw e, _ => Throw e
                 | Ok _, Throw e => Throw e
                 end, w2)
            end
        end
  end.

Definition get_world : M World := fun w => (Ok w, w).

Definition emit (e : Event) : M unit :=
  fun w => (Ok tt,
            mkWorld (csv_file w) (del_file w) (next_sha w) (faults w)
                    (random w) (next_message w) (trace w ++ [e])).

Definition console_error (c : Console) : M unit := emit (Error c).

Definition next_fault : M Fault :=
  fun w =>
    match faults w with
    | [] => (Ok NoFault, w)
    | f :: fs =>
        (Ok f, mkWorld (csv_file w) (del_file w) (next_sha w) fs
                       (random w) (next_message w) (trace w))
    end.

(** A request leaves the worker; a network failure rejects it. *)
Definition transport (r : Request) : M Fault :=
  f <- next_fault ;;
  emit (Fetch r) ;;
  match f with
  | NetworkDown => throw NetworkError
  | _ => ret f
  end.

(** An HTTP response: its status and, when there is one, its JSON body. *)
Record Response (A : Type) := Http { status : nat; body : option A }.

Definition ok {A} (r : Response A) : bool :=
  (200 <=? status r) && (status r <=? 299).

(** [await response.json()] *)
Definition json {A} (r : Response A) : M A :=
  match body r with
  | Some a => ret a
  | None => throw TypeError
  end.

(** The alphabet of base64 and the character that pads the last group. *)
Definition base64_alphabet : str :=
  lit "ABCDEFGHIJKLMNOPQRSTUVWXYZabcdefghijklmnopqrstuvwxyz0123456789+/".

Definition base64_pad : ascii := "="%char.

(** The character of a group of six bits. *)
Definition base64_char (n : nat) : ascii := nth n base64_alphabet base64_pad.

(** The six bits of a character of the alphabet. *)
Fixpoint index_of (c : ascii) (s : str) : option nat :=
  match s with
  | [] => None
  | x :: s' => if Ascii.eqb c x then Some 0 else option_map S (index_of c s')
  end.

Definition base64_value (c : ascii) : option nat := index_of c base64_alphabet.

(** [btoa(s)] on a string of code units 0..255: three bytes give four
    characters, the last group is padded. *)
Fixpoint btoa (s : str) : str :=
  match s with
  | [] => []
  | a :: [] =>
      let x := nat_of_ascii a in
      [base64_char (x / 4); base64_char (x mod 4 * 16); base64_pad; base64_pad]
  | a :: b :: [] =>
      let x := nat_of_ascii a in
      let y := nat_of_ascii b in
      [base64_char (x / 4); base64_char (x mod 4 * 16 + y / 16);
       base64_char (y mod 16 * 4); base64_pad]
  | a :: b :: c :: rest =>
      let x := nat_of_ascii a in
      let y := nat_of_ascii b in
      let z := nat_of_ascii c in
      base64_char (x / 4) :: base64_char (x mod 4 * 16 + y / 16)
        :: base64_char (y mod 16 * 4 + z / 64) :: base64_char (z mod 64)
        :: btoa rest
  end.

(** The white space that [atob] removes before it decodes. *)
Definition is_ascii_whitespace (c : ascii) : bool :=
  let n := nat_of_ascii c in
  (n =? 9) || (n =? 10) || (n =? 12) || (n =? 13) || (n =? 32).

(** One or two pad characters at the end are removed. *)
Definition strip_padding (data : str) : str :=
  match rev data with
  | p :: q :: r =>
      if Ascii.eqb p base64_pad
      then if Ascii.eqb q base64_pad then rev r else rev (q :: r)
      else data
  | p :: [] => if Ascii.eqb p base64_pad then [] else data
  | [] => data
  end.

(** The groups of six bits of a text of the alphabet; a character outside
    the alphabet is a failure. *)
Fixpoint sextets (data : str) : option (list nat) :=
  match data with
  | [] => Some []
  | c :: data' =>
      match base64_value c, sextets data' with
      | Some v, Some vs => Some (v :: vs)
      | _, _ => None
      end
  end.

(** Four groups of six bits give three bytes; of a last group of two or
    three the bits that fill no byte are dropped. *)
Fixpoint bytes_of (v : list nat) : str :=
  match v with
  | s0 :: s1 :: s2 :: s3 :: rest =>
      ascii_of_nat (s0 * 4 + s1 / 16) :: ascii_of_nat (s1 mod 16 * 16 + s2 / 4)
        :: ascii_of_nat (s2 mod 4 * 64 + s3) :: bytes_of rest
  | s0 :: s1 :: s2 :: [] =>
      [ascii_of_nat (s0 * 4 + s1 / 16); ascii_of_nat (s1 mod 16 * 16 + s2 / 4)]
  | s0 :: s1 :: [] => [ascii_of_nat (s0 * 4 + s1 / 16)]
  | _ => []
  end.

(** The decoding of [atob]: white space is removed, then the padding of a
    text whose length is a multiple of four; a length that leaves one
    character over, or a character outside the alphabet, is a failure. *)
Definition forgiving_base64_decode (data : str) : option str :=
  let data := filter (fun c => negb (is_ascii_whitespace c)) data in
  let data := if List.length data mod 4 =? 0 then strip_padding data else data in
  if List.length data mod 4 =? 1 then None
  else option_map bytes_of (sextets data).

(** The content API sends base64 text in lines of 60 characters. *)
Fixpoint lines_of_60 (room : nat) (s : str) : str :=
  match s with
  | [] => [newline]
  | c :: s' =>
      match room with
      | 0 => newline :: c :: lines_of_60 59 s'
      | S room' => c :: lines_of_60 room' s'
      end
  end.

Definition wire (content : str) : str :=
  match btoa content with
  | [] => []
  | encoded => lines_of_60 60 encoded
  end.

Arguments btoa : simpl never.
Arguments forgiving_base64_decode : simpl never.
Arguments wire : simpl never.

(** [atob(data)]: it throws on a text that does not decode. *)
Definition atob (data : str) : M str :=
  match forgiving_base64_decode data with
  | Some s => ret s
  | None => throw InvalidCharacterError
  end.

(** The JSON of the contents endpoint, for both files. *)
Record ContentsData (A : Type) := mkContents {
  cd_content : A;
  cd_sha : Sha;
  cd_size : Z
}.

(** The JSON of the blob endpoint. *)
Record BlobData := mkBlob { encoding : str; content : str }.

Definition serve {A} (file : option (RemoteFile A)) (f : Fault)
  : Response (ContentsData A) :=
  match f with
  | BadStatus => Http 500 None
  | _ =>
      match file with
      | None => Http 404 None
      | Some x => Http 200 (Some (mkContents (rf_content x) (rf_sha x) (rf_size x)))
      end
  end.

Definition fetch_csv : M (Response (ContentsData str)) :=
  f <- transport GetCsv ;;
  w <- get_world ;;
  ret (serve (option_map (fun x => mkFile (wire (rf_content x)) (rf_sha x) (rf_size x))
                         (csv_file w)) f).

Definition fetch_deletions : M (Response (ContentsData (list DeletionJob))) :=
  f <- transport GetDeletions ;;
  w <- get_world ;;
  ret (serve (del_file w) f).

(** The blob endpoint serves the content that has the hash asked for. *)
Definition fetch_blob (sha : option Sha) : M (Response BlobData) :=
  f <- transport (GetBlob sha) ;;
  w <- get_world ;;
  ret (match f with
       | BadStatus => Http 500 None
       | _ =>
           match csv_file w, sha with
           | Some x, Some s =>
               if s =? rf_sha x
               then Http 200 (Some (mkBlob (lit "base64") (wire (rf_content x))))
               else Http 404 None
           | _, _ => Http 404 None
           end
       end).

(** The version check of a write: a creation names no version, a
    replacement names the current one. *)
Definition version_matches {A} (file : option (RemoteFile A)) (sha : option Sha) : bool :=
  match file, sha with
  | None, None => true
  | Some x, Some s => s =? rf_sha x
  | _, _ => false
  end.

(** A write of the archive file: [content] is the base64 text of the
    request. A text that does not decode is refused with status 422. *)
Definition fetch_put_csv (content : str) (sha : option Sha) : M (Response unit) :=
  f <- transport (PutCsv content sha) ;;
  match f with
  | BadStatus => ret (Http 500 None)
  | _ =>
      fun w =>
        match forgiving_base64_decode content with
        | None => (Ok (Http 422 None), w)
        | Some text =>
            if version_matches (csv_file w) sha
            then (Ok (Http (match sha with Some _ => 200 | None => 201 end) (Some tt)),
                  mkWorld (Some (mkFile text (next_sha w)
                                        (Z.of_nat (List.length text))))
                          (del_file w) (S (next_sha w)) (faults w)
                          (random w) (next_message w) (trace w))
            else (Ok (Http 409 None), w)
        end
  end.

Definition fetch_put_deletions (deletions : list DeletionJob) (sha : option Sha)
  : M (Response unit) :=
  f <- transport (PutDeletions deletions sha) ;;
  match f with
  | BadStatus => ret (Http 500 None)
  | _ =>
      fun w =>
        if version_matches (del_file w) sha
        then (Ok (Http (match sha with Some _ => 200 | None => 201 end) (Some tt)),
              mkWorld (csv_file w)
                      (Some (mkFile deletions (next_sha w)
                                    (Z.of_nat (List.length deletions))))
                      (S (next_sha w)) (faults w)
                      (random w) (next_message w) (trace w))
        else (Ok (Http 409 None), w)
  end.

(** The JSON of the Bot API. *)
Record TgReply := mkReply { tg_ok : bool; tg_message_id : Z }.

Definition fetch_telegram (r : Request) : M TgReply :=
  f <- transport r ;;
  match f with
  | BadStatus => ret (mkReply false 0%Z)
  | _ =>
      fun w =>
        (Ok (mkReply true (next_message w)),
         mkWorld (csv_file w) (del_file w) (next_sha w) (faults w)
                 (random w) (next_message w + 1)%Z (trace w))
  end.

(* ===================================================================== *)
(** * TelegramBot *)
(* ===================================================================== *)

Definition sendMessage (chat : Z) (text : Text) : M TgReply :=
  fetch_telegram (SendMessage chat text).

(** The only method with a [try]/[catch] of its own. *)
Definition deleteMessage (chat message : Z) : M unit :=
  try_catch
    (fetch_telegram (DeleteMessage chat message) ;; ret tt)
    (fun _ => console_error (ErrDeletingMessage message)).

(* ===================================================================== *)
(** * GitHubDeletionManager *)
(* ===================================================================== *)

Definition getDeletions : M (list DeletionJob * option Sha) :=
  try_catch
    (response <- fetch_deletions ;;
     if status response =? 404 then ret ([], None)
     else if negb (ok response) then throw (GitHubApiError (status response))
     else
       data <- json response ;;
       ret (cd_content data, Some (cd_sha data)))
    (fun _ => console_error ErrGettingDeletions ;; ret ([], None)).

Definition updateDeletions (deletions : list DeletionJob) (sha : option Sha) : M unit :=
  response <- fetch_put_deletions deletions sha ;;
  if negb (ok response) then throw (GitHubApiError (status response))
  else json response.

(** The [for (const item of deletions)] loop of handleScheduledDeletions. *)
Fixpoint partition_due (now : Z) (deletions dueForDeletion stillPending : list DeletionJob)
  : list DeletionJob * list DeletionJob :=
  match deletions with
  | [] => (dueForDeletion, stillPending)
  | item :: deletions' =>
      if (now >=? deleteAt item)%Z
      then partition_due now deletions' (dueForDeletion ++ [item]) stillPending
      else partition_due now deletions' dueForDeletion (stillPending ++ [item])
  end.

(** [now] is the value of [Date.now()]. *)
Definition handleScheduledDeletions (now : Z) : M unit :=
  loaded <- getDeletions ;;
  let (deletions, sha) := loaded in
  if List.length deletions =? 0 then ret tt
  else
    let (dueForDeletion, stillPending) := partition_due now deletions [] [] in
    if List.length dueForDeletion =? 0 then ret tt
    else
      promise_all (map (fun item => deleteMessage (chatId item) (messageId item))
                       dueForDeletion) ;;
      try_catch
        (updateDeletions stillPending sha)
        (fun _ => console_error ErrUpdatingDeletions).

(* ===================================================================== *)
(** * StreamingGitHubCSVManager *)
(* ===================================================================== *)

Definition GITHUB_SIZE_LIMIT : Z := 1048576.

Record FileInfo := mkInfo {
  fi_exists : bool;
  fi_sha : option Sha;
  fi_size : Z;
  isLarge : bool
}.

Definition no_file : FileInfo := mkInfo false None 0%Z false.

Definition getFileInfo : M FileInfo :=
  try_catch
    (response <- fetch_csv ;;
     if status response =? 404 then ret no_file
     else if ok response then
       data <- json response ;;
       ret (mkInfo true (Some (cd_sha data)) (cd_size data)
                   (cd_size data >? GITHUB_SIZE_LIMIT)%Z)
     else ret no_file)
    (fun _ => console_error ErrGettingFileInfo ;; ret no_file).

Definition downloadLargeFile : M (option str) :=
  try_catch
    (fileInfo <- getFileInfo ;;
     if negb (fi_exists fileInfo) then ret None
     else
       response <- fetch_blob (fi_sha fileInfo) ;;
       if negb (ok response) then throw (BlobFetchFailed (status response))
       else
         blobData <- json response ;;
         if str_eqb (encoding blobData) (lit "base64")
         then decoded <- atob (content blobData) ;; ret (Some decoded)
         else ret (Some (content blobData)))
    (fun _ => console_error ErrDownloadingLargeFile ;; ret None).

Definition getFileContent : M (option str) :=
  try_catch
    (fileInfo <- getFileInfo ;;
     if negb (fi_exists fileInfo) then ret None
     else if isLarge fileInfo then downloadLargeFile
     else
       response <- fetch_csv ;;
       if negb (ok response) then ret None
       else
         fileData <- json response ;;
         decoded <- atob (cd_content fileData) ;;
         ret (Some decoded))
    (fun _ => console_error ErrGettingFileContent ;; ret None).

(** [!content] for a content that is [null] or a string. *)
Definition no_content (c : option str) : bool :=
  match c with
  | Some s => negb (truthy s)
  | None => true
  end.

Definition text_of (c : option str) : str :=
  match c with Some s => s | None => [] end.

Record FileData := mkData { file_id : str; file_name : str; file_type : str }.

(** [x || 'Unknown'] *)
Definition or_unknown (x : str) : str := if truthy x then x else lit "Unknown".

(** [parsedLine[i]] of a line that has at least four fields. *)
Definition field (parsedLine : list str) (i : nat) : str := nth i parsedLine [].

(** The [for] loop of findFileByIdStreaming over [lines[i..]]. *)
Fixpoint findFileByIdStreaming_loop
  (numericalFileId : str) (lines : list str) (headerSkipped : bool)
  : option FileData :=
  match lines with
  | [] => None
  | l :: lines' =>
      let line := trim l in
      if negb (truthy line) then
        findFileByIdStreaming_loop numericalFileId lines' headerSkipped
      else if negb headerSkipped && includes (toLowerCase line) (lit "numerical") then
        findFileByIdStreaming_loop numericalFileId lines' true
      else
        let parsedLine := parseCSVLine line in
        if (4 <=? List.length parsedLine) && str_eqb (field parsedLine 0) numericalFileId
        then Some (mkData (field parsedLine 1)
                          (or_unknown (field parsedLine 2))
                          (or_unknown (field parsedLine 3)))
        else findFileByIdStreaming_loop numericalFileId lines' headerSkipped
  end.

Definition findFileByIdStreaming (numericalFileId : str) : M (option FileData) :=
  try_catch
    (content <- getFileContent ;;
     if no_content content then console_error ErrFailedToGetContent ;; ret None
     else ret (findFileByIdStreaming_loop numericalFileId
                 (split_lines (text_of content)) false))
    (fun _ => console_error ErrStreamingSearch ;; ret None).

(** [content.indexOf('\n')] cuts the content at its first newline: the text
    before it, when there is one. *)
Fixpoint before_newline (s : str) : option str :=
  match s with
  | [] => None
  | c :: s' =>
      if Ascii.eqb c newline then Some []
      else match before_newline s' with
           | Some l => Some (c :: l)
           | None => None
           end
  end.

(** The [while (pos < content.length)] loop of getFileCount together with
    the test of the text after the last newline. [rest] is
    [content.substring(pos)] read so far up to [line]. *)
Fixpoint getFileCount_loop (rest : str) (line : str) (lineCount : Z) : Z :=
  match rest with
  | [] => if truthy (trim line) then (lineCount + 1)%Z else lineCount
  | c :: rest' =>
      if Ascii.eqb c newline
      then getFileCount_loop rest' []
             (if truthy (trim line) then (lineCount + 1)%Z else lineCount)
      else getFileCount_loop rest' (line ++ [c]) lineCount
  end.

Definition hasHeader (content : str) : bool :=
  match before_newline content with
  | Some l =>
      let firstLine := toLowerCase l in
      includes firstLine (lit "numerical") || includes firstLine (lit "file_id")
  | None => false
  end.

Definition count_of (content : str) : Z :=
  Z.max 0 (getFileCount_loop content [] 0 - (if hasHeader content then 1 else 0))%Z.

Definition getFileCount : M Z :=
  try_catch
    (content <- getFileContent ;;
     if no_content content then ret 0%Z
     else ret (count_of (text_of content)))
    (fun _ => console_error ErrGettingFileCount ;; ret 0%Z).

Record Duplicate := mkDup { numericalId : str; fileData : FileData }.

(** The [for (const line of lines)] loop of checkForDuplicate. *)
Fixpoint checkForDuplicate_loop (fileName fileId : str) (lines : list str)
  : option Duplicate :=
  match lines with
  | [] => None
  | line :: lines' =>
      if negb (truthy (trim line)) then checkForDuplicate_loop fileName fileId lines'
      else
        let parsedLine := parseCSVLine line in
        if (4 <=? List.length parsedLine)
           && (str_eqb (field parsedLine 2) fileName
               || str_eqb (field parsedLine 1) fileId)
        then Some (mkDup (field parsedLine 0)
                         (mkData (field parsedLine 1) (field parsedLine 2)
                                 (field parsedLine 3)))
        else checkForDuplicate_loop fileName fileId lines'
  end.

Definition checkForDuplicate (fileName fileId : str) : M (option Duplicate) :=
  try_catch
    (content <- getFileContent ;;
     if no_content content then ret None
     else ret (checkForDuplicate_loop fileName fileId (split_lines (text_of content))))
    (fun _ => console_error ErrCheckingDuplicate ;; ret None).

Definition createFile (content : str) : M unit :=
  response <- fetch_put_csv (btoa content) None ;;
  if negb (ok response) then throw (GitHubApiError (status response))
  else json response.

Definition updateFile (content : str) (sha : option Sha) : M unit :=
  response <- fetch_put_csv (btoa content) sha ;;
  if negb (ok response) then throw (GitHubApiError (status response))
  else json response.

Definition header : str := lit "numerical_file_id,file_id,file_name,file_type".

(** The template literal of a data row, without its newline. *)
Definition row (numericalFileId fileId fileName fileType : str) : str :=
  numericalFileId ++ [comma] ++ fileId ++ [comma] ++ escapeCSV fileName
    ++ [comma] ++ fileType.

Definition appendToCSV (numericalFileId fileId fileName fileType : str) : M unit :=
  try_catch
    (fileInfo <- getFileInfo ;;
     if negb (fi_exists fileInfo) then
       let csvContent :=
         header ++ [newline] ++ row numericalFileId fileId fileName fileType
           ++ [newline] in
       createFile csvContent
     else
       currentContent <- getFileContent ;;
       if no_content currentContent then throw ReadCurrentFailed
       else
         let newLine := row numericalFileId fileId fileName fileType ++ [newline] in
         let updatedContent := trimEnd (text_of currentContent) ++ [newline] ++ newLine in
         updateFile updatedContent (fi_sha fileInfo))
    (fun error => console_error ErrAppending ;; throw error).

(* ===================================================================== *)
(** * handleFileUpload and the webhook *)
(* ===================================================================== *)

(** A document or a video of a message: its [file_id] (empty when missing)
    and its [file_name] when it has one. *)
Record Media := mkMedia { media_file_id : str; media_file_name : option str }.

(** A message that carries media. A text command never reaches
    handleFileUpload and never writes the record store; the text of a
    message is added in module [Commands]. [photo] lists the [file_id] of
    each size. *)
Record Message := mkMessage {
  chat : Z;
  message_id : Z;
  document : option Media;
  photo : option (list str);
  video : option Media
}.

(** [name || fallback] for a name that may be missing. *)
Definition name_or (name : option str) (fallback : str) : str :=
  match name with
  | Some n => if truthy n then n else fallback
  | None => fallback
  end.

(** The three assignments at the head of handleFileUpload: [fileId],
    [fileName] and [fileType]. The last size of an empty [photo] list has no
    [file_id] to read. *)
Definition pick_file (message : Message) : M (str * str * str) :=
  match document message with
  | Some d => ret (media_file_id d, name_or (media_file_name d) (lit "Document"),
                   lit "Document")
  | None =>
      match photo message with
      | Some sizes =>
          match rev sizes with
          | f :: _ => ret (f, lit "Photo", lit "Photo")
          | [] => throw TypeError
          end
      | None =>
          match video message with
          | Some v => ret (media_file_id v, name_or (media_file_name v) (lit "Video"),
                           lit "Video")
          | None => ret ([], lit "Unknown file name", lit "Unknown file type")
          end
      end
  end.

(** [generateNumericalFileId()] on the random source of the world. *)
Definition fresh_id : M str :=
  fun w =>
    (Ok (generateNumericalFileId (random w)),
     mkWorld (csv_file w) (del_file w) (next_sha w) (faults w)
             (fun i => random w (16 + i)) (next_message w) (trace w)).

Definition handleFileUpload (message : Message) : M unit :=
  let chatId := chat message in
  picked <- pick_file message ;;
  let '(fileId, fileName, fileType) := picked in
  if negb (truthy fileId) then ret tt
  else
    emit (SetTimeout chatId (message_id message)) ;;
    try_catch
      (statusMessage <- sendMessage chatId TxtChecking ;;
       existingFile <- checkForDuplicate fileName fileId ;;
       (if tg_ok statusMessage
        then deleteMessage chatId (tg_message_id statusMessage)
        else ret tt) ;;
       match existingFile with
       | Some existing =>
           sendMessage chatId
             (TxtAlreadyExists (file_name (fileData existing)) (numericalId existing)) ;;
           ret tt
       | None =>
           addingMessage <- sendMessage chatId TxtAdding ;;
           numericalFileId <- fresh_id ;;
           appendToCSV numericalFileId fileId fileName fileType ;;
           totalFiles <- getFileCount ;;
           (if tg_ok addingMessage
            then deleteMessage chatId (tg_message_id addingMessage)
            else ret tt) ;;
           sendMessage chatId (TxtReceived fileName numericalFileId totalFiles) ;;
           ret tt
       end)
      (fun _ => console_error ErrHandlingUpload ;; sendMessage chatId TxtError ;; ret tt).

Inductive HttpReply := ReplyOK | ReplyError.

(** handleTelegramWebhook on an update; [None] is an update without a
    message. *)
Definition handleTelegramWebhook (update : option Message) : M HttpReply :=
  try_catch
    (match update with
     | None => ret ReplyOK
     | Some message =>
         match document message, photo message, video message with
         | None, None, None => ret ReplyOK
         | _, _, _ => handleFileUpload message ;; ret ReplyOK
         end
     end)
    (fun _ => console_error ErrWebhook ;; ret ReplyError).

(** Webhook invocations one after the other. *)
Fixpoint serve_updates (updates : list (option Message)) : M (list HttpReply) :=
  match updates with
  | [] => ret []
  | u :: updates' =>
      r <- handleTelegramWebhook u ;;
      rs <- serve_updates updates' ;;
      ret (r :: rs)
  end.

(* ===================================================================== *)
(** * Notions of the specification *)
(* ===================================================================== *)

(** ** Records, rows and files *)

(** An archive record as the specification names its fields. *)
Record ArchiveRecord := mkRecord {
  logical_id : str;
  external_file_ref : str;
  display_name : str;
  media_kind : str
}.

(** No white space at the head. *)
Definition starts_clean (s : str) : bool :=
  match s with
  | c :: _ => negb (is_ws c)
  | [] => true
  end.

(** No white space at either end. *)
Definition unpadded (s : str) : bool := starts_clean s && starts_clean (rev s).

(** A field that is written as it is and read back as it is: not empty, no
    white space at either end, no comma, no quote, no line break. *)
Definition plain (s : str) : bool :=
  truthy s && unpadded s
  && negb (has_char comma s) && negb (has_char dquote s)
  && negb (has_char newline s).

(** A name that survives the quoting of escapeCSV and the line split of the
    readers: not empty, no white space at either end, no line break. *)
Definition clean_name (s : str) : bool :=
  truthy s && unpadded s && negb (has_char newline s).

(** A field that is not empty and does not end in white space. *)
Definition clean_end (t : str) : Prop :=
  truthy t = true /\ starts_clean (rev t) = true.

Definition well_formed (r : ArchiveRecord) : bool :=
  plain (logical_id r) && plain (external_file_ref r)
  && clean_name (display_name r) && plain (media_kind r).

(** No field of the record holds a line break. *)
Definition one_line (r : ArchiveRecord) : bool :=
  negb (has_char newline (logical_id r))
  && negb (has_char newline (external_file_ref r))
  && negb (has_char newline (display_name r))
  && negb (has_char newline (media_kind r)).

Definition row_of (r : ArchiveRecord) : str :=
  row (logical_id r) (external_file_ref r) (display_name r) (media_kind r).

(** The file that holds the records [rs]: the header line, then one line
    per record. *)
Definition render (rs : list ArchiveRecord) : str :=
  header ++ [newline] ++ flat_map (fun r => row_of r ++ [newline]) rs.

(** The archive file of the records [rs]: absent as long as there is none. *)
Definition file_of (rs : list ArchiveRecord) : option str :=
  match rs with
  | [] => None
  | _ :: _ => Some (render rs)
  end.

(** The content that appendToCSV writes over the current one. *)
Definition appended (current : option str) (i f n t : str) : str :=
  match current with
  | None => header ++ [newline] ++ row i f n t ++ [newline]
  | Some c => trimEnd c ++ [newline] ++ row i f n t ++ [newline]
  end.

(** The store after the appends of [rs] over [start], one after the other. *)
Definition written (rs : list ArchiveRecord) (start : option str) : option str :=
  fold_left
    (fun s r => Some (appended s (logical_id r) (external_file_ref r)
                               (display_name r) (media_kind r)))
    rs start.

(** The header line read as a record. *)
Definition header_record : ArchiveRecord :=
  mkRecord (lit "numerical_file_id") (lit "file_id") (lit "file_name") (lit "file_type").

(** A content that begins with the header line. *)
Definition headed (content : str) : Prop :=
  exists rest, content = header ++ newline :: rest.

(** A content whose last line ends in a character that is not white space,
    followed by one newline. *)
Definition ends_clean_line (c : str) : Prop :=
  exists b x, c = b ++ [x; newline] /\ is_ws x = false.

(** A line that the readers skip. *)
Definition blank (line : str) : bool := negb (truthy (trim line)).

(** The lines that the readers look at. *)
Definition nonblank_lines (lines : list str) : list str :=
  filter (fun l => negb (blank l)) lines.

(** A line put in front of the first of the lines that follow. *)
Definition glue (line : str) (lines : list str) : list str :=
  match lines with
  | l :: ls => (line ++ l) :: ls
  | [] => [line]
  end.

(** The number of lines that are not blank. *)
Definition count_nonblank (content : str) : nat :=
  List.length (nonblank_lines (split_lines content)).



(** What findById returns for a record. *)
Definition data_of (r : ArchiveRecord) : FileData :=
  mkData (external_file_ref r) (display_name r) (media_kind r).

(** The first record with the logical id [id]. *)
Definition lookup (id : str) (rs : list ArchiveRecord) : option FileData :=
  option_map data_of (find (fun r => str_eqb (logical_id r) id) rs).

(** A record collides with a probe on the name or on the file reference. *)
Definition collides (name ref : str) (r : ArchiveRecord) : bool :=
  str_eqb (display_name r) name || str_eqb (external_file_ref r) ref.

(** What findDuplicate returns for a record. *)
Definition dup_of (r : ArchiveRecord) : Duplicate :=
  mkDup (logical_id r) (data_of r).

(** The records that the readers see in a content: every line behind the
    header that is not blank and has four fields or more. *)
Definition record_of_line (line : str) : list ArchiveRecord :=
  match parseCSVLine line with
  | i :: f :: n :: t :: _ => [mkRecord i f n t]
  | _ => []
  end.

Definition records_of (content : str) : list ArchiveRecord :=
  flat_map record_of_line
    (nonblank_lines (if hasHeader content then tl (split_lines content)
                     else split_lines content)).


(** ** Worlds, traces and runs *)

Definition stored (w : World) : option str :=
  option_map (@rf_content _) (csv_file w).

(** The records of the store of a world. *)
Definition archive (w : World) : list ArchiveRecord :=
  match stored w with
  | Some c => records_of c
  | None => []
  end.

Definition append (r : ArchiveRecord) : M unit :=
  appendToCSV (logical_id r) (external_file_ref r) (display_name r) (media_kind r).

(** Appends one after the other; an exception ends the sequence. *)
Fixpoint append_all (rs : list ArchiveRecord) : M unit :=
  match rs with
  | [] => ret tt
  | r :: rs' => append r ;; append_all rs'
  end.

(** What a reader makes of the stored content: [k] of a content that is not
    empty, [d] when the file is absent or empty. *)
Definition read_result {A} (k : str -> A) (d : A) (w : World) : A :=
  match stored w with
  | Some c => if truthy c then k c else d
  | None => d
  end.

(** A run that leaves the repository, the faults and the random source as
    they are. *)
Definition unchanged (w w' : World) : Prop :=
  faults w' = faults w /\ csv_file w' = csv_file w
  /\ del_file w' = del_file w /\ random w' = random w.

(** The requests of a trace, in order. *)
Definition requests (t : list Event) : list Request :=
  flat_map (fun e => match e with Fetch r => [r] | _ => [] end) t.

(** The world after more events. *)
Definition add_trace (w : World) (es : list Event) : World :=
  mkWorld (csv_file w) (del_file w) (next_sha w) (faults w)
          (random w) (next_message w) (trace w ++ es).

(** The world after a served write of the archive: the request carries
    the content in base64. *)
Definition put_world (w : World) (content : str) (sha : option Sha) : World :=
  mkWorld (Some (mkFile content (next_sha w) (Z.of_nat (List.length content))))
          (del_file w) (S (next_sha w)) (faults w) (random w) (next_message w)
          (trace w ++ [Fetch (PutCsv (btoa content) sha)]).

(** What getFileInfo reports when its request is served. *)
Definition info_of (file : option (RemoteFile str)) : FileInfo :=
  match file with
  | None => no_file
  | Some f => mkInfo true (Some (rf_sha f)) (rf_size f)
                     (rf_size f >? GITHUB_SIZE_LIMIT)%Z
  end.

(** The requests of one getFileContent when all are served: the probe, and
    then either the path once more or the probe of downloadLargeFile and the
    blob. *)
Definition content_requests (file : option (RemoteFile str)) : list Request :=
  match file with
  | None => [GetCsv]
  | Some f =>
      if (rf_size f >? GITHUB_SIZE_LIMIT)%Z
      then [GetCsv; GetCsv; GetBlob (Some (rf_sha f))]
      else [GetCsv; GetCsv]
  end.

(** The jobs of the persisted queue; none when deletions.json is absent. *)
Definition queue (w : World) : list DeletionJob :=
  match del_file w with
  | Some f => rf_content f
  | None => []
  end.

Definition due (now : Z) (jobs : list DeletionJob) : list DeletionJob :=
  filter (fun j => (deleteAt j <=? now)%Z) jobs.

Definition pending (now : Z) (jobs : list DeletionJob) : list DeletionJob :=
  filter (fun j => negb (deleteAt j <=? now)%Z) jobs.

Definition target (j : DeletionJob) : Z * Z := (chatId j, messageId j).

(** The deleteMessage requests of a trace: chat and message, in order. *)
Definition attempted_deletions (t : list Event) : list (Z * Z) :=
  flat_map (fun e => match e with
                     | Fetch (DeleteMessage c m) => [(c, m)]
                     | _ => []
                     end) t.

(** The writes of deletions.json of a trace: content and version, in order. *)
Definition queue_writes (t : list Event) : list (list DeletionJob * option Sha) :=
  flat_map (fun e => match e with
                     | Fetch (PutDeletions d s) => [(d, s)]
                     | _ => []
                     end) t.

(** The messages whose deletion failed and was logged. *)
Definition logged_deletion_errors (t : list Event) : list Z :=
  flat_map (fun e => match e with
                     | Error (ErrDeletingMessage m) => [m]
                     | _ => []
                     end) t.

(** The fault that the n-th request from now on runs into. *)
Definition fault_at (n : nat) (w : World) : Fault := nth n (faults w) NoFault.

(** The jobs that getDeletions hands out: the persisted queue, or nothing
    when the request fails. *)
Definition loaded_jobs (w : World) : list DeletionJob :=
  match fault_at 0 w with
  | NoFault => queue w
  | _ => []
  end.

(** The messages of [items] whose deleteMessage request is rejected, the
    requests running into [fs] one after the other. *)
Fixpoint failed_deletions (items : list DeletionJob) (fs : list Fault) : list Z :=
  match items with
  | [] => []
  | j :: items' =>
      match hd NoFault fs with
      | NetworkDown => [messageId j]
      | _ => []
      end ++ failed_deletions items' (tl fs)
  end.


(** ** Uploads *)

(** The choice of pick_file without the world: nothing when the list of
    photo sizes is empty. *)
Definition picked (message : Message) : option (str * str * str) :=
  match document message with
  | Some d => Some (media_file_id d, name_or (media_file_name d) (lit "Document"),
                    lit "Document")
  | None =>
      match photo message with
      | Some sizes =>
          match rev sizes with
          | f :: _ => Some (f, lit "Photo", lit "Photo")
          | [] => None
          end
      | None =>
          match video message with
          | Some v => Some (media_file_id v, name_or (media_file_name v) (lit "Video"),
                            lit "Video")
          | None => Some ([], lit "Unknown file name", lit "Unknown file type")
          end
      end
  end.

(** An upload whose file reference is a plain field and whose name is a
    clean name; an upload without a file reference is dropped by the
    handler and is clean as well. *)
Definition clean_message (message : Message) : bool :=
  match picked message with
  | Some (fileId, fileName, _) =>
      negb (truthy fileId) || (plain fileId && clean_name fileName)
  | None => true
  end.

Definition clean_update (update : option Message) : bool :=
  match update with
  | Some message => clean_message message
  | None => true
  end.

(** The record that collides with an upload, as checkForDuplicate finds it
    in the file of [rs]: nothing in an absent file, and the header line is
    scanned like a record. *)
Definition duplicate_in (rs : list ArchiveRecord) (fileName fileId : str)
  : option ArchiveRecord :=
  match rs with
  | [] => None
  | _ :: _ => find (collides fileName fileId) (header_record :: rs)
  end.

(** The records after an upload, the random source being [draw]. *)
Definition upload_outcome (rs : list ArchiveRecord) (draw : nat -> nat)
  (message : Message) : list ArchiveRecord :=
  match picked message with
  | Some (fileId, fileName, fileType) =>
      if truthy fileId then
        match duplicate_in rs fileName fileId with
        | Some _ => rs
        | None => rs ++ [mkRecord (generateNumericalFileId draw) fileId fileName fileType]
        end
      else rs
  | None => rs
  end.

(** The records after a webhook invocation. *)
Definition update_outcome (rs : list ArchiveRecord) (draw : nat -> nat)
  (update : option Message) : list ArchiveRecord :=
  match update with
  | Some message => upload_outcome rs draw message
  | None => rs
  end.

(** Names and file references that no two records share. *)
Definition unique_records (rs : list ArchiveRecord) : Prop :=
  NoDup (map external_file_ref rs) /\ NoDup (map display_name rs).

(** The invariant of the record store under upload handling: the store is
    the file of well-formed records that share no name and no file
    reference, and the random source yields digits. *)
Definition store_invariant (w : World) (rs : list ArchiveRecord) : Prop :=
  faults w = [] /\ stored w = file_of rs
  /\ Forall (fun r => well_formed r = true) rs
  /\ unique_records rs
  /\ (forall i, random w i < 10).


(** ** What a run does to the archive, whatever the transport does *)

(** Every run of [m] relates the world before to the world after by [R],
    whether it returns or throws. *)
Definition post (R : World -> World -> Prop) {A} (m : M A) : Prop :=
  forall w, R w (snd (m w)).

(** A relation between worlds that a sequence of runs keeps. *)
Class Frame (R : World -> World -> Prop) : Prop := {
  frame_refl : forall w, R w w;
  frame_trans : forall a b c, R a b -> R b c -> R a c
}.

(** The archive file is left as it is. *)
Definition keeps_csv (w w' : World) : Prop := csv_file w' = csv_file w.

Definition settled (s : option str) : Prop :=
  match s with
  | Some c => ends_clean_line c
  | None => True
  end.

(** The content is kept and text is added behind it at most. *)
Definition grows (s s' : option str) : Prop :=
  match s, s' with
  | None, _ => True
  | Some c, Some c' => exists ext, c' = c ++ ext
  | Some _, None => False
  end.

(** From a settled archive only to a settled archive that has grown. *)
Definition only_appends (w w' : World) : Prop :=
  settled (stored w) -> settled (stored w') /\ grows (stored w) (stored w').


(** ** Concrete worlds and inputs *)

Definition job_a : DeletionJob := mkJob 7 41 1000.

Definition job_b : DeletionJob := mkJob 7 42 2000.

Definition job_c : DeletionJob := mkJob 8 43 1500.

Definition job_d : DeletionJob := mkJob 8 44 3000.

(** A repository without the archive and with four jobs in the queue; the
    second request to come (the first deleteMessage) is rejected. *)
Definition sweep_world : World :=
  mkWorld None (Some (mkFile [job_a; job_b; job_c; job_d] 5 200)) 6
          [NoFault; NetworkDown] (fun i => i mod 10) 100%Z [].

(** An empty repository and a transport without faults. *)
Definition empty_world : World :=
  mkWorld None None 1 [] (fun i => (7 * i + 3) mod 10) 100%Z [].

(** An empty repository whose twelfth request to come, the probe of the
    second duplicate check, is rejected. *)
Definition flaky_world : World :=
  mkWorld None None 1 (repeat NoFault 11 ++ [NetworkDown])
          (fun i => (7 * i + 3) mod 10) 100%Z [].

(** Two repositories that hold the same archive bytes under the same
    version, one reported above the size limit and one below. *)
Definition large_world : World :=
  mkWorld (Some (mkFile (lit "numerical_file_id,file_id,file_name,file_type") 9 2000000))
          None 10 [] (fun i => i mod 10) 100%Z [].

Definition small_world : World :=
  mkWorld (Some (mkFile (lit "numerical_file_id,file_id,file_name,file_type") 9 45))
          None 10 [] (fun i => i mod 10) 100%Z [].



(** A record whose name has a blank in front. *)
Definition padded_record : ArchiveRecord :=
  mkRecord (lit "1234567890123456") (lit "BQACAgQAAxkBAAIB") (lit " report.pdf")
           (lit "Document").

(** A record whose name holds a line break. *)
Definition two_line_record : ArchiveRecord :=
  mkRecord (lit "1234567890123456") (lit "BQACAgQAAxkBAAIB")
           (lit "notes" ++ [newline] ++ lit "2024.txt") (lit "Document").

(** The name with a comma and an embedded quote of the specification. *)
Definition quoted_name : str :=
  lit "O'Brien, " ++ [dquote] ++ lit "big" ++ [dquote] ++ lit " file.pdf".

Definition quoted_record : ArchiveRecord :=
  mkRecord (lit "1234567890123456") (lit "BQACAgQAAxkBAAIB") quoted_name
           (lit "Document").

Definition earlier_record : ArchiveRecord :=
  mkRecord (lit "0000000000000001") (lit "AgACAgQAAxkBAAIC") (lit "holiday.jpg")
           (lit "Photo").

Definition later_record : ArchiveRecord :=
  mkRecord (lit "0000000000000002") (lit "BAACAgQAAxkBAAID") (lit "talk.mp4")
           (lit "Video").

(** Two documents of different content under the same name, the name with a
    blank in front. *)
Definition padded_upload_1 : option Message :=
  Some (mkMessage 7 1
          (Some (mkMedia (lit "BQACAgQAAxkBAAIB") (Some (lit " report.pdf"))))
          None None).

Definition padded_upload_2 : option Message :=
  Some (mkMessage 7 2
          (Some (mkMedia (lit "BQACAgQAAxkBAAIC") (Some (lit " report.pdf"))))
          None None).

Definition clean_upload_1 : option Message :=
  Some (mkMessage 7 1
          (Some (mkMedia (lit "BQACAgQAAxkBAAIB") (Some (lit "report.pdf"))))
          None None).

Definition clean_upload_2 : option Message :=
  Some (mkMessage 7 2
          (Some (mkMedia (lit "BQACAgQAAxkBAAIC") (Some (lit "report.pdf"))))
          None None).

Definition clean_upload_3 : option Message :=
  Some (mkMessage 7 3 None (Some [lit "AgACAgQAAxkBAAID"; lit "AgACAgQAAxkBAAIE"]) None).
(* ===================================================================== *)
(** * Text commands: handleFileRequest, handleDebug and the whole webhook *)
(* ===================================================================== *)

(** [s.split(sep)] for a separator of one character: never empty, the last
    piece is what follows the last separator. *)
Fixpoint split_on (sep : ascii) (s : str) : list str :=
  match s with
  | [] => [[]]
  | c :: s' =>
      if Ascii.eqb c sep then [] :: split_on sep s'
      else match split_on sep s' with
           | l :: ls => (c :: l) :: ls
           | [] => [[c]]
           end
  end.

Definition space : ascii := " "%char.

(** [/^\d+$/.test(s)]: one decimal digit at least and nothing else. *)
Definition all_digits (s : str) : bool := truthy s && forallb is_digit s.

(** The longest prefix of decimal digits. *)
Fixpoint leading_digits (s : str) : str :=
  match s with
  | c :: s' => if is_digit c then c :: leading_digits s' else []
  | [] => []
  end.

(** The number that a run of decimal digits denotes, read left to right
    after [acc]. *)
Fixpoint digits_value (ds : str) (acc : Z) : Z :=
  match ds with
  | c :: ds' => digits_value ds' (10 * acc + (Z.of_nat (nat_of_ascii c) - 48))%Z
  | [] => acc
  end.

(** [parseInt(s, 10)]: white space is skipped, then a sign and the longest
    run of decimal digits are read; [None] is NaN, the result when there is
    no digit. JavaScript numbers are doubles: the result here is the number
    of the code as long as it is a safe integer (below 2^53 in absolute
    value); beyond, the code rounds and the model does not. *)
Definition parseInt (s : str) : option Z :=
  let s1 := trimStart s in
  let '(sign, s2) :=
    match s1 with
    | c :: r =>
        if Ascii.eqb c "-"%char then ((-1)%Z, r)
        else if Ascii.eqb c "+"%char then (1%Z, r)
        else (1%Z, s1)
    | [] => (1%Z, s1)
    end in
  match leading_digits s2 with
  | [] => None
  | ds => Some (sign * digits_value ds 0)%Z
  end.

(** The successful answer of the Bot API to a request that sends a message:
    a fresh message id. *)
Definition fresh_message : M TgReply :=
  fun w =>
    (Ok (mkReply true (next_message w)),
     mkWorld (csv_file w) (del_file w) (next_sha w) (faults w)
             (random w) (next_message w + 1)%Z (trace w)).

Module Commands.

(** The variables of the environment that the handlers read, besides the
    credentials. *)
Record Env := mkEnv { DELETE_DELAY_MS : option str }.

(** [parseInt(env.DELETE_DELAY_MS, 10) || 5400000]: a variable that is not
    set reads as the text undefined, which holds no digit; NaN and 0 are
    falsy. The delay of the code is this number as long as it is a safe
    integer; what is proved of the delay and of the times computed from it
    is proved under [exact_times]. *)
Definition deleteDelayMs (env : Env) : Z :=
  match DELETE_DELAY_MS env with
  | Some s =>
      match parseInt s with
      | Some n => if (n =? 0)%Z then 5400000%Z else n
      | None => 5400000%Z
      end
  | None => 5400000%Z
  end.

(** [Math.round(deleteDelayMs / 60000)]: the nearest integer, a half
    upwards; on the safe integers the division in doubles does not move a
    quotient across a half. *)
Definition deleteDelayMinutes (deleteDelayMs : Z) : Z :=
  ((deleteDelayMs + 30000) / 60000)%Z.

(** The texts sent to the chat by handleFileRequest and handleDebug, with
    what their templates interpolate. *)
Inductive Notice :=
| TxtWelcome
| TxtInvalidCommand
| TxtSearching
| TxtNotFound
| TxtSearchError (error : Err)
| TxtDebugInfo (fileCount size : Z) (isLarge : bool)
| TxtDebugError (error : Err).

(** The caption of a delivered file: what the template interpolates. *)
Record Caption := mkCaption {
  cap_numericalFileId : str;
  cap_file_name : str;
  cap_deleteDelayMinutes : Z
}.

(** The requests of the command handlers to the Bot API. *)
Inductive BotCall :=
| SendNotice (chat : Z) (text : Notice)
| SendPhoto (chat : Z) (photoId : str) (caption : Caption)
| SendDocument (chat : Z) (documentId : str) (caption : Caption).

(** What the command handlers leave behind besides the trace of the world:
    a request to the Bot API with its answer (none when the request was
    rejected), and the console error of handleFileRequest. *)
Inductive Entry :=
| Exchange (c : BotCall) (answer : option TgReply)
| ErrHandlingRequest.

(** The state of a run of the command handlers: the world, and the journal
    of their own requests and console errors, oldest first. The requests of
    the functions of the managers stay in the trace of the world. *)
Record Session := mkSession { world : World; journal : list Entry }.

Definition C (A : Type) := Session -> Res A * Session.

Definition cret {A} (a : A) : C A := fun s => (Ok a, s).

Definition cthrow {A} (e : Err) : C A := fun s => (Throw e, s).

Definition cbind {A B} (m : C A) (k : A -> C B) : C B :=
  fun s =>
    match m s with
    | (Ok a, s') => k a s'
    | (Throw e, s') => (Throw e, s')
    end.

Definition ctry_catch {A} (body : C A) (handler : Err -> C A) : C A :=
  fun s =>
    match body s with
    | (Ok a, s') => (Ok a, s')
    | (Throw e, s') => handler e s'
    end.

(** A computation on the world, run in a session. *)
Definition lift {A} (m : M A) : C A :=
  fun s =>
    match m (world s) with
    | (r, w') => (r, mkSession w' (journal s))
    end.

Definition note (e : Entry) : C unit :=
  fun s => (Ok tt, mkSession (world s) (journal s ++ [e])).

Declare Scope cmd_scope.
Delimit Scope cmd_scope with cmd.
Notation "x <- m ;; k" := (cbind m (fun x => k))
  (at level 61, m at next level, right associativity) : cmd_scope.
Notation "m ;; k" := (cbind m (fun _ => k))
  (at level 61, right associativity) : cmd_scope.
Local Open Scope cmd_scope.

(** A request to the Bot API and [await response.json()]: the transport
    and the answers are those of [fetch_telegram]. *)
Definition fetch_bot (c : BotCall) : C TgReply :=
  f <- lift next_fault ;;
  match f with
  | NetworkDown => note (Exchange c None) ;; cthrow NetworkError
  | BadStatus =>
      note (Exchange c (Some (mkReply false 0%Z))) ;; cret (mkReply false 0%Z)
  | NoFault =>
      reply <- lift fresh_message ;;
      note (Exchange c (Some reply)) ;;
      cret reply
  end.

Definition sendMessage (chatId : Z) (text : Notice) : C TgReply :=
  fetch_bot (SendNotice chatId text).

Definition sendPhoto (chatId : Z) (photoId : str) (caption : Caption) : C TgReply :=
  fetch_bot (SendPhoto chatId photoId caption).

Definition sendDocument (chatId : Z) (documentId : str) (caption : Caption) : C TgReply :=
  fetch_bot (SendDocument chatId documentId caption).

(** [update.message] with its text, when it has one. *)
Record TextMessage := mkText { fields : Message; text : option str }.

(** [parts.length > 1 ? parts[1] : ''] for [parts = text.split(' ')]. *)
Definition requested_id (text : str) : str :=
  let parts := split_on space text in
  if 1 <? List.length parts then nth 1 parts [] else [].

(** [now] is the value of [Date.now()]. A message without text has nothing
    to split. *)
Definition handleFileRequest (env : Env) (now : Z) (message : TextMessage) : C unit :=
  let chatId := chat (fields message) in
  match text message with
  | None => cthrow TypeError
  | Some text =>
      let numericalFileId := requested_id text in
      if negb (all_digits numericalFileId) then
        if startsWith text (lit "/start")
        then sendMessage chatId TxtWelcome ;; cret tt
        else sendMessage chatId TxtInvalidCommand ;; cret tt
      else
        ctry_catch
          (searchingMessage <- sendMessage chatId TxtSearching ;;
           fileData <- lift (findFileByIdStreaming numericalFileId) ;;
           (if tg_ok searchingMessage
            then lift (deleteMessage chatId (tg_message_id searchingMessage))
            else cret tt) ;;
           match fileData with
           | None => sendMessage chatId TxtNotFound ;; cret tt
           | Some fileData =>
               let deleteDelayMs := deleteDelayMs env in
               let caption :=
                 mkCaption numericalFileId (file_name fileData)
                           (deleteDelayMinutes deleteDelayMs) in
               sentMessage <-
                 (if str_eqb (file_type fileData) (lit "Photo")
                  then sendPhoto chatId (file_id fileData) caption
                  else sendDocument chatId (file_id fileData) caption) ;;
               if tg_ok sentMessage then
                 loaded <- lift getDeletions ;;
                 let (deletions, sha) := loaded in
                 let deleteAt := (now + deleteDelayMs)%Z in
                 lift (updateDeletions
                         (deletions ++ [mkJob chatId (tg_message_id sentMessage) deleteAt])
                         sha)
               else cret tt
           end)
          (fun error =>
             note ErrHandlingRequest ;; sendMessage chatId (TxtSearchError error) ;; cret tt)
  end.

Definition handleDebug (message : TextMessage) : C unit :=
  let chatId := chat (fields message) in
  ctry_catch
    (fileInfo <- lift getFileInfo ;;
     fileCount <- (if fi_exists fileInfo then lift getFileCount else cret 0%Z) ;;
     sendMessage chatId (TxtDebugInfo fileCount (fi_size fileInfo) (isLarge fileInfo)) ;;
     cret tt)
    (fun error => sendMessage chatId (TxtDebugError error) ;; cret tt).

(** handleTelegramWebhook with all its branches; [None] is an update
    without a message. *)
Definition handleTelegramWebhook (env : Env) (now : Z) (update : option TextMessage)
  : C HttpReply :=
  ctry_catch
    (match update with
     | None => cret ReplyOK
     | Some message =>
         match document (fields message), photo (fields message),
               video (fields message) with
         | None, None, None =>
             match text message with
             | Some t =>
                 if truthy t then
                   if startsWith t (lit "/start") || startsWith t (lit "/get")
                   then handleFileRequest env now message ;; cret ReplyOK
                   else if startsWith t (lit "/debug")
                   then handleDebug message ;; cret ReplyOK
                   else cret ReplyOK
                 else cret ReplyOK
             | None => cret ReplyOK
             end
         | _, _, _ => lift (handleFileUpload (fields message)) ;; cret ReplyOK
         end
     end)
    (fun _ => lift (console_error ErrWebhook) ;; cret ReplyError).

(** The two entry points of the worker. *)
Inductive WorkerReply :=
| Webhook (reply : HttpReply)
| BotIsRunning.

Definition fetch (pathname method : str) (env : Env) (now : Z)
  (update : option TextMessage) : C WorkerReply :=
  if str_eqb pathname (lit "/webhook") && str_eqb method (lit "POST")
  then reply <- handleTelegramWebhook env now update ;; cret (Webhook reply)
  else cret BotIsRunning.

Definition scheduled (now : Z) : C unit := lift (handleScheduledDeletions now).

End Commands.

(** [Number.isSafeInteger(n)]: the integers that a double holds exactly,
    up to 2^53 - 1 in absolute value. *)
Definition isSafeInteger (n : Z) : bool := (Z.abs n <=? 2 ^ 53 - 1)%Z.

(** The numbers of a retrieval are safe integers: the time of the request,
    the delay that the setting gives, and their sum. There the doubles of
    the code and the integers of the model agree. *)
Definition exact_times (env : Commands.Env) (now : Z) : bool :=
  isSafeInteger now && isSafeInteger (Commands.deleteDelayMs env)
  && isSafeInteger (now + Commands.deleteDelayMs env).

(** A session that starts on a world. *)
Definition session_of (w : World) : Commands.Session := Commands.mkSession w [].

(* ===================================================================== *)
(** * data_gen.js: parseMarkdownContent *)
(* ===================================================================== *)

(** The longest prefix of characters that satisfy [p], and the rest. *)
Fixpoint span (p : ascii -> bool) (s : str) : str * str :=
  match s with
  | c :: s' =>
      if p c then let (a, b) := span p s' in (c :: a, b) else ([], s)
  | [] => ([], [])
  end.

Definition endsWith (s p : str) : bool := startsWith (rev s) (rev p).

(** The line terminators among the code units 0..255: a dot of a regular
    expression matches every character but these. *)
Definition is_line_terminator (c : ascii) : bool :=
  Ascii.eqb c newline || Ascii.eqb c (ascii_of_nat 13).

Module DataGen.

Record Link := mkLink { title : str; url : str; category : str }.

Record Category := mkCategory { cat_title : str; cat_links : list Link }.

Record Parsed := mkParsed { categories : list Category; links : list Link }.

(** The match of a trimmed line against the heading pattern, two escaped
    stars, a lazy group of one or more dots, two escaped stars, anchored at
    both ends; the result is the text of the group. The line is two stars,
    one character at least and none of them a line terminator, and two
    stars. The end anchor leaves the lazy group one choice: all that stands
    between the first two stars and the last two. *)
Definition headingMatch (trimmed : str) : option str :=
  let inner := skipn 2 trimmed in
  let text := firstn (List.length inner - 2) inner in
  if startsWith trimmed (lit "**") && endsWith inner (lit "**")
     && truthy text && negb (existsb is_line_terminator text)
  then Some text else None.

(** The optional group at the head of the link pattern (one or more
    digits, a dot, any white space): it is skipped when the line begins
    with it. *)
Definition skip_numbering (trimmed : str) : str :=
  match span is_digit trimmed with
  | (_ :: _, c :: rest) =>
      if Ascii.eqb c "."%char then trimStart rest else trimmed
  | _ => trimmed
  end.

(** The match of a trimmed line against the link pattern, anchored at the
    start only; the result is the texts of the second and the third group.
    After the optional numbering comes an opening bracket, the title up to
    the first closing bracket, an opening parenthesis at once, and the
    address up to the first closing parenthesis. Title and address are not
    empty; what follows is not looked at. *)
Definition linkMatch (trimmed : str) : option (str * str) :=
  match skip_numbering trimmed with
  | open :: r1 =>
      if Ascii.eqb open "["%char then
        match span (fun c => negb (Ascii.eqb c "]"%char)) r1 with
        | ((_ :: _) as title, close :: paren :: r2) =>
            if Ascii.eqb close "]"%char && Ascii.eqb paren "("%char then
              match span (fun c => negb (Ascii.eqb c ")"%char)) r2 with
              | ((_ :: _) as url, _ :: _) => Some (title, url)
              | _ => None
              end
            else None
        | _ => None
        end
      else None
  | [] => None
  end.

(** The [for (const line of lines)] loop: the categories closed so far, the
    category that is open, and the links found so far. *)
Fixpoint parse_lines (lines : list str) (categories : list Category)
  (currentCategory : option Category) (links : list Link)
  : list Category * option Category * list Link :=
  match lines with
  | [] => (categories, currentCategory, links)
  | line :: lines' =>
      let trimmed := trim line in
      match headingMatch trimmed with
      | Some heading =>
          parse_lines lines'
            (match currentCategory with
             | Some c => categories ++ [c]
             | None => categories
             end)
            (Some (mkCategory heading [])) links
      | None =>
          match linkMatch trimmed with
          | Some (t, u) =>
              let link :=
                mkLink t u
                  (match currentCategory with
                   | Some c => cat_title c
                   | None => lit "Uncategorized"
                   end) in
              parse_lines lines' categories
                (match currentCategory with
                 | Some c => Some (mkCategory (cat_title c) (cat_links c ++ [link]))
                 | None => None
                 end)
                (links ++ [link])
          | None => parse_lines lines' categories currentCategory links
          end
      end
  end.

Definition parseMarkdownContent (content : str) : Parsed :=
  let '(categories, currentCategory, links) :=
    parse_lines (split_lines content) [] None [] in
  let categories :=
    match currentCategory with
    | Some c => categories ++ [c]
    | None => categories
    end in
  if (List.length categories =? 0) && (0 <? List.length links)
  then mkParsed (categories ++ [mkCategory (lit "All Links") links]) links
  else mkParsed categories links.

End DataGen.

(* ===================================================================== *)
(** * Notions of the further properties *)
(* ===================================================================== *)

(** A request that reads: the three GET requests of the content API. *)
Definition is_read (r : Request) : bool :=
  match r with
  | GetCsv | GetBlob _ | GetDeletions => true
  | _ => false
  end.

(** A run that only reads: both files are left as they are, and the
    requests it adds to the trace are reads. *)
Definition reads_only (w w' : World) : Prop :=
  csv_file w' = csv_file w /\ del_file w' = del_file w
  /\ exists new, trace w' = trace w ++ new /\ forallb is_read (requests new) = true.

(** The request number [k] of a run that starts in [w] is refused: it is
    rejected before it reaches its server, or it is answered with an error
    status. A write that is refused is not applied. *)
Definition refused (k : nat) (w : World) : Prop := fault_at k w <> NoFault.

(** The console errors of a trace, in order. *)
Definition console_errors (t : list Event) : list Console :=
  flat_map (fun e => match e with Error c => [c] | _ => [] end) t.

(** What a run of the command handlers does to the world, whatever the
    transport does. *)
Definition cpost (R : World -> World -> Prop) {A} (m : Commands.C A) : Prop :=
  forall s, R (Commands.world s) (Commands.world (snd (m s))).

(** Both files of the repository are left as they are. *)
Definition keeps_files (w w' : World) : Prop :=
  csv_file w' = csv_file w /\ del_file w' = del_file w.

(** The queue is left as it is or it gains the job [j] at its end; the
    archive is left as it is. *)
Definition schedules (j : DeletionJob) (w w' : World) : Prop :=
  csv_file w' = csv_file w
  /\ (del_file w' = del_file w \/ queue w' = queue w ++ [j]).

(** The queue file is left as it is. *)
Definition keeps_del (w w' : World) : Prop := del_file w' = del_file w.

(** Every job of the queue is still in the queue. *)
Definition queue_kept (w w' : World) : Prop := incl (queue w) (queue w').

(** An invocation of the worker: a request to its address, or a tick of the
    cron trigger. *)
Inductive Invocation :=
| OnFetch (pathname method : str) (now : Z) (update : option Commands.TextMessage)
| OnScheduled (now : Z).

Definition invoke (env : Commands.Env) (i : Invocation)
  : Commands.C (option Commands.WorkerReply) :=
  match i with
  | OnFetch pathname method now update =>
      Commands.cbind (Commands.fetch pathname method env now update)
        (fun reply => Commands.cret (Some reply))
  | OnScheduled now =>
      Commands.cbind (Commands.scheduled now) (fun _ => Commands.cret None)
  end.

(** Invocations one after the other. *)
Fixpoint run (env : Commands.Env) (calls : list Invocation)
  : Commands.C (list (option Commands.WorkerReply)) :=
  match calls with
  | [] => Commands.cret []
  | i :: calls' =>
      Commands.cbind (invoke env i) (fun r =>
      Commands.cbind (run env calls') (fun rs =>
      Commands.cret (r :: rs)))
  end.

(** The request that delivers a file: a photo as a photo, anything else as
    a document. *)
Definition delivery (chatId : Z) (numericalFileId : str) (found : FileData)
  (deleteDelayMs : Z) : Commands.BotCall :=
  let caption := Commands.mkCaption numericalFileId (file_name found)
                   (Commands.deleteDelayMinutes deleteDelayMs) in
  if str_eqb (file_type found) (lit "Photo")
  then Commands.SendPhoto chatId (file_id found) caption
  else Commands.SendDocument chatId (file_id found) caption.


(** A message that handleTelegramWebhook passes to a handler of commands:
    no media, and a text that begins with one of the three command words. *)
Definition is_command (message : Commands.TextMessage) : bool :=
  match document (Commands.fields message), photo (Commands.fields message),
        video (Commands.fields message), Commands.text message with
  | None, None, None, Some t =>
      truthy t
      && (startsWith t (lit "/start") || startsWith t (lit "/get")
          || startsWith t (lit "/debug"))
  | _, _, _, _ => false
  end.

(** The link that a line gives, filed under [name]: none when the line is
    no link line. *)
Definition link_of (name : str) (line : str) : list DataGen.Link :=
  match DataGen.linkMatch (trim line) with
  | Some (t, u) => [DataGen.mkLink t u name]
  | None => []
  end.

(** The links of the lines, in order, all filed under [name]. *)
Definition links_under (name : str) (lines : list str) : list DataGen.Link :=
  flat_map (link_of name) lines.

(** The lines cut at the heading lines: the lines before the first heading,
    and every heading, in order, with the lines that follow it up to the
    next heading. *)
Fixpoint sections (lines : list str) : list str * list (str * list str) :=
  match lines with
  | [] => ([], [])
  | l :: ls =>
      let (lead, secs) := sections ls in
      match DataGen.headingMatch (trim l) with
      | Some heading => ([], (heading, lead) :: secs)
      | None => (l :: lead, secs)
      end
  end.

(** The category of a heading and the lines under it. *)
Definition category_of (sec : str * list str) : DataGen.Category :=
  DataGen.mkCategory (fst sec) (links_under (fst sec) (snd sec)).

(** The categories of the loop with the open one closed. *)
Definition closed (categories : list DataGen.Category)
  (currentCategory : option DataGen.Category) : list DataGen.Category :=
  match currentCategory with
  | Some c => categories ++ [c]
  | None => categories
  end.

(** The name under which the loop files a link, and the open category with
    more links. *)
Definition name_of (currentCategory : option DataGen.Category) : str :=
  match currentCategory with
  | Some c => DataGen.cat_title c
  | None => lit "Uncategorized"
  end.

Definition add_links (currentCategory : option DataGen.Category)
  (more : list DataGen.Link) : option DataGen.Category :=
  match currentCategory with
  | Some c => Some (DataGen.mkCategory (DataGen.cat_title c) (DataGen.cat_links c ++ more))
  | None => None
  end.

(** ** Concrete inputs of the further properties *)

(** A name with a comma, a space, two quotes and a line break. *)
Definition awkward_name : str :=
  lit "a, b" ++ [dquote] ++ lit "c" ++ [dquote; newline] ++ lit "d.pdf".

(** A repository with an archive of two records and one job in the queue,
    and a transport without faults. *)
Definition archive_world : World :=
  mkWorld (Some (mkFile (render [earlier_record; later_record]) 3 147))
          (Some (mkFile [job_b] 5 50)) 6 [] (fun i => (7 * i + 3) mod 10) 100%Z [].

(** The same repository; the second request to come is answered with
    status 500. *)
Definition interrupted_world : World :=
  mkWorld (Some (mkFile (render [earlier_record; later_record]) 3 147))
          (Some (mkFile [job_b] 5 50)) 6 [NoFault; BadStatus]
          (fun i => (7 * i + 3) mod 10) 100%Z [].

(** The same repository; the first request to come is rejected. *)
Definition unreachable_world : World :=
  mkWorld (Some (mkFile (render [earlier_record; later_record]) 3 147))
          (Some (mkFile [job_b] 5 50)) 6 [NetworkDown]
          (fun i => (7 * i + 3) mod 10) 100%Z [].

(** A repository whose archive file exists and is empty. *)
Definition hollow_world : World :=
  mkWorld (Some (mkFile [] 3 0)) None 6 [] (fun i => i mod 10) 100%Z [].

(** Four jobs in the queue; the fourth request to come, the writeback of a
    sweep with two due jobs, is answered with status 500. *)
Definition failing_write_world : World :=
  mkWorld None (Some (mkFile [job_a; job_b; job_c; job_d] 5 200)) 6
          [NoFault; NoFault; NoFault; BadStatus] (fun i => i mod 10) 100%Z [].

(** Four jobs in the queue; the Bot API answers the two deletions to come
    with status 500. *)
Definition refusing_world : World :=
  mkWorld None (Some (mkFile [job_a; job_b; job_c; job_d] 5 200)) 6
          [NoFault; BadStatus; BadStatus] (fun i => i mod 10) 100%Z [].

Definition no_media (chatId : Z) : Message := mkMessage chatId 55 None None None.

Definition get_photo : Commands.TextMessage :=
  Commands.mkText (no_media 7) (Some (lit "/get 0000000000000001")).

Definition start_photo : Commands.TextMessage :=
  Commands.mkText (no_media 7) (Some (lit "/start 0000000000000001")).

Definition get_unknown : Commands.TextMessage :=
  Commands.mkText (no_media 7) (Some (lit "/get 42")).

(** Two spaces: the second part of the text is empty. *)
Definition get_misspelt : Commands.TextMessage :=
  Commands.mkText (no_media 7) (Some (lit "/get  0000000000000001")).

Definition default_env : Commands.Env := Commands.mkEnv None.



Definition report_upload : Message :=
  mkMessage 7 1 (Some (mkMedia (lit "BQACAgQAAxkBAAIB") (Some (lit "report.pdf"))))
            None None.

Definition get_report : Commands.TextMessage :=
  Commands.mkText (no_media 7) (Some (lit "/get 3074185296307418")).

(** An upload, the request of the uploaded file, and two ticks of the cron
    trigger, the second after the deadline of the delivery. *)
Definition busy_day : list Invocation :=
  [OnFetch (lit "/webhook") (lit "POST") 1000
     (Some (Commands.mkText report_upload None));
   OnFetch (lit "/webhook") (lit "POST") 2000 (Some get_report);
   OnScheduled 3000;
   OnFetch (lit "/") (lit "GET") 4000 None;
   OnScheduled 5402000].

(** A page with a link before the first heading, two categories with links
    and one without. *)
Definition sample_page : str :=
  lit "intro" ++ [newline] ++ lit "[zero](u0)" ++ [newline]
  ++ lit "**Tools**" ++ [newline] ++ lit "1. [one](u1)" ++ [newline]
  ++ lit "text" ++ [newline] ++ lit "2. [two](u2)" ++ [newline]
  ++ lit "**Empty**" ++ [newline] ++ lit "**More**" ++ [newline]
  ++ lit "[three](u3)".

(* ===================================================================== *)
(** * Strings: trimming, splitting, searching *)
(* ===================================================================== *)

Unset Implicit Arguments.

#[local] Arguments Ascii.eqb : simpl never.
#[local] Arguments is_ws : simpl never.

Lemma str_eqb_eq (a b : str) : str_eqb a b = true <-> a = b.
Proof.
  unfold str_eqb. destruct (list_eq_dec ascii_dec a b); split; congruence.
Qed.

Lemma str_eqb_neq (a b : str) : str_eqb a b = false <-> a <> b.
Proof.
  unfold str_eqb. destruct (list_eq_dec ascii_dec a b); split; congruence.
Qed.

Lemma has_char_app c (a b : str) :
  has_char c (a ++ b) = has_char c a || has_char c b.
Proof. unfold has_char. apply existsb_app. Qed.

Lemma has_char_cons c d (s : str) :
  has_char c (d :: s) = Ascii.eqb c d || has_char c s.
Proof. reflexivity. Qed.

Lemma trimStart_clean (s : str) : starts_clean s = true -> trimStart s = s.
Proof.
  destruct s as [|c s]; simpl; [reflexivity|].
  destruct (is_ws c); simpl; [discriminate | reflexivity].
Qed.

Lemma trimEnd_clean (s : str) : starts_clean (rev s) = true -> trimEnd s = s.
Proof.
  intros H. unfold trimEnd. rewrite (trimStart_clean _ H). apply rev_involutive.
Qed.

Lemma trim_unpadded (s : str) : unpadded s = true -> trim s = s.
Proof.
  unfold unpadded, trim. intros H. apply andb_prop in H. destruct H as [H1 H2].
  rewrite (trimStart_clean _ H1). apply trimEnd_clean. exact H2.
Qed.

Lemma starts_clean_app (a b : str) :
  truthy a = true -> starts_clean a = true -> starts_clean (a ++ b) = true.
Proof. destruct a; simpl; [discriminate | auto]. Qed.

Lemma truthy_rev (s : str) : truthy (rev s) = truthy s.
Proof.
  destruct s as [|c s]; simpl; [reflexivity|].
  destruct (rev s); reflexivity.
Qed.

Lemma truthy_app_l (a b : str) : truthy a = true -> truthy (a ++ b) = true.
Proof. destruct a; simpl; [discriminate | reflexivity]. Qed.

Lemma truthy_app_r (a b : str) : truthy b = true -> truthy (a ++ b) = true.
Proof. destruct a; simpl; [auto | reflexivity]. Qed.

(** A text between a clean head and a clean tail is not padded. *)
Lemma unpadded_between (a m b : str) :
  truthy a = true -> starts_clean a = true ->
  truthy b = true -> starts_clean (rev b) = true ->
  unpadded (a ++ m ++ b) = true.
Proof.
  intros Ha Hca Hb Hcb. unfold unpadded. apply andb_true_intro. split.
  - apply starts_clean_app; assumption.
  - rewrite !rev_app_distr, <- app_assoc.
    apply starts_clean_app; [rewrite truthy_rev|]; assumption.
Qed.

Lemma trimEnd_snoc_ws (s : str) c : is_ws c = true -> trimEnd (s ++ [c]) = trimEnd s.
Proof.
  intros H. unfold trimEnd. rewrite rev_app_distr. simpl. rewrite H. reflexivity.
Qed.

Lemma split_lines_not_nil (s : str) : split_lines s <> [].
Proof.
  induction s as [|c s IH]; simpl; [discriminate|].
  destruct (Ascii.eqb c newline); [discriminate|].
  destruct (split_lines s); discriminate.
Qed.

Lemma split_lines_one (l : str) :
  has_char newline l = false -> split_lines l = [l].
Proof.
  induction l as [|c l IH]; simpl; [reflexivity|].
  rewrite (Ascii.eqb_sym newline c). intros H. apply orb_false_elim in H. destruct H as [H1 H2].
  rewrite H1, (IH H2). reflexivity.
Qed.

Lemma split_lines_app (l rest : str) :
  has_char newline l = false ->
  split_lines (l ++ newline :: rest) = l :: split_lines rest.
Proof.
  induction l as [|c l IH]; simpl.
  - reflexivity.
  - rewrite (Ascii.eqb_sym newline c). intros H. apply orb_false_elim in H. destruct H as [H1 H2].
    rewrite H1, (IH H2). reflexivity.
Qed.

Lemma before_newline_app (l rest : str) :
  has_char newline l = false ->
  before_newline (l ++ newline :: rest) = Some l.
Proof.
  induction l as [|c l IH]; simpl.
  - reflexivity.
  - rewrite (Ascii.eqb_sym newline c). intros H. apply orb_false_elim in H. destruct H as [H1 H2].
    rewrite H1, (IH H2). reflexivity.
Qed.


(* ===================================================================== *)
(** * parseCSVLine *)
(* ===================================================================== *)

Lemma startsWith_nil (s : str) : startsWith s [] = true.
Proof. destruct s; reflexivity. Qed.

Lemma loop_comma rest current result :
  parseCSVLine_loop (comma :: rest) current false result
  = parseCSVLine_loop rest [] false (result ++ [trim current]).
Proof. reflexivity. Qed.

(** Outside quotes, characters other than the comma and the quote go to
    the current field. *)
Lemma loop_plain (f : str) :
  has_char comma f = false -> has_char dquote f = false ->
  forall rest current result,
    parseCSVLine_loop (f ++ rest) current false result
    = parseCSVLine_loop rest (current ++ f) false result.
Proof.
  induction f as [|c f IH]; intros Hc Hq rest current result.
  - rewrite app_nil_r. reflexivity.
  - rewrite has_char_cons in Hc, Hq.
    apply orb_false_elim in Hc. destruct Hc as [Hc1 Hc2].
    apply orb_false_elim in Hq. destruct Hq as [Hq1 Hq2].
    rewrite Ascii.eqb_sym in Hc1. rewrite Ascii.eqb_sym in Hq1.
    simpl. rewrite Hq1, Hc1. simpl.
    rewrite (IH Hc2 Hq2). rewrite <- app_assoc. reflexivity.
Qed.

(** Inside quotes, everything up to the closing quote goes to the current
    field, a doubled quote as one quote. *)
Lemma loop_in_quotes (f : str) :
  forall rest current result,
    startsWith rest [dquote] = false ->
    parseCSVLine_loop (double_quotes f ++ dquote :: rest) current true result
    = parseCSVLine_loop rest (current ++ f) false result.
Proof.
  induction f as [|c f IH]; intros rest current result Hrest.
  - rewrite app_nil_r. simpl. try rewrite Ascii.eqb_refl.
    destruct rest as [|next rest2]; [reflexivity|].
    simpl in Hrest. rewrite startsWith_nil, andb_true_r, Ascii.eqb_sym in Hrest.
    rewrite Hrest. reflexivity.
  - simpl. destruct (Ascii.eqb c dquote) eqn:E.
    + apply Ascii.eqb_eq in E. subst c.
      simpl. try rewrite Ascii.eqb_refl. simpl.
      rewrite (IH _ _ _ Hrest). rewrite <- app_assoc. reflexivity.
    + simpl. rewrite E. rewrite andb_false_r.
      rewrite (IH _ _ _ Hrest). rewrite <- app_assoc. reflexivity.
Qed.

Lemma loop_open_quote rest current result :
  parseCSVLine_loop (dquote :: rest) current false result
  = parseCSVLine_loop rest current true result.
Proof.
  simpl. try rewrite Ascii.eqb_refl. destruct rest; reflexivity.
Qed.

Lemma loop_quoted (f rest current : str) (fields : list str) :
  startsWith rest [dquote] = false ->
  parseCSVLine_loop ((dquote :: double_quotes f ++ [dquote]) ++ rest) current false fields
  = parseCSVLine_loop rest (current ++ f) false fields.
Proof.
  intros Hrest.
  replace ((dquote :: double_quotes f ++ [dquote]) ++ rest)
    with (dquote :: (double_quotes f ++ dquote :: rest))
    by (simpl; rewrite <- app_assoc; reflexivity).
  rewrite loop_open_quote. apply loop_in_quotes. exact Hrest.
Qed.

(** A field written by escapeCSV is read back whole, whatever it holds. *)
Lemma loop_escaped (f rest current : str) (fields : list str) :
  startsWith rest [dquote] = false ->
  parseCSVLine_loop (escapeCSV f ++ rest) current false fields
  = parseCSVLine_loop rest (current ++ f) false fields.
Proof.
  intros Hrest. unfold escapeCSV.
  destruct (has_char comma f) eqn:Hc; [apply loop_quoted; exact Hrest|].
  destruct (has_char dquote f) eqn:Hq; [apply loop_quoted; exact Hrest|].
  destruct (has_char newline f) eqn:Hn; [apply loop_quoted; exact Hrest|].
  apply loop_plain; assumption.
Qed.

(** The four fields of a row, trimmed: the line that appendToCSV writes is
    read back field by field when the first two and the last hold no comma
    and no quote. *)
Lemma parseCSVLine_row (i f n t : str) :
  has_char comma i = false -> has_char dquote i = false ->
  has_char comma f = false -> has_char dquote f = false ->
  has_char comma t = false -> has_char dquote t = false ->
  parseCSVLine (row i f n t) = [trim i; trim f; trim n; trim t].
Proof.
  intros Hic Hiq Hfc Hfq Htc Htq. unfold parseCSVLine, row.
  rewrite (loop_plain i Hic Hiq). simpl app at 1.
  rewrite loop_comma.
  rewrite (loop_plain f Hfc Hfq). simpl app at 1.
  rewrite loop_comma.
  rewrite loop_escaped by reflexivity. simpl app at 1.
  rewrite loop_comma.
  rewrite <- (app_nil_r t) at 1.
  rewrite (loop_plain t Htc Htq). reflexivity.
Qed.

Lemma loop_length_upto (n : nat) :
  forall line, List.length line <= n ->
  forall current inQuotes result,
    List.length result < List.length (parseCSVLine_loop line current inQuotes result).
Proof.
  induction n as [|n IH]; intros line Hn current inQuotes result.
  - destruct line; [|simpl in Hn; lia].
    simpl. rewrite length_app. simpl. lia.
  - destruct line as [|c line].
    + simpl. rewrite length_app. simpl. lia.
    + simpl in Hn. simpl. destruct (Ascii.eqb c dquote).
      * destruct line as [|next rest2].
        -- simpl. rewrite length_app. simpl. lia.
        -- simpl in Hn.
           destruct (inQuotes && Ascii.eqb next dquote); apply IH; simpl; lia.
      * destruct (Ascii.eqb c comma && negb inQuotes).
        -- eapply Nat.lt_trans; [|apply IH; lia].
           rewrite length_app. simpl. lia.
        -- apply IH. lia.
Qed.

Lemma loop_length line current inQuotes result :
  List.length result < List.length (parseCSVLine_loop line current inQuotes result).
Proof. apply (loop_length_upto (List.length line)). lia. Qed.

(** After an opening quote that is never closed, the rest of the line,
    commas included, is one field. *)
Lemma loop_unterminated (rest : str) :
  has_char dquote rest = false ->
  forall current result,
    parseCSVLine_loop rest current true result = result ++ [trim (current ++ rest)].
Proof.
  induction rest as [|c rest IH]; intros Hq current result.
  - rewrite app_nil_r. reflexivity.
  - rewrite has_char_cons in Hq. apply orb_false_elim in Hq. destruct Hq as [Hq1 Hq2].
    rewrite Ascii.eqb_sym in Hq1. simpl. rewrite Hq1. rewrite andb_false_r.
    rewrite (IH Hq2). rewrite <- app_assoc. reflexivity.
Qed.

(* ===================================================================== *)
(** * The sweep of the deletion queue *)
(* ===================================================================== *)

Lemma partition_due_filter now deletions :
  forall d p,
    partition_due now deletions d p
    = (d ++ due now deletions, p ++ pending now deletions).
Proof.
  induction deletions as [|item deletions IH]; intros d p; simpl.
  - rewrite !app_nil_r. reflexivity.
  - rewrite Z.geb_leb. destruct (deleteAt item <=? now)%Z; simpl.
    + rewrite IH, <- app_assoc. reflexivity.
    + rewrite IH, <- app_assoc. reflexivity.
Qed.

Lemma due_pending_all_pending now jobs : due now (pending now jobs) = [].
Proof.
  unfold due, pending. induction jobs as [|j jobs IH]; simpl; [reflexivity|].
  destruct (deleteAt j <=? now)%Z eqn:E; simpl; [exact IH|].
  rewrite E. exact IH.
Qed.

Lemma pending_no_due now jobs : due now jobs = [] -> pending now jobs = jobs.
Proof.
  unfold due, pending. induction jobs as [|j jobs IH]; simpl; [reflexivity|].
  destruct (deleteAt j <=? now)%Z; simpl; [discriminate|].
  intros H. rewrite (IH H). reflexivity.
Qed.

(** What one deleteMessage does to the world, whatever the transport does:
    it returns, it sends one request, it logs the failure of the request, it
    leaves both files alone. *)
Lemma deleteMessage_run c m w :
  exists w',
    deleteMessage c m w = (Ok tt, w')
    /\ csv_file w' = csv_file w /\ del_file w' = del_file w
    /\ next_sha w' = next_sha w
    /\ faults w' = tl (faults w)
    /\ attempted_deletions (trace w') = attempted_deletions (trace w) ++ [(c, m)]
    /\ queue_writes (trace w') = queue_writes (trace w)
    /\ logged_deletion_errors (trace w')
       = logged_deletion_errors (trace w)
         ++ match fault_at 0 w with NetworkDown => [m] | _ => [] end.
Proof.
  unfold deleteMessage, try_catch, fetch_telegram, transport, bind, next_fault,
    emit, console_error, throw, ret, fault_at,
    attempted_deletions, queue_writes, logged_deletion_errors.
  destruct w as [csv del sha fs rnd msg tr]. simpl.
  destruct fs as [|[] fs]; simpl; eexists; (split; [reflexivity|]); simpl;
    rewrite ?flat_map_app; simpl; rewrite ?app_nil_r; repeat split; reflexivity.
Qed.

Lemma skipn_tl {A} n (l : list A) : skipn n (tl l) = skipn (S n) l.
Proof. destruct l; [destruct n|]; reflexivity. Qed.

(** All the deletions of a sweep: every one is attempted, in order, and the
    whole never throws. *)
Lemma delete_all_run (items : list DeletionJob) :
  forall w,
  exists w',
    promise_all (map (fun item => deleteMessage (chatId item) (messageId item)) items) w
    = (Ok (map (fun _ => tt) items), w')
    /\ csv_file w' = csv_file w /\ del_file w' = del_file w
    /\ next_sha w' = next_sha w
    /\ faults w' = skipn (List.length items) (faults w)
    /\ attempted_deletions (trace w')
       = attempted_deletions (trace w) ++ map target items
    /\ queue_writes (trace w') = queue_writes (trace w)
    /\ logged_deletion_errors (trace w')
       = logged_deletion_errors (trace w) ++ failed_deletions items (faults w).
Proof.
  induction items as [|j items IH]; intros w.
  - exists w. simpl. rewrite !app_nil_r. repeat split; reflexivity.
  - destruct (deleteMessage_run (chatId j) (messageId j) w)
      as (w1 & E1 & C1 & D1 & S1 & F1 & A1 & Q1 & L1).
    destruct (IH w1) as (w2 & E2 & C2 & D2 & S2 & F2 & A2 & Q2 & L2).
    exists w2. simpl. rewrite E1, E2.
    repeat split; try congruence.
    + rewrite F2, F1. apply skipn_tl.
    + rewrite A2, A1, <- app_assoc. reflexivity.
    + rewrite L2, L1, F1, <- app_assoc. unfold fault_at.
      destruct (faults w); reflexivity.
Qed.

Lemma getDeletions_run w :
  exists w1,
    getDeletions w
    = (Ok (loaded_jobs w,
           match fault_at 0 w with
           | NoFault => option_map (@rf_sha _) (del_file w)
           | _ => None
           end), w1)
    /\ csv_file w1 = csv_file w /\ del_file w1 = del_file w
    /\ next_sha w1 = next_sha w
    /\ faults w1 = tl (faults w)
    /\ attempted_deletions (trace w1) = attempted_deletions (trace w)
    /\ queue_writes (trace w1) = queue_writes (trace w)
    /\ logged_deletion_errors (trace w1) = logged_deletion_errors (trace w).
Proof.
  unfold getDeletions, try_catch, fetch_deletions, transport, bind, next_fault,
    emit, console_error, throw, ret, get_world, json, loaded_jobs, fault_at, queue,
    attempted_deletions, queue_writes, logged_deletion_errors.
  destruct w as [csv del sha fs rnd msg tr]. simpl.
  destruct fs as [|[] fs]; simpl; try destruct del as [[c s z]|]; simpl;
    eexists; (split; [reflexivity|]); simpl;
    rewrite ?flat_map_app; simpl; rewrite ?app_nil_r; repeat split; reflexivity.
Qed.

(** The writeback of a sweep with its [try]/[catch]: one write is sent and
    nothing is thrown; a write that is served and names the current version
    replaces the queue. *)
Lemma writeback_run (p : list DeletionJob) (sha : option Sha) w :
  exists w',
    try_catch (updateDeletions p sha) (fun _ => console_error ErrUpdatingDeletions) w
    = (Ok tt, w')
    /\ csv_file w' = csv_file w
    /\ faults w' = tl (faults w)
    /\ attempted_deletions (trace w') = attempted_deletions (trace w)
    /\ queue_writes (trace w') = queue_writes (trace w) ++ [(p, sha)]
    /\ logged_deletion_errors (trace w') = logged_deletion_errors (trace w)
    /\ (fault_at 0 w = NoFault -> version_matches (del_file w) sha = true ->
        queue w' = p).
Proof.
  unfold updateDeletions, try_catch, fetch_put_deletions, transport, bind, next_fault,
    emit, console_error, throw, ret, get_world, json, fault_at, queue,
    attempted_deletions, queue_writes, logged_deletion_errors.
  destruct w as [csv del s fs rnd msg tr]. simpl.
  destruct fs as [|[] fs]; simpl;
    try (destruct (version_matches del sha) eqn:V; simpl;
         try (destruct sha; simpl));
    eexists; (split; [reflexivity|]); simpl;
    rewrite ?flat_map_app; simpl; rewrite ?app_nil_r; repeat split;
    try reflexivity; intros; try discriminate.
Qed.

Lemma length_zero_nil {A} (l : list A) : (List.length l =? 0) = true <-> l = [].
Proof. destruct l; simpl; split; intros; congruence. Qed.

(** One run of handleScheduledDeletions, whatever the transport does. *)
Lemma sweep_run now w :
  exists w',
    handleScheduledDeletions now w = (Ok tt, w')
    /\ csv_file w' = csv_file w
    /\ attempted_deletions (trace w')
       = attempted_deletions (trace w) ++ map target (due now (loaded_jobs w))
    /\ logged_deletion_errors (trace w')
       = logged_deletion_errors (trace w)
         ++ failed_deletions (due now (loaded_jobs w)) (tl (faults w))
    /\ (due now (loaded_jobs w) = [] ->
        del_file w' = del_file w
        /\ queue_writes (trace w') = queue_writes (trace w))
    /\ (due now (loaded_jobs w) <> [] ->
        queue_writes (trace w')
        = queue_writes (trace w)
          ++ [(pending now (loaded_jobs w), option_map (@rf_sha _) (del_file w))]
        /\ (fault_at (1 + List.length (due now (loaded_jobs w))) w = NoFault ->
            queue w' = pending now (loaded_jobs w))).
Proof.
  destruct (getDeletions_run w) as (w1 & E1 & C1 & D1 & S1 & F1 & A1 & Q1 & L1).
  unfold handleScheduledDeletions, bind. rewrite E1.
  destruct (List.length (loaded_jobs w) =? 0) eqn:Z0.
  { apply length_zero_nil in Z0. rewrite Z0. simpl.
    exists w1. rewrite !app_nil_r. repeat split; try congruence. }
  rewrite partition_due_filter. cbn [app]. cbv iota.
  destruct (List.length (due now (loaded_jobs w)) =? 0) eqn:Z1.
  { apply length_zero_nil in Z1. rewrite Z1. simpl.
    exists w1. rewrite !app_nil_r. repeat split; try congruence. }
  destruct (delete_all_run (due now (loaded_jobs w)) w1)
    as (w2 & E2 & C2 & D2 & S2 & F2 & A2 & Q2 & L2).
  cbv beta. rewrite E2.
  assert (Hload : fault_at 0 w = NoFault).
  { unfold loaded_jobs in Z0. destruct (fault_at 0 w); [reflexivity | discriminate ..]. }
  rewrite Hload in *.
  destruct (writeback_run (pending now (loaded_jobs w))
              (option_map (@rf_sha _) (del_file w)) w2)
    as (w3 & E3 & C3 & F3 & A3 & Q3 & L3 & W3).
  rewrite E3. exists w3.
  assert (Hne : due now (loaded_jobs w) <> []).
  { intros H. rewrite H in Z1. discriminate. }
  split; [reflexivity|]. split; [congruence|].
  split; [rewrite A3, A2, A1; reflexivity|].
  split; [rewrite L3, L2, L1, F1; reflexivity|].
  split; [intros H; contradiction|].
  intros _. split; [rewrite Q3, Q2, Q1; reflexivity|].
  intros Hput. apply W3.
  - unfold fault_at in *. rewrite F2, F1, skipn_tl.
    rewrite nth_skipn. rewrite Nat.add_comm. exact Hput.
  - rewrite D2, D1. destruct (del_file w) as [f|]; simpl.
    + apply Nat.eqb_refl.
    + reflexivity.
Qed.

(* ===================================================================== *)
(** * Blank lines and the counting loop *)
(* ===================================================================== *)

Lemma getFileCount_loop_lines (rest : str) :
  forall line n,
    getFileCount_loop rest line n
    = (n + Z.of_nat (List.length (nonblank_lines (glue line (split_lines rest)))))%Z.
Proof.
  induction rest as [|c rest IH]; intros line n.
  - simpl. rewrite app_nil_r. unfold blank. rewrite negb_involutive.
    destruct (truthy (trim line)); simpl; lia.
  - simpl. destruct (Ascii.eqb c newline).
    + rewrite IH.
      assert (G : glue [] (split_lines rest) = split_lines rest).
      { destruct (split_lines rest) eqn:E; [|reflexivity].
        exfalso. exact (split_lines_not_nil _ E). }
      rewrite G. unfold nonblank_lines. simpl. rewrite app_nil_r.
      unfold blank at 2. rewrite negb_involutive.
      destruct (truthy (trim line)); simpl; lia.
    + rewrite IH. destruct (split_lines rest) as [|l ls] eqn:E.
      * exfalso. exact (split_lines_not_nil _ E).
      * simpl. rewrite <- app_assoc. reflexivity.
Qed.

(** The counting loop counts the lines that are not blank. *)
Lemma getFileCount_loop_nonblank (content : str) :
  getFileCount_loop content [] 0
  = Z.of_nat (List.length (nonblank_lines (split_lines content))).
Proof.
  rewrite getFileCount_loop_lines.
  destruct (split_lines content) eqn:E; [|reflexivity].
  exfalso. exact (split_lines_not_nil _ E).
Qed.

Lemma findFileByIdStreaming_loop_skips_blank id (lines : list str) :
  forall h,
    findFileByIdStreaming_loop id lines h
    = findFileByIdStreaming_loop id (nonblank_lines lines) h.
Proof.
  induction lines as [|l lines IH]; intros h; [reflexivity|].
  cbn [findFileByIdStreaming_loop nonblank_lines filter].
  unfold blank. rewrite negb_involutive.
  destruct (truthy (trim l)) eqn:T; cbn [negb].
  - cbn [findFileByIdStreaming_loop]. rewrite T. cbn [negb].
    fold (nonblank_lines lines). rewrite !IH. reflexivity.
  - apply IH.
Qed.

Lemma checkForDuplicate_loop_skips_blank name ref (lines : list str) :
  checkForDuplicate_loop name ref lines
  = checkForDuplicate_loop name ref (nonblank_lines lines).
Proof.
  induction lines as [|l lines IH]; [reflexivity|].
  cbn [checkForDuplicate_loop nonblank_lines filter].
  unfold blank. rewrite negb_involutive.
  destruct (truthy (trim l)) eqn:T; cbn [negb].
  - cbn [checkForDuplicate_loop]. rewrite T. cbn [negb].
    fold (nonblank_lines lines). rewrite IH. reflexivity.
  - apply IH.
Qed.
(* ===================================================================== *)
(** * Base64: decoding undoes encoding *)
(* ===================================================================== *)

Lemma base64_char_value n :
  n < 64 ->
  base64_value (base64_char n) = Some n
  /\ is_ascii_whitespace (base64_char n) = false
  /\ Ascii.eqb (base64_char n) base64_pad = false.
Proof.
  intros H. do 64 (destruct n as [|n]; [vm_compute; auto|]). lia.
Qed.

Lemma nat_of_ascii_bound a : nat_of_ascii a < 256.
Proof. apply nat_ascii_bounded. Qed.

(** The shape of an encoded text: groups of the alphabet that decode to the
    text, and the padding behind them. *)
Lemma btoa_shape (s : str) :
  exists body padding v,
    btoa s = body ++ padding
    /\ (padding = [] \/ padding = [base64_pad] \/ padding = [base64_pad; base64_pad])
    /\ List.length (body ++ padding) mod 4 = 0
    /\ List.length body mod 4 <> 1
    /\ (body = [] -> padding = [])
    /\ Forall (fun c => is_ascii_whitespace c = false
                        /\ Ascii.eqb c base64_pad = false) body
    /\ sextets body = Some v
    /\ bytes_of v = s.
Proof.
  revert s.
  assert (step : forall (P : str -> Prop),
             P [] -> (forall a, P [a]) -> (forall a b, P [a; b]) ->
             (forall a b c l, P l -> P (a :: b :: c :: l)) -> forall l, P l).
  { intros P H0 H1 H2 H3.
    assert (A : forall l, P l /\ (forall a, P (a :: l)) /\ (forall a b, P (a :: b :: l))).
    { induction l as [|x l (IH0 & IH1 & IH2)]; [auto|].
      split; [apply IH1|]. split; [intros a; apply IH2|].
      intros a b. apply H3. exact IH0. }
    intros l. apply A. }
  assert (q4 : forall x, x < 256 -> x / 4 < 64)
    by (intros; apply Nat.Div0.div_lt_upper_bound; lia).
  assert (m4 : forall x y, y < 256 -> x mod 4 * 16 + y / 16 < 64).
  { intros x y Hy. pose proof (Nat.mod_upper_bound x 4).
    assert (y / 16 < 16) by (apply Nat.Div0.div_lt_upper_bound; lia). lia. }
  assert (m16 : forall y z, z < 256 -> y mod 16 * 4 + z / 64 < 64).
  { intros y z Hz. pose proof (Nat.mod_upper_bound y 16).
    assert (z / 64 < 4) by (apply Nat.Div0.div_lt_upper_bound; lia). lia. }
  assert (m64 : forall z, z mod 64 < 64) by (intros; apply Nat.mod_upper_bound; lia).
  assert (b1 : forall x y, y < 256 ->
             x / 4 * 4 + (x mod 4 * 16 + y / 16) / 16 = x).
  { intros x y Hy.
    assert (y / 16 < 16) by (apply Nat.Div0.div_lt_upper_bound; lia).
    rewrite Nat.div_add_l by lia. rewrite (Nat.div_small (y / 16)) by lia.
    pose proof (Nat.div_mod_eq x 4). lia. }
  assert (b2 : forall x y z, y < 256 -> z < 256 ->
             (x mod 4 * 16 + y / 16) mod 16 * 16 + (y mod 16 * 4 + z / 64) / 4 = y).
  { intros x y z Hy Hz.
    assert (y / 16 < 16) by (apply Nat.Div0.div_lt_upper_bound; lia).
    assert (z / 64 < 4) by (apply Nat.Div0.div_lt_upper_bound; lia).
    replace (x mod 4 * 16 + y / 16) with (y / 16 + x mod 4 * 16) by lia.
    rewrite Nat.Div0.mod_add, (Nat.mod_small (y / 16)) by lia.
    rewrite Nat.div_add_l by lia. rewrite (Nat.div_small (z / 64)) by lia.
    pose proof (Nat.div_mod_eq y 16). lia. }
  assert (b3 : forall y z, z < 256 ->
             (y mod 16 * 4 + z / 64) mod 4 * 64 + z mod 64 = z).
  { intros y z Hz.
    assert (z / 64 < 4) by (apply Nat.Div0.div_lt_upper_bound; lia).
    replace (y mod 16 * 4 + z / 64) with (z / 64 + y mod 16 * 4) by lia.
    rewrite Nat.Div0.mod_add, (Nat.mod_small (z / 64)) by lia.
    pose proof (Nat.div_mod_eq z 64). lia. }
  intros s. induction s as [|a|a b|a b c l IH] using step.
  - exists [], [], []. cbn. repeat split; auto.
  - pose proof (nat_of_ascii_bound a) as Ha.
    destruct (base64_char_value _ (q4 _ Ha)) as (V0 & W0 & P0).
    destruct (base64_char_value _ (m4 (nat_of_ascii a) 0 ltac:(lia))) as (V1 & W1 & P1).
    cbn [Nat.div] in V1, W1, P1. 
    exists [base64_char (nat_of_ascii a / 4); base64_char (nat_of_ascii a mod 4 * 16)],
           [base64_pad; base64_pad], [nat_of_ascii a / 4; nat_of_ascii a mod 4 * 16 + 0 / 16].
    change (0 / 16) with 0 in *. rewrite Nat.add_0_r in *.
    split; [reflexivity|]. split; [auto|]. split; [reflexivity|].
    split; [cbn; discriminate|]. split; [discriminate|].
    split; [repeat constructor; assumption|].
    split; [cbn [sextets]; rewrite V0, V1; reflexivity|].
    cbn [bytes_of]. f_equal.
    replace (nat_of_ascii a mod 4 * 16) with (nat_of_ascii a mod 4 * 16 + 0 / 16)
      by (change (0 / 16) with 0; lia).
    rewrite b1 by lia. apply ascii_nat_embedding.
  - pose proof (nat_of_ascii_bound a) as Ha. pose proof (nat_of_ascii_bound b) as Hb.
    destruct (base64_char_value _ (q4 _ Ha)) as (V0 & W0 & P0).
    destruct (base64_char_value _ (m4 (nat_of_ascii a) _ Hb)) as (V1 & W1 & P1).
    destruct (base64_char_value _ (m16 (nat_of_ascii b) 0 ltac:(lia))) as (V2 & W2 & P2).
    change (0 / 64) with 0 in *. rewrite Nat.add_0_r in *.
    eexists [_; _; _], [base64_pad], [_; _; _].
    split; [reflexivity|]. split; [auto|]. split; [reflexivity|].
    split; [cbn; discriminate|]. split; [discriminate|].
    split; [repeat constructor; assumption|].
    split; [cbn [sextets]; rewrite V0, V1, V2; reflexivity|].
    cbn [bytes_of]. f_equal; [|f_equal].
    + rewrite b1 by lia. apply ascii_nat_embedding.
    + replace (nat_of_ascii b mod 16 * 4) with (nat_of_ascii b mod 16 * 4 + 0 / 64)
        by (change (0 / 64) with 0; lia).
      rewrite b2 by lia. apply ascii_nat_embedding.
  - destruct IH as (body & padding & v & E & Hp & L0 & L1 & Hn & Hf & Hs & Hb').
    pose proof (nat_of_ascii_bound a) as Ha. pose proof (nat_of_ascii_bound b) as Hb.
    pose proof (nat_of_ascii_bound c) as Hc.
    destruct (base64_char_value _ (q4 _ Ha)) as (V0 & W0 & P0).
    destruct (base64_char_value _ (m4 (nat_of_ascii a) _ Hb)) as (V1 & W1 & P1).
    destruct (base64_char_value _ (m16 (nat_of_ascii b) _ Hc)) as (V2 & W2 & P2).
    destruct (base64_char_value _ (m64 (nat_of_ascii c))) as (V3 & W3 & P3).
    eexists (_ :: _ :: _ :: _ :: body), padding, (_ :: _ :: _ :: _ :: v).
    split; [cbn [app]; rewrite <- E; reflexivity|].
    split; [exact Hp|].
    split.
    { cbn [app List.length]. 
      replace (S (S (S (S (List.length (body ++ padding))))))
        with (List.length (body ++ padding) + 1 * 4) by lia.
      rewrite Nat.Div0.mod_add. exact L0. }
    split.
    { cbn [List.length].
      replace (S (S (S (S (List.length body))))) with (List.length body + 1 * 4) by lia.
      rewrite Nat.Div0.mod_add. exact L1. }
    split; [discriminate|].
    split; [repeat (constructor; [split; assumption|]); exact Hf|].
    split; [cbn [sextets]; rewrite V0, V1, V2, V3, Hs; reflexivity|].
    cbn [bytes_of]. rewrite b1, b2, b3 by lia. rewrite !ascii_nat_embedding, Hb'.
    reflexivity.
Qed.

Lemma strip_padding_body (body padding : str) :
  (padding = [] \/ padding = [base64_pad] \/ padding = [base64_pad; base64_pad]) ->
  (body = [] -> padding = []) ->
  Forall (fun c => is_ascii_whitespace c = false /\ Ascii.eqb c base64_pad = false) body ->
  strip_padding (body ++ padding) = body.
Proof.
  intros Hp Hn Hf. unfold strip_padding.
  destruct (rev body) as [|x r] eqn:R.
  { assert (body = []) by (apply (f_equal (@rev _)) in R; rewrite rev_involutive in R; exact R).
    subst body. rewrite (Hn eq_refl). reflexivity. }
  assert (Eb : body = rev r ++ [x]).
  { apply (f_equal (@rev _)) in R. rewrite rev_involutive in R. exact R. }
  assert (Hx : Ascii.eqb x base64_pad = false).
  { rewrite Eb in Hf. apply Forall_app in Hf. destruct Hf as (_ & Hf).
    inversion Hf; subst. tauto. }
  rewrite rev_app_distr, R.
  destruct Hp as [-> | [-> | ->]]; cbn [rev app].
  - rewrite app_nil_r. rewrite Hx. destruct r; reflexivity.
  - change (Ascii.eqb base64_pad base64_pad) with true. cbn iota. rewrite Hx.
    rewrite Eb. cbn [rev]. reflexivity.
  - change (Ascii.eqb base64_pad base64_pad) with true. cbn iota.
    rewrite Eb. reflexivity.
Qed.

Lemma filter_lines_of_60 (s : str) :
  forall room,
    filter (fun c => negb (is_ascii_whitespace c)) (lines_of_60 room s)
    = filter (fun c => negb (is_ascii_whitespace c)) s.
Proof.
  induction s as [|c s IH]; intros room; [reflexivity|].
  destruct room as [|room]; cbn [lines_of_60 filter];
    change (is_ascii_whitespace newline) with true; cbn [negb];
    rewrite IH; reflexivity.
Qed.

Lemma decode_encoded (encoded s : str) :
  filter (fun c => negb (is_ascii_whitespace c)) encoded = btoa s ->
  forgiving_base64_decode encoded = Some s.
Proof.
  intros E. unfold forgiving_base64_decode. rewrite E.
  destruct (btoa_shape s) as (body & padding & v & Eb & Hp & L0 & L1 & Hn & Hf & Hs & Hv).
  rewrite Eb, L0. cbn [Nat.eqb].
  rewrite (strip_padding_body body padding Hp Hn Hf).
  destruct (Nat.eqb_spec (List.length body mod 4) 1) as [H|_]; [contradiction|].
  rewrite Hs. cbn [option_map]. rewrite Hv. reflexivity.
Qed.

Lemma filter_btoa (s : str) :
  filter (fun c => negb (is_ascii_whitespace c)) (btoa s) = btoa s.
Proof.
  destruct (btoa_shape s) as (body & padding & v & Eb & Hp & _ & _ & _ & Hf & _).
  rewrite Eb, filter_app. f_equal.
  - clear Eb. induction body as [|c l IH]; [reflexivity|].
    inversion Hf as [|? ? (Hc & _) Hl]; subst.
    cbn [filter]. rewrite Hc. cbn [negb]. rewrite (IH Hl). reflexivity.
  - destruct Hp as [-> | [-> | ->]]; reflexivity.
Qed.

(** Decoding undoes encoding, with or without the line breaks of the wire. *)
Lemma decode_btoa (s : str) : forgiving_base64_decode (btoa s) = Some s.
Proof. apply decode_encoded, filter_btoa. Qed.

Lemma decode_wire (s : str) : forgiving_base64_decode (wire s) = Some s.
Proof.
  apply decode_encoded. unfold wire.
  destruct (btoa s) as [|c e] eqn:E; [reflexivity|].
  rewrite filter_lines_of_60, <- E. apply filter_btoa.
Qed.

Lemma atob_wire (s : str) w : atob (wire s) w = (Ok s, w).
Proof. unfold atob. rewrite decode_wire. reflexivity. Qed.

Lemma atob_btoa (s : str) w : atob (btoa s) w = (Ok s, w).
Proof. unfold atob. rewrite decode_btoa. reflexivity. Qed.

(** [atob] is a pure step: it leaves the world as it is. *)
Lemma atob_world (data : str) w : snd (atob data w) = w.
Proof. unfold atob. destruct (forgiving_base64_decode data); reflexivity. Qed.

(* ===================================================================== *)
(** * Reading the record store when every request is served *)
(* ===================================================================== *)

Lemma add_trace_add_trace w a b : add_trace (add_trace w a) b = add_trace w (a ++ b).
Proof. unfold add_trace. simpl. rewrite <- app_assoc. reflexivity. Qed.

Lemma requests_app a b : requests (a ++ b) = requests a ++ requests b.
Proof. unfold requests. apply flat_map_app. Qed.

Lemma requests_fetches (rs : list Request) : requests (map Fetch rs) = rs.
Proof. induction rs as [|r rs IH]; simpl; [reflexivity | f_equal; exact IH]. Qed.

Lemma getFileInfo_served w :
  faults w = [] ->
  getFileInfo w = (Ok (info_of (csv_file w)), add_trace w [Fetch GetCsv]).
Proof.
  intros F. destruct w as [csv del sha fs rnd msg tr]. simpl in F. subst fs.
  unfold getFileInfo, try_catch, fetch_csv, transport, bind, next_fault, emit,
    ret, get_world, json, add_trace, info_of. simpl.
  destruct csv as [[c s z]|]; reflexivity.
Qed.

Lemma downloadLargeFile_served w f :
  faults w = [] -> csv_file w = Some f ->
  downloadLargeFile w
  = (Ok (Some (rf_content f)),
     add_trace w [Fetch GetCsv; Fetch (GetBlob (Some (rf_sha f)))]).
Proof.
  intros F C. unfold downloadLargeFile, try_catch, bind.
  rewrite (getFileInfo_served w F). rewrite C.
  destruct w as [csv del sha fs rnd msg tr]. simpl in F, C. subst fs csv.
  destruct f as [c s z].
  unfold fetch_blob, transport, bind, next_fault, emit,
    ret, get_world, json, add_trace, info_of. simpl.
  rewrite Nat.eqb_refl. simpl. rewrite atob_wire, <- app_assoc. reflexivity.
Qed.

Lemma getFileContent_served w :
  faults w = [] ->
  getFileContent w
  = (Ok (option_map (@rf_content _) (csv_file w)),
     add_trace w (map Fetch (content_requests (csv_file w)))).
Proof.
  intros F. unfold getFileContent, try_catch, bind.
  rewrite (getFileInfo_served w F).
  destruct (csv_file w) as [f|] eqn:C; [|reflexivity].
  unfold info_of, content_requests. cbn [fi_exists isLarge negb].
  destruct (rf_size f >? GITHUB_SIZE_LIMIT)%Z.
  - rewrite (@downloadLargeFile_served (add_trace w [Fetch GetCsv]) f F C).
    rewrite add_trace_add_trace. reflexivity.
  - destruct w as [csv del sha fs rnd msg tr]. simpl in F, C. subst fs csv.
    destruct f as [c s z].
    unfold fetch_csv, transport, bind, next_fault, emit,
      ret, get_world, json, add_trace. simpl.
    rewrite atob_wire, <- app_assoc. reflexivity.
Qed.

(** Whatever the transport does, getFileContent asks the blob endpoint only
    after a served probe that reports a size above the limit, and it never
    writes. *)
Lemma blob_only_if_large w :
  exists new,
    trace (snd (getFileContent w)) = trace w ++ new
    /\ csv_file (snd (getFileContent w)) = csv_file w
    /\ ((exists s, In (GetBlob s) (requests new)) ->
        exists f, csv_file w = Some f
                  /\ (rf_size f > GITHUB_SIZE_LIMIT)%Z
                  /\ fault_at 0 w = NoFault).
Proof.
  destruct w as [csv del sha fs rnd msg tr].
  unfold getFileContent, downloadLargeFile, getFileInfo, try_catch, fetch_csv,
    fetch_blob, transport, bind, next_fault, emit, console_error, throw, ret,
    get_world, json, atob, fault_at.
  destruct csv as [[c s z]|]; simpl;
  destruct fs as [|[] [|[] [|[] fs]]]; simpl;
  try (destruct (z >? GITHUB_SIZE_LIMIT)%Z eqn:Z; simpl);
  rewrite ?Nat.eqb_refl; simpl; rewrite ?decode_wire; simpl;
  rewrite <- ?app_assoc; eexists; (split; [reflexivity|]); (split; [reflexivity|]);
  simpl; intros [s0 H]; simpl in H; intuition (try discriminate);
  eexists; (split; [reflexivity|]); simpl; split; auto; apply Z.gtb_lt in Z; lia.
Qed.

Lemma createFile_served (content : str) w :
  faults w = [] -> csv_file w = None ->
  createFile content w = (Ok tt, put_world w content None).
Proof.
  intros F C. destruct w as [csv del sha fs rnd msg tr]. simpl in F, C. subst fs csv.
  unfold createFile, fetch_put_csv, transport, bind, next_fault, emit,
    ret, get_world, json, put_world. simpl. rewrite decode_btoa. reflexivity.
Qed.

Lemma updateFile_served (content : str) w file :
  faults w = [] -> csv_file w = Some file ->
  updateFile content (Some (rf_sha file)) w
  = (Ok tt, put_world w content (Some (rf_sha file))).
Proof.
  intros F C. destruct w as [csv del sha fs rnd msg tr]. simpl in F, C. subst fs csv.
  destruct file as [c s z].
  unfold updateFile, fetch_put_csv, transport, bind, next_fault, emit,
    ret, get_world, json, put_world. simpl.
  rewrite decode_btoa, Nat.eqb_refl. reflexivity.
Qed.

(** appendToCSV when every request is served: it throws only on a file that
    exists and is empty; otherwise it writes the content [appended] under a
    new version. *)
Lemma appendToCSV_served (i f n t : str) w :
  faults w = [] ->
  stored w <> Some [] ->
  exists w',
    appendToCSV i f n t w = (Ok tt, w')
    /\ faults w' = []
    /\ stored w' = Some (appended (stored w) i f n t)
    /\ del_file w' = del_file w
    /\ random w' = random w.
Proof.
  intros F NE. unfold appendToCSV, try_catch, bind.
  rewrite (getFileInfo_served w F).
  destruct (csv_file w) as [file|] eqn:C.
  - cbn [info_of fi_exists negb fi_sha].
    rewrite (@getFileContent_served (add_trace w [Fetch GetCsv]) F).
    cbn [add_trace csv_file]. rewrite C. cbn [option_map].
    assert (T : truthy (rf_content file) = true).
    { unfold stored in NE. rewrite C in NE. simpl in NE. revert NE.
      destruct (rf_content file);
        [intros NE; exfalso; apply NE; reflexivity | reflexivity]. }
    cbn [no_content]. rewrite T. cbn [negb text_of].
    erewrite updateFile_served; [|exact F|cbn [csv_file]; exact C].
    eexists. split; [reflexivity|].
    unfold stored. rewrite C. cbn. auto.
  - cbn [info_of no_file fi_exists negb].
    rewrite createFile_served; [|exact F|exact C].
    eexists. split; [reflexivity|].
    unfold stored. rewrite C. cbn. auto.
Qed.

(* ===================================================================== *)
(** * The file of well-formed records *)
(* ===================================================================== *)

Lemma trimStart_app (a b : str) :
  trimStart (a ++ b)
  = match trimStart a with
    | [] => trimStart b
    | c :: t => (c :: t) ++ b
    end.
Proof.
  induction a as [|c a IH]; simpl.
  - destruct (trimStart b); reflexivity.
  - destruct (is_ws c); [exact IH | reflexivity].
Qed.

(** Trailing white space is cut behind a text that ends clean. *)
Lemma trimEnd_app_clean (a b : str) :
  truthy a = true -> starts_clean (rev a) = true ->
  trimEnd (a ++ b) = a ++ trimEnd b.
Proof.
  intros Ta Ca. unfold trimEnd. rewrite rev_app_distr, trimStart_app.
  destruct (trimStart (rev b)) as [|c t] eqn:E.
  - rewrite (trimStart_clean _ Ca), rev_involutive. simpl. rewrite app_nil_r.
    reflexivity.
  - rewrite rev_app_distr, rev_involutive. reflexivity.
Qed.

Lemma plain_parts (s : str) :
  plain s = true ->
  truthy s = true /\ unpadded s = true /\ has_char comma s = false
  /\ has_char dquote s = false /\ has_char newline s = false.
Proof.
  unfold plain. intros H.
  do 4 (apply andb_prop in H; destruct H as [H ?]).
  repeat match goal with H : negb _ = true |- _ => apply negb_true_iff in H end.
  repeat split; assumption.
Qed.

Lemma clean_name_parts (s : str) :
  clean_name s = true ->
  truthy s = true /\ unpadded s = true /\ has_char newline s = false.
Proof.
  unfold clean_name. intros H.
  do 2 (apply andb_prop in H; destruct H as [H ?]).
  repeat match goal with H : negb _ = true |- _ => apply negb_true_iff in H end.
  repeat split; assumption.
Qed.

Lemma unpadded_parts (s : str) :
  unpadded s = true -> starts_clean s = true /\ starts_clean (rev s) = true.
Proof. unfold unpadded. intros H. apply andb_prop in H. exact H. Qed.

Lemma double_quotes_no_newline (s : str) :
  has_char newline s = false -> has_char newline (double_quotes s) = false.
Proof.
  induction s as [|c s IH]; [reflexivity|].
  rewrite has_char_cons. intros H. apply orb_false_elim in H. destruct H as [H1 H2].
  simpl. destruct (Ascii.eqb c dquote).
  - rewrite !has_char_cons. rewrite (IH H2). reflexivity.
  - rewrite has_char_cons, H1, (IH H2). reflexivity.
Qed.

Lemma escapeCSV_no_newline (s : str) :
  has_char newline s = false -> has_char newline (escapeCSV s) = false.
Proof.
  intros H. unfold escapeCSV.
  destruct (has_char comma s || has_char dquote s || has_char newline s); [|exact H].
  rewrite has_char_cons, has_char_app, (double_quotes_no_newline _ H). reflexivity.
Qed.

(** A row holds a line break exactly when one of its fields does. *)
Lemma row_no_newline (i f n t : str) :
  has_char newline i = false -> has_char newline f = false ->
  has_char newline n = false -> has_char newline t = false ->
  has_char newline (row i f n t) = false.
Proof.
  intros Hi Hf Hn Ht. unfold row.
  rewrite !has_char_app, Hi, Hf, Ht, (escapeCSV_no_newline _ Hn). reflexivity.
Qed.

Section WellFormedRow.
Variable r : ArchiveRecord.
Hypothesis wf : well_formed r = true.

Lemma wf_parts :
  plain (logical_id r) = true /\ plain (external_file_ref r) = true
  /\ clean_name (display_name r) = true /\ plain (media_kind r) = true.
Proof.
  pose proof wf as H. unfold well_formed in H.
  do 3 (apply andb_prop in H; destruct H as [H ?]).
  repeat split; assumption.
Qed.

Lemma row_of_no_newline : has_char newline (row_of r) = false.
Proof.
  destruct wf_parts as (Hi & Hf & Hn & Ht).
  apply plain_parts in Hi, Hf, Ht. apply clean_name_parts in Hn.
  apply row_no_newline; tauto.
Qed.

Lemma row_of_unpadded : unpadded (row_of r) = true.
Proof.
  destruct wf_parts as (Hi & _ & _ & Ht).
  apply plain_parts in Hi, Ht.
  destruct Hi as (Ti & Ui & _). destruct Ht as (Tt & Ut & _).
  apply unpadded_parts in Ui, Ut.
  unfold row_of, row.
  replace (logical_id r ++ [comma] ++ external_file_ref r ++ [comma]
           ++ escapeCSV (display_name r) ++ [comma] ++ media_kind r)
    with (logical_id r
          ++ ([comma] ++ external_file_ref r ++ [comma]
              ++ escapeCSV (display_name r) ++ [comma])
          ++ media_kind r)
    by (rewrite <- !app_assoc; reflexivity).
  apply unpadded_between; tauto.
Qed.

Lemma row_of_truthy : truthy (row_of r) = true.
Proof.
  destruct wf_parts as (Hi & _). apply plain_parts in Hi.
  unfold row_of, row. apply truthy_app_l. tauto.
Qed.

Lemma row_of_not_blank : blank (row_of r) = false.
Proof.
  unfold blank. rewrite (trim_unpadded _ row_of_unpadded), row_of_truthy.
  reflexivity.
Qed.

(** The row of a well-formed record is read back field by field. *)
Lemma parseCSVLine_row_of :
  parseCSVLine (row_of r)
  = [logical_id r; external_file_ref r; display_name r; media_kind r].
Proof.
  destruct wf_parts as (Hi & Hf & Hn & Ht).
  apply plain_parts in Hi, Hf, Ht. apply clean_name_parts in Hn.
  unfold row_of. rewrite parseCSVLine_row by tauto.
  rewrite !trim_unpadded by tauto. reflexivity.
Qed.

Lemma row_of_ends_clean : starts_clean (rev (row_of r)) = true.
Proof. exact (proj2 (unpadded_parts _ row_of_unpadded)). Qed.
End WellFormedRow.

Lemma render_snoc rs r : render (rs ++ [r]) = render rs ++ row_of r ++ [newline].
Proof.
  unfold render. rewrite flat_map_app. cbn [flat_map]. rewrite app_nil_r.
  rewrite <- ?app_assoc. reflexivity.
Qed.

Lemma header_no_newline : has_char newline header = false.
Proof. vm_compute. reflexivity. Qed.

Lemma header_ends_clean : starts_clean (rev header) = true.
Proof. vm_compute. reflexivity. Qed.

Lemma trimEnd_newline : trimEnd [newline] = [].
Proof. vm_compute. reflexivity. Qed.

Lemma starts_clean_rev_app (a b : str) :
  truthy b = true -> starts_clean (rev b) = true -> starts_clean (rev (a ++ b)) = true.
Proof.
  intros T C. rewrite rev_app_distr. apply starts_clean_app; [|exact C].
  rewrite truthy_rev. exact T.
Qed.

(** The file of well-formed records ends with one newline behind a clean
    line: trimEnd takes exactly that newline. *)
Lemma trimEnd_render rs :
  Forall (fun r => well_formed r = true) rs ->
  trimEnd (render rs) ++ [newline] = render rs.
Proof.
  intros W. induction rs as [|r rs' _] using rev_ind.
  - unfold render. cbn [flat_map]. rewrite app_nil_r.
    rewrite trimEnd_app_clean by (reflexivity || apply header_ends_clean).
    rewrite trimEnd_newline, app_nil_r. reflexivity.
  - apply Forall_app in W. destruct W as [_ W]. inversion W; subst.
    rewrite render_snoc.
    replace (render rs' ++ row_of r ++ [newline])
      with ((render rs' ++ row_of r) ++ [newline])
      by (rewrite <- app_assoc; reflexivity).
    rewrite trimEnd_app_clean.
    + rewrite trimEnd_newline, app_nil_r. reflexivity.
    + apply truthy_app_r. apply row_of_truthy. assumption.
    + apply starts_clean_rev_app; [apply row_of_truthy | apply row_of_ends_clean];
        assumption.
Qed.

Lemma appended_none (r : ArchiveRecord) :
  appended None (logical_id r) (external_file_ref r) (display_name r) (media_kind r)
  = render [r].
Proof.
  unfold appended, render. cbn [flat_map]. rewrite app_nil_r.
  rewrite <- ?app_assoc. reflexivity.
Qed.

Lemma appended_render rs (r : ArchiveRecord) :
  Forall (fun r => well_formed r = true) rs ->
  appended (Some (render rs))
    (logical_id r) (external_file_ref r) (display_name r) (media_kind r)
  = render (rs ++ [r]).
Proof.
  intros W. unfold appended. rewrite render_snoc.
  rewrite <- (trimEnd_render rs W) at 2. rewrite <- ?app_assoc. reflexivity.
Qed.

Lemma appended_file_of rs (r : ArchiveRecord) :
  Forall (fun r => well_formed r = true) rs ->
  Some (appended (file_of rs)
          (logical_id r) (external_file_ref r) (display_name r) (media_kind r))
  = file_of (rs ++ [r]).
Proof.
  intros W. destruct rs as [|r0 rs].
  - simpl file_of. rewrite appended_none. reflexivity.
  - cbn [file_of]. rewrite (appended_render _ r W). reflexivity.
Qed.

Lemma file_of_not_empty rs : file_of rs <> Some [].
Proof.
  destruct rs as [|r rs]; cbn [file_of]; [discriminate|].
  intros H. inversion H.
Qed.

(** Appends of well-formed records, every request served: the store is the
    file of all the records appended so far. *)
Lemma append_all_served (rs : list ArchiveRecord) :
  forall rs0 w,
    faults w = [] -> stored w = file_of rs0 ->
    Forall (fun r => well_formed r = true) rs0 ->
    Forall (fun r => well_formed r = true) rs ->
    exists w',
      append_all rs w = (Ok tt, w')
      /\ faults w' = [] /\ stored w' = file_of (rs0 ++ rs)
      /\ del_file w' = del_file w /\ random w' = random w.
Proof.
  induction rs as [|r rs IH]; intros rs0 w F S W0 W.
  - exists w. rewrite app_nil_r. simpl. auto.
  - inversion W as [|? ? Wr Wrs]; subst.
    assert (NE : stored w <> Some []) by (rewrite S; apply file_of_not_empty).
    destruct (@appendToCSV_served (logical_id r) (external_file_ref r)
                (display_name r) (media_kind r) w F NE)
      as (w1 & E1 & F1 & S1 & D1 & R1).
    rewrite S, (appended_file_of rs0 r W0) in S1.
    assert (W1 : Forall (fun r => well_formed r = true) (rs0 ++ [r])).
    { apply Forall_app. split; [exact W0 | constructor; [exact Wr | constructor]]. }
    destruct (IH (rs0 ++ [r]) w1 F1 S1 W1 Wrs) as (w2 & E2 & F2 & S2 & D2 & R2).
    exists w2. cbn [append_all]. unfold bind, append. rewrite E1, E2.
    rewrite <- app_assoc in S2.
    split; [reflexivity|]. split; [exact F2|]. split; [exact S2|].
    split; congruence.
Qed.

Lemma header_is_row : header = row_of header_record.
Proof. vm_compute. reflexivity. Qed.

Lemma header_record_wf : well_formed header_record = true.
Proof. vm_compute. reflexivity. Qed.

Lemma split_lines_rows rs :
  Forall (fun r => well_formed r = true) rs ->
  split_lines (flat_map (fun r => row_of r ++ [newline]) rs)
  = map row_of rs ++ [[]].
Proof.
  induction 1 as [|r rs Wr Wrs IH]; [reflexivity|].
  cbn [flat_map map]. rewrite <- app_assoc. cbn [app].
  rewrite (split_lines_app _ _ (row_of_no_newline r Wr)), IH. reflexivity.
Qed.

(** The lines of the file of well-formed records: the header, one line per
    record, and the empty text behind the last newline. *)
Lemma split_lines_render rs :
  Forall (fun r => well_formed r = true) rs ->
  split_lines (render rs) = header :: map row_of rs ++ [[]].
Proof.
  intros W. unfold render. cbn [app].
  rewrite (split_lines_app _ _ header_no_newline), (split_lines_rows rs W).
  reflexivity.
Qed.

(* ===================================================================== *)
(** * The scans over the file of well-formed records *)
(* ===================================================================== *)

Lemma or_unknown_truthy (s : str) : truthy s = true -> or_unknown s = s.
Proof. unfold or_unknown. intros H. rewrite H. reflexivity. Qed.

(** The scan of checkForDuplicate over the rows of well-formed records
    finds the first record that collides with the probe. *)
Lemma checkForDuplicate_loop_rows name ref rs :
  Forall (fun r => well_formed r = true) rs ->
  checkForDuplicate_loop name ref (map row_of rs ++ [[]])
  = option_map dup_of (find (collides name ref) rs).
Proof.
  induction 1 as [|r rs Wr Wrs IH]; [reflexivity|].
  cbn [map app checkForDuplicate_loop find].
  rewrite (trim_unpadded _ (row_of_unpadded r Wr)), (row_of_truthy r Wr).
  rewrite (parseCSVLine_row_of r Wr).
  cbn [negb List.length Nat.leb field nth andb]. fold (collides name ref r).
  destruct (collides name ref r); [reflexivity | exact IH].
Qed.

(** The scan of findFileByIdStreaming behind the header line finds the
    first record with the logical id asked for. *)
Lemma findFileByIdStreaming_loop_rows id rs :
  Forall (fun r => well_formed r = true) rs ->
  findFileByIdStreaming_loop id (map row_of rs ++ [[]]) true = lookup id rs.
Proof.
  induction 1 as [|r rs Wr Wrs IH]; [reflexivity|].
  unfold lookup. cbn [map app findFileByIdStreaming_loop find].
  rewrite (trim_unpadded _ (row_of_unpadded r Wr)), (row_of_truthy r Wr).
  rewrite (parseCSVLine_row_of r Wr).
  cbn [negb List.length Nat.leb field nth andb].
  destruct (str_eqb (logical_id r) id).
  - destruct (wf_parts r Wr) as (_ & _ & Hn & Ht).
    apply clean_name_parts in Hn. apply plain_parts in Ht.
    rewrite !or_unknown_truthy by tauto. reflexivity.
  - exact IH.
Qed.

Lemma header_is_detected :
  includes (toLowerCase (trim header)) (lit "numerical") = true.
Proof. vm_compute. reflexivity. Qed.

Lemma header_is_detected_raw :
  includes (toLowerCase header) (lit "numerical") = true.
Proof. vm_compute. reflexivity. Qed.

Lemma header_not_blank : truthy (trim header) = true.
Proof. vm_compute. reflexivity. Qed.

(** findFileByIdStreaming on the file of well-formed records. *)
Lemma find_in_render id rs :
  Forall (fun r => well_formed r = true) rs ->
  findFileByIdStreaming_loop id (split_lines (render rs)) false = lookup id rs.
Proof.
  intros W. rewrite (split_lines_render rs W).
  cbn [findFileByIdStreaming_loop]. rewrite header_not_blank, header_is_detected.
  cbn [negb andb]. apply findFileByIdStreaming_loop_rows. exact W.
Qed.

(** checkForDuplicate on the file of well-formed records: the header line
    is scanned like a record. *)
Lemma check_in_render name ref rs :
  Forall (fun r => well_formed r = true) rs ->
  checkForDuplicate_loop name ref (split_lines (render rs))
  = option_map dup_of (find (collides name ref) (header_record :: rs)).
Proof.
  intros W. rewrite (split_lines_render rs W).
  change (header :: map row_of rs ++ [[]])
    with ((header :: map row_of rs) ++ [[]]).
  rewrite header_is_row.
  change (row_of header_record :: map row_of rs)
    with (map row_of (header_record :: rs)).
  apply checkForDuplicate_loop_rows.
  constructor; [exact header_record_wf | exact W].
Qed.

Lemma nonblank_rows rs :
  Forall (fun r => well_formed r = true) rs ->
  nonblank_lines (map row_of rs ++ [[]]) = map row_of rs.
Proof.
  induction 1 as [|r rs Wr Wrs IH]; [reflexivity|].
  cbn [map app nonblank_lines filter]. rewrite (row_of_not_blank r Wr).
  cbn [negb]. fold (nonblank_lines (map row_of rs ++ [[]])). rewrite IH.
  reflexivity.
Qed.

(* ===================================================================== *)
(** * The readers when every request is served *)
(* ===================================================================== *)

Lemma unchanged_trans w1 w2 w3 : unchanged w1 w2 -> unchanged w2 w3 -> unchanged w1 w3.
Proof. unfold unchanged. intuition congruence. Qed.

Lemma unchanged_add_trace w es : unchanged w (add_trace w es).
Proof. unfold unchanged. simpl. auto. Qed.

Lemma unchanged_stored w w' : unchanged w w' -> stored w' = stored w.
Proof. unfold unchanged, stored. intros (_ & H & _). rewrite H. reflexivity. Qed.

Lemma no_content_stored w :
  no_content (option_map (@rf_content _) (csv_file w))
  = match stored w with
    | Some c => negb (truthy c)
    | None => true
    end.
Proof. unfold stored. destruct (csv_file w); reflexivity. Qed.

Lemma findFileByIdStreaming_served id w :
  faults w = [] ->
  exists w',
    findFileByIdStreaming id w
    = (Ok (read_result
             (fun c => findFileByIdStreaming_loop id (split_lines c) false) None w),
       w')
    /\ unchanged w w'.
Proof.
  intros F. unfold findFileByIdStreaming, try_catch, bind, read_result.
  rewrite (getFileContent_served w F), no_content_stored.
  unfold stored. destruct (csv_file w) as [file|] eqn:C; cbn [option_map].
  - destruct (truthy (rf_content file)); cbn [negb text_of].
    + eexists. split; [reflexivity | apply unchanged_add_trace].
    + eexists. split; [reflexivity|].
      unfold console_error, emit, unchanged. simpl. auto.
  - eexists. split; [reflexivity|].
    unfold console_error, emit, unchanged. simpl. auto.
Qed.

Lemma checkForDuplicate_served name ref w :
  faults w = [] ->
  exists w',
    checkForDuplicate name ref w
    = (Ok (read_result
             (fun c => checkForDuplicate_loop name ref (split_lines c)) None w),
       w')
    /\ unchanged w w'.
Proof.
  intros F. unfold checkForDuplicate, try_catch, bind, read_result.
  rewrite (getFileContent_served w F), no_content_stored.
  unfold stored. destruct (csv_file w) as [file|] eqn:C; cbn [option_map].
  - destruct (truthy (rf_content file)); cbn [negb text_of];
      (eexists; split; [reflexivity | apply unchanged_add_trace]).
  - eexists. split; [reflexivity | apply unchanged_add_trace].
Qed.

Lemma getFileCount_served w :
  faults w = [] ->
  exists w',
    getFileCount w = (Ok (read_result count_of 0%Z w), w')
    /\ unchanged w w'.
Proof.
  intros F. unfold getFileCount, try_catch, bind, read_result.
  rewrite (getFileContent_served w F), no_content_stored.
  unfold stored. destruct (csv_file w) as [file|] eqn:C; cbn [option_map].
  - destruct (truthy (rf_content file)); cbn [negb text_of];
      (eexists; split; [reflexivity | apply unchanged_add_trace]).
  - eexists. split; [reflexivity | apply unchanged_add_trace].
Qed.

Lemma read_result_file_of {A} (k : str -> A) (d : A) w rs :
  stored w = file_of rs ->
  read_result k d w = match rs with [] => d | _ :: _ => k (render rs) end.
Proof.
  intros S. unfold read_result. rewrite S. destruct rs as [|r rs]; [reflexivity|].
  cbn [file_of]. reflexivity.
Qed.

Lemma lookup_last id rs r :
  (forall r0, In r0 rs -> logical_id r0 <> id) -> logical_id r = id ->
  lookup id (rs ++ [r]) = Some (data_of r).
Proof.
  intros Hrs Hr. unfold lookup. induction rs as [|r0 rs IH]; simpl.
  - rewrite (proj2 (str_eqb_eq _ _) Hr). reflexivity.
  - rewrite (proj2 (str_eqb_neq _ _) (Hrs r0 (or_introl eq_refl))).
    apply IH. intros r1 H1. apply Hrs. right. exact H1.
Qed.

Lemma lookup_none id rs :
  (forall r0, In r0 rs -> logical_id r0 <> id) -> lookup id rs = None.
Proof.
  intros Hrs. unfold lookup. induction rs as [|r0 rs IH]; simpl; [reflexivity|].
  rewrite (proj2 (str_eqb_neq _ _) (Hrs r0 (or_introl eq_refl))).
  apply IH. intros r1 H1. apply Hrs. right. exact H1.
Qed.

Lemma collides_iff name ref r :
  collides name ref r = true
  <-> display_name r = name \/ external_file_ref r = ref.
Proof. unfold collides. rewrite orb_true_iff, !str_eqb_eq. tauto. Qed.

(** [find] returns the earliest element that passes the test. *)
Lemma find_earliest {A} (p : A -> bool) (l : list A) (a : A) :
  find p l = Some a ->
  exists before after,
    l = before ++ a :: after /\ p a = true
    /\ forall b, In b before -> p b = false.
Proof.
  induction l as [|x l IH]; [discriminate|].
  simpl. destruct (p x) eqn:P.
  - intros E. inversion E; subst. exists [], l. simpl. tauto.
  - intros E. destruct (IH E) as (before & after & El & Pa & Hb).
    exists (x :: before), after. subst l. simpl. split; [reflexivity|].
    split; [exact Pa|]. intros b [Hb1 | Hb2]; [subst; exact P | apply Hb; exact Hb2].
Qed.

Lemma find_some_iff {A} (p : A -> bool) (l : list A) :
  find p l <> None <-> exists a, In a l /\ p a = true.
Proof.
  split.
  - destruct (find p l) as [a|] eqn:E; [|congruence].
    intros _. exists a. apply (find_some _ _ E).
  - intros (a & Ha & Pa) E. exact (eq_true_false_abs _ Pa (find_none _ _ E a Ha)).
Qed.

Lemma append_all_snoc rs r w :
  append_all (rs ++ [r]) w = (append_all rs ;; append r) w.
Proof.
  revert w. induction rs as [|r0 rs IH]; intros w.
  - simpl. unfold bind, ret. destruct (append r w) as [[[]|e] w']; reflexivity.
  - simpl. unfold bind in *. destruct (append r0 w) as [[[]|e] w']; [|reflexivity].
    apply IH.
Qed.

Lemma read_result_render {A} (k : str -> A) (d : A) w rs :
  stored w = file_of rs -> rs <> [] -> read_result k d w = k (render rs).
Proof.
  intros S N. rewrite (read_result_file_of k d w rs S).
  destruct rs; [congruence | reflexivity].
Qed.

Lemma snoc_not_nil {A} (l : list A) (a : A) : l ++ [a] <> [].
Proof. destruct l; discriminate. Qed.

(* ===================================================================== *)
(** * Files written by appendToCSV, whatever the records *)
(* ===================================================================== *)

Lemma split_lines_concat (a b : str) :
  split_lines (a ++ newline :: b) = split_lines a ++ split_lines b.
Proof.
  induction a as [|c a IH]; [reflexivity|].
  cbn [app split_lines]. rewrite IH.
  destruct (Ascii.eqb c newline); [reflexivity|].
  destruct (split_lines a) as [|l ls] eqn:E; [|reflexivity].
  exfalso. exact (split_lines_not_nil a E).
Qed.

Lemma nonblank_lines_app (a b : list str) :
  nonblank_lines (a ++ b) = nonblank_lines a ++ nonblank_lines b.
Proof. unfold nonblank_lines. apply filter_app. Qed.

Lemma count_nonblank_concat (a b : str) :
  count_nonblank (a ++ newline :: b) = count_nonblank a + count_nonblank b.
Proof.
  unfold count_nonblank. rewrite split_lines_concat, nonblank_lines_app, length_app.
  reflexivity.
Qed.

Lemma trim_snoc_ws (s : str) c : is_ws c = true -> trim (s ++ [c]) = trim s.
Proof.
  intros W. unfold trim. rewrite trimStart_app.
  destruct (trimStart s) as [|d t] eqn:E.
  - simpl. rewrite W. reflexivity.
  - apply trimEnd_snoc_ws. exact W.
Qed.

Lemma blank_snoc_ws (s : str) c : is_ws c = true -> blank (s ++ [c]) = blank s.
Proof. intros W. unfold blank. rewrite (trim_snoc_ws s c W). reflexivity. Qed.

(** A character behind the last line. *)
Lemma split_lines_snoc (a : str) c :
  Ascii.eqb c newline = false ->
  split_lines (a ++ [c])
  = removelast (split_lines a) ++ [last (split_lines a) [] ++ [c]].
Proof.
  intros N. induction a as [|d a IH].
  - simpl. rewrite N. reflexivity.
  - cbn [app split_lines]. rewrite IH.
    destruct (split_lines a) as [|l ls] eqn:E.
    { exfalso. exact (split_lines_not_nil a E). }
    destruct (Ascii.eqb d newline).
    + reflexivity.
    + destruct ls as [|l2 ls]; reflexivity.
Qed.

Lemma list_removelast_last {A} (l : list A) d :
  l <> [] -> l = removelast l ++ [last l d].
Proof. intros H. apply app_removelast_last. exact H. Qed.

(** White space at the end of a content does not change the number of
    lines that are not blank. *)
Lemma count_nonblank_snoc_ws (a : str) c :
  is_ws c = true -> count_nonblank (a ++ [c]) = count_nonblank a.
Proof.
  intros W. unfold count_nonblank.
  destruct (Ascii.eqb c newline) eqn:N.
  - apply Ascii.eqb_eq in N. subst c.
    rewrite (split_lines_concat a []), nonblank_lines_app, length_app.
    simpl. lia.
  - rewrite (split_lines_snoc a c N).
    rewrite (list_removelast_last (split_lines a) [] (split_lines_not_nil a)) at 3.
    rewrite !nonblank_lines_app, !length_app. f_equal.
    unfold nonblank_lines. simpl. rewrite (blank_snoc_ws _ c W).
    destruct (blank (last (split_lines a) [])); reflexivity.
Qed.

Lemma count_nonblank_app_ws (s : str) :
  forallb is_ws s = true ->
  forall a, count_nonblank (a ++ s) = count_nonblank a.
Proof.
  induction s as [|c s IH]; intros H a.
  - rewrite app_nil_r. reflexivity.
  - simpl in H. apply andb_prop in H. destruct H as [H1 H2].
    change (a ++ c :: s) with (a ++ [c] ++ s). rewrite app_assoc.
    rewrite (IH H2), (count_nonblank_snoc_ws a c H1). reflexivity.
Qed.

Lemma trimStart_decomp (s : str) :
  exists p, s = p ++ trimStart s /\ forallb is_ws p = true.
Proof.
  induction s as [|c s (p & E & W)].
  - exists []. split; reflexivity.
  - simpl. destruct (is_ws c) eqn:C.
    + exists (c :: p). split; [simpl; f_equal; exact E | simpl; rewrite C; exact W].
    + exists []. split; reflexivity.
Qed.

Lemma forallb_rev {A} (f : A -> bool) (l : list A) :
  forallb f (rev l) = forallb f l.
Proof.
  induction l as [|a l IH]; [reflexivity|].
  simpl. rewrite forallb_app, IH. simpl. rewrite andb_true_r. apply andb_comm.
Qed.

Lemma trimEnd_decomp (s : str) :
  exists p, s = trimEnd s ++ p /\ forallb is_ws p = true.
Proof.
  destruct (trimStart_decomp (rev s)) as (p & E & W).
  exists (rev p). split.
  - unfold trimEnd. rewrite <- rev_app_distr, <- E, rev_involutive. reflexivity.
  - rewrite forallb_rev. exact W.
Qed.

Lemma count_nonblank_trimEnd (s : str) : count_nonblank (trimEnd s) = count_nonblank s.
Proof.
  destruct (trimEnd_decomp s) as (p & E & W).
  rewrite E at 2. symmetry. apply count_nonblank_app_ws. exact W.
Qed.

Lemma existsb_rev {A} (f : A -> bool) (l : list A) :
  existsb f (rev l) = existsb f l.
Proof.
  induction l as [|a l IH]; [reflexivity|].
  simpl. rewrite existsb_app, IH. simpl. rewrite orb_false_r. apply orb_comm.
Qed.

Lemma trimStart_keeps_ink (s : str) :
  existsb (fun c => negb (is_ws c)) s = true ->
  existsb (fun c => negb (is_ws c)) (trimStart s) = true.
Proof.
  induction s as [|c s IH]; [discriminate|].
  simpl. destruct (is_ws c) eqn:C; simpl.
  - exact IH.
  - rewrite C. reflexivity.
Qed.

(** A text with a character that is not white space is not blank. *)
Lemma ink_not_blank (s : str) :
  existsb (fun c => negb (is_ws c)) s = true -> blank s = false.
Proof.
  intros H. unfold blank, trim, trimEnd.
  apply trimStart_keeps_ink in H. rewrite <- existsb_rev in H.
  apply trimStart_keeps_ink in H. rewrite <- existsb_rev in H.
  destruct (rev (trimStart (rev (trimStart s)))); [discriminate | reflexivity].
Qed.

Lemma row_not_blank (i f n t : str) : blank (row i f n t) = false.
Proof.
  apply ink_not_blank. unfold row. rewrite existsb_app. simpl.
  rewrite orb_true_r. reflexivity.
Qed.

Lemma count_nonblank_row_line (i f n t : str) :
  has_char newline (row i f n t) = false ->
  count_nonblank (row i f n t ++ [newline]) = 1.
Proof.
  intros N. unfold count_nonblank.
  rewrite (split_lines_concat (row i f n t) []), (split_lines_one _ N).
  simpl. rewrite row_not_blank. reflexivity.
Qed.

Lemma count_nonblank_header : count_nonblank header = 1.
Proof. vm_compute. reflexivity. Qed.

Lemma trimEnd_head (c : ascii) (x : str) :
  trimEnd (c :: x) = [] \/ exists y, trimEnd (c :: x) = c :: y.
Proof.
  destruct (trimEnd_decomp (c :: x)) as (p & E & _).
  destruct (trimEnd (c :: x)) as [|d y]; [left; reflexivity|].
  right. exists y. simpl in E. inversion E. reflexivity.
Qed.

Lemma headed_appended (s : option str) (i f n t : str) :
  (forall c, s = Some c -> headed c) -> headed (appended s i f n t).
Proof.
  intros H. destruct s as [c|].
  - destruct (H c eq_refl) as (x & E). subst c. unfold appended.
    rewrite trimEnd_app_clean by (reflexivity || apply header_ends_clean).
    destruct (trimEnd_head newline x) as [E | (y & E)]; rewrite E.
    + rewrite app_nil_r. eexists. reflexivity.
    + rewrite <- !app_assoc. eexists. cbn [app]. reflexivity.
  - unfold appended. eexists. reflexivity.
Qed.

Lemma count_nonblank_appended (s : option str) (i f n t : str) :
  has_char newline (row i f n t) = false ->
  count_nonblank (appended s i f n t)
  = match s with
    | Some c => count_nonblank c + 1
    | None => 2
    end.
Proof.
  intros N. unfold appended. destruct s as [c|]; cbn [app].
  - rewrite count_nonblank_concat, count_nonblank_trimEnd.
    rewrite (count_nonblank_row_line i f n t N). reflexivity.
  - rewrite count_nonblank_concat, count_nonblank_header.
    rewrite (count_nonblank_row_line i f n t N). reflexivity.
Qed.

Lemma appended_not_empty (s : option str) (i f n t : str) :
  appended s i f n t <> [].
Proof.
  unfold appended. destruct s as [c|]; intros H.
  - apply app_eq_nil in H. destruct H as [_ H]. discriminate.
  - discriminate.
Qed.

Lemma written_snoc rs r start :
  written (rs ++ [r]) start
  = Some (appended (written rs start) (logical_id r) (external_file_ref r)
            (display_name r) (media_kind r)).
Proof. unfold written. rewrite fold_left_app. reflexivity. Qed.

Lemma one_line_row (r : ArchiveRecord) :
  one_line r = true -> has_char newline (row_of r) = false.
Proof.
  unfold one_line. intros H.
  do 3 (apply andb_prop in H; destruct H as [H ?]).
  repeat match goal with H : negb _ = true |- _ => apply negb_true_iff in H end.
  apply row_no_newline; assumption.
Qed.

(** The store written by appends over an absent file: it begins with the
    header line, and with one-line records it has one line per record
    besides. *)
Lemma written_headed rs :
  rs <> [] ->
  exists c,
    written rs None = Some c /\ headed c
    /\ (Forall (fun r => one_line r = true) rs ->
        count_nonblank c = List.length rs + 1).
Proof.
  induction rs as [|r rs IH] using rev_ind; [congruence|]. intros _.
  rewrite written_snoc. eexists. split; [reflexivity|].
  destruct rs as [|r0 rs'].
  - split; [apply headed_appended; discriminate|].
    intros W. inversion W; subst.
    rewrite count_nonblank_appended by (apply one_line_row; assumption).
    reflexivity.
  - destruct IH as (c & E & Hc & Hn); [discriminate|].
    rewrite E. split.
    + apply headed_appended. intros c' E'. inversion E'. subst c'. exact Hc.
    + intros W. apply Forall_app in W. destruct W as [W1 W2]. inversion W2; subst.
      rewrite count_nonblank_appended by (apply one_line_row; assumption).
      rewrite (Hn W1), length_app. simpl. lia.
Qed.

(** Appends of any records with every request served: none throws, and the
    store is [written]. *)
Lemma append_all_written (rs : list ArchiveRecord) :
  forall w,
    faults w = [] -> stored w <> Some [] ->
    exists w',
      append_all rs w = (Ok tt, w')
      /\ faults w' = [] /\ stored w' = written rs (stored w).
Proof.
  induction rs as [|r rs IH]; intros w F NE.
  - exists w. simpl. auto.
  - destruct (appendToCSV_served (logical_id r) (external_file_ref r)
                (display_name r) (media_kind r) w F NE)
      as (w1 & E1 & F1 & S1 & _).
    assert (NE1 : stored w1 <> Some []).
    { rewrite S1. intros E. inversion E as [E']. exact (appended_not_empty _ _ _ _ _ E'). }
    destruct (IH w1 F1 NE1) as (w2 & E2 & F2 & S2).
    exists w2. cbn [append_all]. unfold bind, append. rewrite E1, E2.
    split; [reflexivity|]. split; [exact F2|].
    rewrite S2, S1. reflexivity.
Qed.

Lemma hasHeader_headed (c : str) : headed c -> hasHeader c = true.
Proof.
  intros (x & E). subst c. unfold hasHeader.
  rewrite (before_newline_app _ _ header_no_newline), header_is_detected_raw.
  reflexivity.
Qed.



Lemma count_of_headed (c : str) :
  headed c -> count_of c = (Z.of_nat (count_nonblank c) - 1)%Z.
Proof.
  intros H. unfold count_of. rewrite (hasHeader_headed c H).
  rewrite getFileCount_loop_nonblank. fold (count_nonblank c).
  destruct H as (x & E). subst c.
  assert (1 <= count_nonblank (header ++ newline :: x)).
  { rewrite count_nonblank_concat, count_nonblank_header. lia. }
  lia.
Qed.

(* ===================================================================== *)
(** * The upload handler when every request is served *)
(* ===================================================================== *)

Lemma pick_file_picked message w :
  pick_file message w
  = (match picked message with
     | Some p => Ok p
     | None => Throw TypeError
     end, w).
Proof.
  unfold pick_file, picked.
  destruct (document message); [reflexivity|].
  destruct (photo message) as [sizes|].
  - destruct (rev sizes); reflexivity.
  - destruct (video message); reflexivity.
Qed.

Lemma sendMessage_served c t w :
  faults w = [] ->
  exists w',
    sendMessage c t w = (Ok (mkReply true (next_message w)), w')
    /\ unchanged w w'.
Proof.
  intros F. destruct w as [csv del sha fs rnd msg tr]. simpl in F. subst fs.
  unfold sendMessage, fetch_telegram, transport, bind, next_fault, emit, ret, unchanged.
  simpl. eexists. split; [reflexivity|]. simpl. auto.
Qed.

Lemma deleteMessage_served c m w :
  faults w = [] ->
  exists w', deleteMessage c m w = (Ok tt, w') /\ unchanged w w'.
Proof.
  intros F. destruct w as [csv del sha fs rnd msg tr]. simpl in F. subst fs.
  unfold deleteMessage, try_catch, fetch_telegram, transport, bind, next_fault,
    emit, ret, unchanged.
  simpl. eexists. split; [reflexivity|]. simpl. auto.
Qed.

Lemma digit_is_plain c :
  is_digit c = true ->
  is_ws c = false /\ Ascii.eqb comma c = false
  /\ Ascii.eqb dquote c = false /\ Ascii.eqb newline c = false.
Proof.
  destruct c as [[] [] [] [] [] [] [] []]; vm_compute; intros H;
    try discriminate; repeat split; reflexivity.
Qed.

Lemma digits_no_char (s : str) d :
  (forall c, is_digit c = true -> Ascii.eqb d c = false) ->
  forallb is_digit s = true -> has_char d s = false.
Proof.
  intros Hd. induction s as [|c s IH]; [reflexivity|].
  simpl. intros H. apply andb_prop in H. destruct H as [H1 H2].
  rewrite (Hd c H1), (IH H2). reflexivity.
Qed.

Lemma digits_start_clean (s : str) :
  forallb is_digit s = true -> starts_clean s = true.
Proof.
  destruct s as [|c s]; [reflexivity|]. simpl. intros H.
  apply andb_prop in H. destruct H as [H _].
  rewrite (proj1 (digit_is_plain c H)). reflexivity.
Qed.

(** A text of digits that is not empty is a plain field. *)
Lemma digits_plain (s : str) :
  truthy s = true -> forallb is_digit s = true -> plain s = true.
Proof.
  intros T D. unfold plain, unpadded. rewrite T.
  rewrite (digits_start_clean s D).
  rewrite (digits_start_clean (rev s)) by (rewrite forallb_rev; exact D).
  rewrite !digits_no_char; try exact D; try reflexivity;
    intros c Hc; apply (digit_is_plain c Hc).
Qed.

(** The digits of generateNumericalFileId: the loop adds one digit for each
    draw below ten. *)
Lemma generateNumericalFileId_loop_digits (n : nat) :
  forall draw acc,
    (forall i, draw i < 10) ->
    forallb is_digit acc = true ->
    List.length (generateNumericalFileId_loop n draw acc) = List.length acc + n
    /\ forallb is_digit (generateNumericalFileId_loop n draw acc) = true.
Proof.
  assert (Hchar : forall k, k < 10 ->
            exists c, charAt digits k = [c] /\ is_digit c = true).
  { intros k Hk.
    do 10 (destruct k as [|k]; [eexists; split; reflexivity|]). lia. }
  induction n as [|n IH]; intros d acc Hd Hacc; simpl.
  - split; [lia | exact Hacc].
  - destruct (Hchar (d 0) (Hd 0)) as (c & Ec & Dc). rewrite Ec.
    destruct (IH (fun i => d (S i)) (acc ++ [c])) as [L D].
    + intros i. apply Hd.
    + rewrite forallb_app, Hacc. simpl. rewrite Dc. reflexivity.
    + split; [rewrite L, length_app; simpl; lia | exact D].
Qed.

Lemma generateNumericalFileId_plain (draw : nat -> nat) :
  (forall i, draw i < 10) -> plain (generateNumericalFileId draw) = true.
Proof.
  intros Hd.
  destruct (generateNumericalFileId_loop_digits 16 draw [] Hd eq_refl) as [L D].
  apply digits_plain; [|exact D].
  unfold generateNumericalFileId, generateNumericalFileId_len.
  destruct (generateNumericalFileId_loop 16 draw []); [discriminate | reflexivity].
Qed.

Lemma picked_type_plain message fileId fileName fileType :
  picked message = Some (fileId, fileName, fileType) ->
  truthy fileId = true -> plain fileType = true.
Proof.
  unfold picked.
  destruct (document message); [intros E; inversion E; reflexivity|].
  destruct (photo message) as [sizes|].
  - destruct (rev sizes); intros E; inversion E. reflexivity.
  - destruct (video message); intros E; inversion E; subst; [reflexivity|].
    discriminate.
Qed.

Lemma bind_ok {A B} (m : M A) (k : A -> M B) w a w' :
  m w = (Ok a, w') -> bind m k w = k a w'.
Proof. intros E. unfold bind. rewrite E. reflexivity. Qed.

Lemma try_catch_ok {A} (body : M A) h w a w' :
  body w = (Ok a, w') -> try_catch body h w = (Ok a, w').
Proof. intros E. unfold try_catch. rewrite E. reflexivity. Qed.

Lemma duplicate_check_result rs fileName fileId w :
  Forall (fun r => well_formed r = true) rs ->
  stored w = file_of rs ->
  read_result (fun c => checkForDuplicate_loop fileName fileId (split_lines c)) None w
  = option_map dup_of (duplicate_in rs fileName fileId).
Proof.
  intros W S. rewrite (read_result_file_of _ None w rs S).
  destruct rs as [|r rs]; [reflexivity|].
  rewrite (check_in_render fileName fileId (r :: rs) W). reflexivity.
Qed.

Lemma fresh_id_run w :
  fresh_id w
  = (Ok (generateNumericalFileId (random w)),
     mkWorld (csv_file w) (del_file w) (next_sha w) (faults w)
             (fun i => random w (16 + i)) (next_message w) (trace w)).
Proof. reflexivity. Qed.

Lemma handleFileUpload_served message w rs :
  faults w = [] -> stored w = file_of rs ->
  Forall (fun r => well_formed r = true) rs ->
  (forall i, random w i < 10) ->
  clean_message message = true ->
  exists res w',
    handleFileUpload message w = (res, w')
    /\ faults w' = []
    /\ stored w' = file_of (upload_outcome rs (random w) message)
    /\ (forall i, random w' i < 10).
Proof.
  intros F S W R C.
  unfold handleFileUpload, upload_outcome, clean_message in *.
  unfold bind at 1. rewrite pick_file_picked.
  destruct (picked message) as [[[fileId fileName] fileType]|] eqn:P.
  2:{ exists (Throw TypeError), w. auto. }
  cbv beta iota.
  destruct (truthy fileId) eqn:T; cbn [negb].
  2:{ exists (Ok tt), w. unfold ret. auto. }
  cbn [negb orb] in C. apply andb_prop in C. destruct C as [Cid Cname].
  set (w0 := snd (emit (SetTimeout (chat message) (message_id message)) w)).
  assert (E0 : emit (SetTimeout (chat message) (message_id message)) w = (Ok tt, w0))
    by reflexivity.
  assert (U0 : unchanged w w0) by (unfold unchanged; simpl; auto).
  rewrite (bind_ok _ _ _ _ _ E0).
  assert (F0 : faults w0 = []) by (destruct U0 as (H & _); congruence).
  destruct (sendMessage_served (chat message) TxtChecking w0 F0) as (w1 & E1 & U1).
  assert (F1 : faults w1 = []) by (destruct U1 as (H & _); congruence).
  destruct (checkForDuplicate_served fileName fileId w1 F1) as (w2 & E2 & U2).
  assert (F2 : faults w2 = []) by (destruct U2 as (H & _); congruence).
  destruct (deleteMessage_served (chat message) (next_message w0) w2 F2) as (w3 & E3 & U3).
  assert (F3 : faults w3 = []) by (destruct U3 as (H & _); congruence).
  assert (U03 : unchanged w w3).
  { eapply unchanged_trans; [exact U0|]. eapply unchanged_trans; [exact U1|].
    eapply unchanged_trans; [exact U2 | exact U3]. }
  assert (S1 : stored w1 = file_of rs).
  { rewrite (unchanged_stored _ _ (unchanged_trans _ _ _ U0 U1)). exact S. }
  rewrite (duplicate_check_result rs fileName fileId w1 W S1) in E2.
  match goal with
  | |- exists res w', try_catch ?body ?h w0 = _ /\ _ =>
      assert (Hbody : exists wf,
                body w0 = (Ok tt, wf) /\ faults wf = []
                /\ stored wf
                   = file_of
                       match duplicate_in rs fileName fileId with
                       | Some _ => rs
                       | None =>
                           rs ++ [mkRecord (generateNumericalFileId (random w))
                                    fileId fileName fileType]
                       end
                /\ (forall i, random wf i < 10))
  end.
  { rewrite (bind_ok _ _ _ _ _ E1). rewrite (bind_ok _ _ _ _ _ E2).
    cbn [tg_ok tg_message_id]. rewrite (bind_ok _ _ _ _ _ E3).
    assert (S3 : stored w3 = file_of rs) by (rewrite (unchanged_stored _ _ U03); exact S).
    assert (R3 : random w3 = random w) by (destruct U03 as (_ & _ & _ & H); exact H).
    destruct (duplicate_in rs fileName fileId) as [dup|] eqn:D; cbn [option_map].
    - destruct (sendMessage_served (chat message)
                  (TxtAlreadyExists (file_name (fileData (dup_of dup)))
                     (numericalId (dup_of dup))) w3 F3) as (w4 & E4 & U4).
      rewrite (bind_ok _ _ _ _ _ E4). exists w4. split; [reflexivity|].
      split; [destruct U4 as (H & _); congruence|].
      split; [rewrite (unchanged_stored _ _ U4); exact S3|].
      intros i. destruct U4 as (_ & _ & _ & H). rewrite H, R3. apply R.
    - destruct (sendMessage_served (chat message) TxtAdding w3 F3) as (w4 & E4 & U4).
      rewrite (bind_ok _ _ _ _ _ E4).
      rewrite (bind_ok _ _ _ _ _ (fresh_id_run w4)).
      set (w5 := mkWorld (csv_file w4) (del_file w4) (next_sha w4) (faults w4)
                   (fun i => random w4 (16 + i)) (next_message w4) (trace w4)).
      assert (F5 : faults w5 = []) by (destruct U4 as (H & _); simpl; congruence).
      assert (S5 : stored w5 = file_of rs).
      { change (stored w5) with (stored w4). rewrite (unchanged_stored _ _ U4). exact S3. }
      assert (R4 : random w4 = random w) by (destruct U4 as (_ & _ & _ & H); congruence).
      rewrite R4.
      assert (NE : stored w5 <> Some []) by (rewrite S5; apply file_of_not_empty).
      destruct (appendToCSV_served (generateNumericalFileId (random w)) fileId
                  fileName fileType w5 F5 NE) as (w6 & E6 & F6 & S6 & _ & R6).
      rewrite (bind_ok _ _ _ _ _ E6).
      destruct (getFileCount_served w6 F6) as (w7 & E7 & U7).
      rewrite (bind_ok _ _ _ _ _ E7).
      assert (F7 : faults w7 = []) by (destruct U7 as (H & _); congruence).
      cbn [tg_ok tg_message_id].
      destruct (deleteMessage_served (chat message) (next_message w3) w7 F7)
        as (w8 & E8 & U8).
      rewrite (bind_ok _ _ _ _ _ E8).
      assert (F8 : faults w8 = []) by (destruct U8 as (H & _); congruence).
      destruct (sendMessage_served (chat message)
                  (TxtReceived fileName (generateNumericalFileId (random w))
                     (read_result count_of 0%Z w6)) w8 F8) as (w9 & E9 & U9).
      rewrite (bind_ok _ _ _ _ _ E9). exists w9. split; [reflexivity|].
      assert (U69 : unchanged w6 w9).
      { eapply unchanged_trans; [exact U7|]. eapply unchanged_trans; [exact U8 | exact U9]. }
      split; [destruct U69 as (H & _); congruence|].
      split.
      + rewrite (unchanged_stored _ _ U69), S6, S5.
        exact (appended_file_of rs
                 (mkRecord (generateNumericalFileId (random w)) fileId fileName fileType) W).
      + intros i. destruct U69 as (_ & _ & _ & H). rewrite H, R6. simpl.
        rewrite R4. apply R. }
  destruct Hbody as (wf & Eb & Ff & Sf & Rf).
  exists (Ok tt), wf. split; [apply try_catch_ok; exact Eb|]. auto.
Qed.


Lemma NoDup_snoc {A} (l : list A) (a : A) :
  NoDup l -> ~ In a l -> NoDup (l ++ [a]).
Proof.
  intros N H. apply NoDup_app; [exact N | repeat constructor; intros [] | ].
  intros x Hx [Hx' | []]. subst x. exact (H Hx).
Qed.

Lemma no_collision_not_in name ref rs :
  find (collides name ref) rs = None ->
  ~ In name (map display_name rs) /\ ~ In ref (map external_file_ref rs).
Proof.
  intros Hf. split; intros Hin; apply in_map_iff in Hin;
    destruct Hin as (r & Er & Hr);
    pose proof (find_none _ _ Hf r Hr) as Hc;
    unfold collides in Hc; apply orb_false_elim in Hc; destruct Hc as [Hc1 Hc2];
    apply str_eqb_neq in Hc1, Hc2; congruence.
Qed.

(** An upload keeps the records well formed and unique, and it only adds
    behind them. *)
Lemma upload_outcome_invariant rs draw message :
  Forall (fun r => well_formed r = true) rs ->
  unique_records rs ->
  (forall i, draw i < 10) ->
  clean_message message = true ->
  Forall (fun r => well_formed r = true) (upload_outcome rs draw message)
  /\ unique_records (upload_outcome rs draw message)
  /\ exists added, upload_outcome rs draw message = rs ++ added.
Proof.
  intros W [Nr Nn] D C.
  assert (Hsame : Forall (fun r => well_formed r = true) rs
                  /\ unique_records rs /\ exists added, rs = rs ++ added).
  { split; [exact W|]. split; [split; assumption|]. exists []. symmetry. apply app_nil_r. }
  unfold upload_outcome, clean_message in *.
  destruct (picked message) as [[[fileId fileName] fileType]|] eqn:P; [|exact Hsame].
  destruct (truthy fileId) eqn:T; [|exact Hsame].
  cbn [negb orb] in C. apply andb_prop in C. destruct C as [Cid Cname].
  destruct (duplicate_in rs fileName fileId) as [dup|] eqn:Hd; [exact Hsame|].
  assert (Wnew : well_formed (mkRecord (generateNumericalFileId draw) fileId
                                fileName fileType) = true).
  { unfold well_formed. cbn [logical_id external_file_ref display_name media_kind].
    rewrite (generateNumericalFileId_plain draw D), Cid, Cname.
    rewrite (picked_type_plain message fileId fileName fileType P T). reflexivity. }
  assert (Hfresh : ~ In fileName (map display_name rs)
                   /\ ~ In fileId (map external_file_ref rs)).
  { destruct rs as [|r0 rs']; [split; intros []|].
    unfold duplicate_in in Hd. cbn [find] in Hd.
    destruct (collides fileName fileId header_record); [discriminate|].
    apply no_collision_not_in. exact Hd. }
  split.
  { apply Forall_app. split; [exact W | constructor; [exact Wnew | constructor]]. }
  split.
  { unfold unique_records. rewrite !map_app. cbn [map external_file_ref display_name].
    split; apply NoDup_snoc; tauto. }
  eexists. reflexivity.
Qed.

Lemma handleTelegramWebhook_served update w rs :
  faults w = [] -> stored w = file_of rs ->
  Forall (fun r => well_formed r = true) rs ->
  (forall i, random w i < 10) ->
  clean_update update = true ->
  exists reply w',
    handleTelegramWebhook update w = (Ok reply, w')
    /\ faults w' = []
    /\ stored w' = file_of (update_outcome rs (random w) update)
    /\ (forall i, random w' i < 10).
Proof.
  intros F S W R C. unfold handleTelegramWebhook, update_outcome.
  destruct update as [message|].
  2:{ exists ReplyOK, w. unfold try_catch, ret. auto. }
  cbn [clean_update] in C.
  destruct (handleFileUpload_served message w rs F S W R C)
    as (res & w' & E & F' & S' & R').
  assert (Hup : exists reply w'',
            try_catch (handleFileUpload message ;; ret ReplyOK)
              (fun _ => console_error ErrWebhook ;; ret ReplyError) w
            = (Ok reply, w'')
            /\ faults w'' = []
            /\ stored w'' = file_of (upload_outcome rs (random w) message)
            /\ (forall i, random w'' i < 10)).
  { unfold try_catch, bind. rewrite E. destruct res as [[]|e].
    - exists ReplyOK, w'. unfold ret. auto.
    - eexists ReplyError, _. unfold console_error, emit, ret.
      split; [reflexivity|]. simpl. auto. }
  destruct (document message) eqn:Dm; [exact Hup|].
  destruct (photo message) eqn:Pm; [exact Hup|].
  destruct (video message) eqn:Vm; [exact Hup|].
  exists ReplyOK, w. unfold try_catch, ret. split; [reflexivity|].
  split; [exact F|]. split; [|exact R].
  unfold upload_outcome, picked. rewrite Dm, Pm, Vm. exact S.
Qed.

Lemma serve_updates_served (updates : list (option Message)) :
  forall w rs,
    store_invariant w rs ->
    Forall (fun u => clean_update u = true) updates ->
    exists replies w' added,
      serve_updates updates w = (Ok replies, w')
      /\ store_invariant w' (rs ++ added).
Proof.
  induction updates as [|u updates IH]; intros w rs I C.
  - exists [], w, []. rewrite app_nil_r. split; [reflexivity | exact I].
  - destruct I as (F & S & W & U & R).
    inversion C as [|? ? Cu Cus]; subst.
    destruct (handleTelegramWebhook_served u w rs F S W R Cu)
      as (reply & w1 & E1 & F1 & S1 & R1).
    assert (Hout : Forall (fun r => well_formed r = true) (update_outcome rs (random w) u)
                   /\ unique_records (update_outcome rs (random w) u)
                   /\ exists added, update_outcome rs (random w) u = rs ++ added).
    { destruct u as [message|].
      - apply upload_outcome_invariant; assumption.
      - split; [exact W|]. split; [exact U|]. exists []. symmetry. apply app_nil_r. }
    destruct Hout as (W1 & U1 & added1 & Eo). rewrite Eo in *.
    destruct (IH w1 (rs ++ added1)) as (replies & w2 & added2 & E2 & I2).
    { repeat split; try assumption; apply U1. }
    { exact Cus. }
    exists (reply :: replies), w2, (added1 ++ added2).
    cbn [serve_updates]. rewrite (bind_ok _ _ _ _ _ E1), (bind_ok _ _ _ _ _ E2).
    rewrite app_assoc. split; [reflexivity | exact I2].
Qed.

Lemma records_of_rows rs :
  Forall (fun r => well_formed r = true) rs ->
  flat_map record_of_line (map row_of rs) = rs.
Proof.
  induction 1 as [|r rs Wr Wrs IH]; [reflexivity|].
  cbn [map flat_map]. rewrite IH. unfold record_of_line.
  rewrite (parseCSVLine_row_of r Wr). destruct r. reflexivity.
Qed.

(** The records that the readers see in the file of well-formed records
    are those records. *)
Lemma records_of_render rs :
  Forall (fun r => well_formed r = true) rs -> records_of (render rs) = rs.
Proof.
  intros W. unfold records_of.
  assert (H : hasHeader (render rs) = true).
  { apply hasHeader_headed. unfold render. eexists. cbn [app]. reflexivity. }
  rewrite H, (split_lines_render rs W). cbn [tl].
  rewrite (nonblank_rows rs W). apply records_of_rows. exact W.
Qed.

Lemma archive_file_of w rs :
  stored w = file_of rs -> Forall (fun r => well_formed r = true) rs ->
  archive w = rs.
Proof.
  intros S W. unfold archive. rewrite S. destruct rs as [|r rs]; [reflexivity|].
  cbn [file_of]. apply records_of_render. exact W.
Qed.

(** An upload that collides with a record of the store adds nothing. *)
Lemma upload_outcome_duplicate rs draw message fileId fileName fileType r :
  picked message = Some (fileId, fileName, fileType) ->
  In r rs -> display_name r = fileName \/ external_file_ref r = fileId ->
  upload_outcome rs draw message = rs.
Proof.
  intros P Hin Hc. unfold upload_outcome. rewrite P.
  destruct (truthy fileId); [|reflexivity].
  destruct (duplicate_in rs fileName fileId) as [dup|] eqn:D; [reflexivity|].
  exfalso. destruct rs as [|r0 rs']; [destruct Hin|].
  unfold duplicate_in in D.
  apply collides_iff in Hc.
  pose proof (find_none _ _ D r (or_intror Hin)) as Hn. congruence.
Qed.

(* ===================================================================== *)
(** * Runs under any transport: the archive only grows *)
(* ===================================================================== *)

Section Post.
Context (R : World -> World -> Prop) `{Frame R}.

Lemma post_ret {A} (a : A) : post R (ret a).
Proof. intros w. apply frame_refl. Qed.

Lemma post_throw {A} e : post R (@throw A e).
Proof. intros w. apply frame_refl. Qed.

Lemma post_atob data : post R (atob data).
Proof. intros w. rewrite atob_world. apply frame_refl. Qed.

Lemma post_bind {A B} (m : M A) (k : A -> M B) :
  post R m -> (forall a, post R (k a)) -> post R (bind m k).
Proof.
  intros Hm Hk w. unfold bind. specialize (Hm w).
  destruct (m w) as [[a|e] w1]; simpl in *.
  - eapply frame_trans; [exact Hm | apply Hk].
  - exact Hm.
Qed.

Lemma post_try_catch {A} (body : M A) (h : Err -> M A) :
  post R body -> (forall e, post R (h e)) -> post R (try_catch body h).
Proof.
  intros Hm Hk w. unfold try_catch. specialize (Hm w).
  destruct (body w) as [[a|e] w1]; simpl in *.
  - exact Hm.
  - eapply frame_trans; [exact Hm | apply Hk].
Qed.
End Post.

#[local] Instance keeps_csv_frame : Frame keeps_csv.
Proof. split; unfold keeps_csv; congruence. Qed.

Lemma post_emit e : post keeps_csv (emit e).
Proof. intros w. reflexivity. Qed.
Lemma post_next_fault : post keeps_csv next_fault.
Proof. intros w. unfold next_fault. destruct (faults w); reflexivity. Qed.
Lemma post_get_world : post keeps_csv get_world.
Proof. intros w. reflexivity. Qed.
Lemma post_fresh_id : post keeps_csv fresh_id.
Proof. intros w. reflexivity. Qed.

Create HintDb post discriminated.
#[local] Hint Resolve post_emit post_next_fault post_get_world post_fresh_id : post.

Ltac post_step :=
  first
    [ apply post_ret; solve [typeclasses eauto]
    | apply post_throw; solve [typeclasses eauto]
    | apply post_atob; solve [typeclasses eauto]
    | solve [auto with post]
    | apply post_bind; [solve [typeclasses eauto] | | intros ?]
    | apply post_try_catch; [solve [typeclasses eauto] | | intros ?]
    | match goal with
      | |- post _ (if ?b then _ else _) => destruct b
      | |- post _ (match ?x with _ => _ end) => destruct x
      end ].

Ltac post_auto := repeat post_step.

Lemma post_transport r : post keeps_csv (transport r).
Proof. unfold transport. post_auto. Qed.
#[local] Hint Resolve post_transport : post.

Lemma post_json {A} (r : Response A) : post keeps_csv (json r).
Proof. unfold json. post_auto. Qed.
#[local] Hint Resolve post_json : post.

Lemma post_fetch_csv : post keeps_csv fetch_csv.
Proof. unfold fetch_csv. post_auto. Qed.
Lemma post_fetch_blob s : post keeps_csv (fetch_blob s).
Proof. unfold fetch_blob. post_auto. Qed.
Lemma post_fetch_telegram r : post keeps_csv (fetch_telegram r).
Proof.
  unfold fetch_telegram. post_auto.
Qed.
#[local] Hint Resolve post_fetch_csv post_fetch_blob post_fetch_telegram : post.

Lemma post_console_error c : post keeps_csv (console_error c).
Proof. unfold console_error. post_auto. Qed.
#[local] Hint Resolve post_console_error : post.

Lemma post_getFileInfo : post keeps_csv getFileInfo.
Proof. unfold getFileInfo. post_auto. Qed.
#[local] Hint Resolve post_getFileInfo : post.
Lemma post_downloadLargeFile : post keeps_csv downloadLargeFile.
Proof. unfold downloadLargeFile. post_auto. Qed.
#[local] Hint Resolve post_downloadLargeFile : post.
Lemma post_getFileContent : post keeps_csv getFileContent.
Proof. unfold getFileContent. post_auto. Qed.
#[local] Hint Resolve post_getFileContent : post.
Lemma post_checkForDuplicate n f : post keeps_csv (checkForDuplicate n f).
Proof. unfold checkForDuplicate. post_auto. Qed.
Lemma post_getFileCount : post keeps_csv getFileCount.
Proof. unfold getFileCount. post_auto. Qed.
Lemma post_findFileByIdStreaming i : post keeps_csv (findFileByIdStreaming i).
Proof. unfold findFileByIdStreaming. post_auto. Qed.
Lemma post_sendMessage c t : post keeps_csv (sendMessage c t).
Proof. unfold sendMessage. post_auto. Qed.
Lemma post_deleteMessage c m : post keeps_csv (deleteMessage c m).
Proof. unfold deleteMessage. post_auto. Qed.

Lemma getFileInfo_any w :
  exists fi w',
    getFileInfo w = (Ok fi, w')
    /\ csv_file w' = csv_file w /\ random w' = random w
    /\ (fi_exists fi = true ->
        exists f, csv_file w = Some f /\ fi_sha fi = Some (rf_sha f)).
Proof.
  destruct w as [csv del sha fs rnd msg tr].
  unfold getFileInfo, try_catch, fetch_csv, transport, bind, next_fault, emit,
    console_error, throw, ret, get_world, json.
  destruct csv as [[c s z]|]; destruct fs as [|[] fs]; simpl;
    do 2 eexists; (split; [reflexivity|]); simpl;
    (split; [reflexivity|]); (split; [reflexivity|]);
    intros H; try discriminate; eexists; split; reflexivity.
Qed.

Lemma getFileContent_any w :
  exists c w',
    getFileContent w = (Ok c, w')
    /\ csv_file w' = csv_file w /\ random w' = random w
    /\ (forall s, c = Some s -> stored w = Some s).
Proof.
  destruct w as [csv del sha fs rnd msg tr].
  unfold getFileContent, downloadLargeFile, getFileInfo, try_catch, fetch_csv,
    fetch_blob, transport, bind, next_fault, emit, console_error, throw, ret,
    get_world, json, atob, stored.
  destruct csv as [[c s z]|]; simpl;
  destruct fs as [|[] [|[] [|[] fs]]]; simpl;
  try (destruct (z >? GITHUB_SIZE_LIMIT)%Z eqn:Z; simpl);
  rewrite ?Nat.eqb_refl; simpl; rewrite ?decode_wire; simpl;
  do 2 eexists; (split; [reflexivity|]); simpl;
  (split; [reflexivity|]); (split; [reflexivity|]);
  intros s0 H; inversion H; reflexivity.
Qed.


#[local] Hint Resolve post_checkForDuplicate post_getFileCount post_sendMessage
  post_deleteMessage : post.

#[local] Instance only_appends_frame : Frame only_appends.
Proof.
  split.
  - intros w Hs. split; [exact Hs|]. unfold grows.
    destruct (stored w) as [c|]; [|exact I]. exists []. symmetry. apply app_nil_r.
  - intros a b c Hab Hbc Ha. destruct (Hab Ha) as [Hb Gab].
    destruct (Hbc Hb) as [Hc Gbc]. split; [exact Hc|].
    unfold grows in *. destruct (stored a) as [ca|]; [|exact I].
    destruct (stored b) as [cb|]; [|contradiction].
    destruct (stored c) as [cc|]; [|contradiction].
    destruct Gab as (e1 & E1). destruct Gbc as (e2 & E2).
    exists (e1 ++ e2). rewrite E2, E1, app_assoc. reflexivity.
Qed.

Lemma keeps_csv_only_appends w w' : keeps_csv w w' -> only_appends w w'.
Proof.
  unfold keeps_csv, only_appends, stored. intros E Hs. rewrite E.
  split; [exact Hs|]. unfold grows.
  destruct (option_map (@rf_content _) (csv_file w)) as [c|]; [|exact I].
  exists []. symmetry. apply app_nil_r.
Qed.

Lemma post_keeps {A} (m : M A) : post keeps_csv m -> post only_appends m.
Proof. intros H w. apply keeps_csv_only_appends. apply H. Qed.

(** A write of the archive, whatever the transport does: the file stays or
    it becomes the content sent, and this only under the current version. *)
Lemma fetch_put_csv_any content sha w :
  csv_file (snd (fetch_put_csv (btoa content) sha w)) = csv_file w
  \/ (version_matches (csv_file w) sha = true
      /\ stored (snd (fetch_put_csv (btoa content) sha w)) = Some content).
Proof.
  destruct w as [csv del s fs rnd msg tr].
  unfold fetch_put_csv, transport, bind, next_fault, emit, throw, ret, stored.
  rewrite decode_btoa.
  destruct fs as [|[] fs]; simpl; auto;
    destruct (version_matches csv sha) eqn:V; simpl; auto.
Qed.

Lemma createFile_any content w :
  csv_file (snd (createFile content w)) = csv_file w
  \/ (csv_file w = None /\ stored (snd (createFile content w)) = Some content).
Proof.
  unfold createFile, bind.
  destruct (fetch_put_csv_any content None w) as [H | [V H]].
  - left. destruct (fetch_put_csv (btoa content) None w) as [[r|e] w1]; simpl in *; [|exact H].
    destruct (negb (ok r)); [exact H|]. unfold json. destruct (body r); exact H.
  - right. split.
    + destruct (csv_file w); [discriminate | reflexivity].
    + destruct (fetch_put_csv (btoa content) None w) as [[r|e] w1]; simpl in *; [|exact H].
      destruct (negb (ok r)); [exact H|]. unfold json. destruct (body r); exact H.
Qed.

Lemma updateFile_any content sha w :
  csv_file (snd (updateFile content sha w)) = csv_file w
  \/ stored (snd (updateFile content sha w)) = Some content.
Proof.
  unfold updateFile, bind.
  destruct (fetch_put_csv_any content sha w) as [H | [V H]]; [left | right];
    (destruct (fetch_put_csv (btoa content) sha w) as [[r|e] w1]; simpl in *; [|exact H];
     destruct (negb (ok r)); [exact H|]; unfold json; destruct (body r); exact H).
Qed.

Lemma clean_end_snoc (t : str) :
  clean_end t -> exists t' y, t = t' ++ [y] /\ is_ws y = false.
Proof.
  intros [T C]. rewrite <- truthy_rev in T.
  destruct (rev t) as [|y r] eqn:E; [discriminate|].
  exists (rev r), y. split.
  - rewrite <- (rev_involutive t), E. reflexivity.
  - simpl in C. apply negb_true_iff in C. exact C.
Qed.

Lemma ends_clean_line_trimEnd (c : str) :
  ends_clean_line c -> trimEnd c ++ [newline] = c.
Proof.
  intros (b & x & E & X). subst c.
  change (b ++ [x; newline]) with (b ++ [x] ++ [newline]).
  rewrite app_assoc, trimEnd_snoc_ws by reflexivity.
  rewrite trimEnd_clean; [reflexivity|].
  rewrite rev_app_distr. simpl. rewrite X. reflexivity.
Qed.

Lemma ends_clean_line_row (a i f n t : str) :
  clean_end t -> ends_clean_line (a ++ row i f n t ++ [newline]).
Proof.
  intros Ht. destruct (clean_end_snoc t Ht) as (t' & y & E & Y). subst t.
  exists (a ++ i ++ [comma] ++ f ++ [comma] ++ escapeCSV n ++ [comma] ++ t'), y.
  split; [|exact Y]. unfold row. rewrite <- !app_assoc. reflexivity.
Qed.

Lemma appended_settled (s : option str) (i f n t : str) :
  settled s -> clean_end t ->
  settled (Some (appended s i f n t)) /\ grows s (Some (appended s i f n t)).
Proof.
  intros Hs Ht. destruct s as [c|]; cbn [settled grows appended].
  - assert (E : trimEnd c ++ [newline] ++ row i f n t ++ [newline]
                = c ++ row i f n t ++ [newline]).
    { rewrite <- (ends_clean_line_trimEnd c Hs) at 2. rewrite <- app_assoc. reflexivity. }
    rewrite E. split; [apply ends_clean_line_row; exact Ht|].
    eexists. reflexivity.
  - split; [|exact I].
    change (header ++ [newline] ++ row i f n t ++ [newline])
      with ((header ++ [newline]) ++ row i f n t ++ [newline]).
    apply ends_clean_line_row. exact Ht.
Qed.

Lemma only_appends_same w w' : csv_file w' = csv_file w -> only_appends w w'.
Proof. apply keeps_csv_only_appends. Qed.

Lemma only_appends_put w w' w0 (i f n t : str) :
  csv_file w0 = csv_file w ->
  clean_end t ->
  (csv_file w' = csv_file w0 \/ stored w' = Some (appended (stored w) i f n t)) ->
  only_appends w w'.
Proof.
  intros E0 Ht [H | H].
  - apply only_appends_same. congruence.
  - intros Hs. rewrite H. apply appended_settled; assumption.
Qed.

(** appendToCSV of a row that ends clean, whatever the transport does: the
    archive stays as it is or grows by that row. *)
Lemma post_appendToCSV (i f n t : str) :
  clean_end t -> post only_appends (appendToCSV i f n t).
Proof.
  intros Ht w. unfold appendToCSV, try_catch, bind.
  destruct (getFileInfo_any w) as (fi & w1 & E1 & C1 & _ & Hfi). rewrite E1.
  destruct (fi_exists fi) eqn:X; cbn [negb].
  - destruct (getFileContent_any w1) as (c & w2 & E2 & C2 & _ & Hc). rewrite E2.
    destruct (no_content c) eqn:N.
    + apply only_appends_same. unfold throw, console_error, emit, bind. simpl. congruence.
    + destruct c as [s|]; [|discriminate]. cbn [text_of].
      assert (Ss : stored w = Some s).
      { rewrite <- (Hc s eq_refl). unfold stored. rewrite C1. reflexivity. }
      pose proof (updateFile_any
                    (trimEnd s ++ [newline] ++ row i f n t ++ [newline])
                    (fi_sha fi) w2) as Hput.
      destruct (updateFile (trimEnd s ++ [newline] ++ row i f n t ++ [newline])
                  (fi_sha fi) w2) as [[[]|e] w3]; simpl in *;
        (apply (only_appends_put w _ w2 i f n t); [congruence | exact Ht |]);
        rewrite Ss; cbn [appended]; exact Hput.
  - pose proof (createFile_any
                  (header ++ [newline] ++ row i f n t ++ [newline]) w1) as Hput.
    destruct (createFile (header ++ [newline] ++ row i f n t ++ [newline]) w1)
      as [[[]|e] w3]; simpl in *;
      (apply (only_appends_put w _ w1 i f n t); [congruence | exact Ht |]);
      (destruct Hput as [H | [Hn H]]; [left; exact H | right]);
      (assert (Sn : stored w = None) by (unfold stored; rewrite <- C1, Hn; reflexivity));
      rewrite Sn; cbn [appended]; exact H.
Qed.

#[local] Hint Resolve post_keeps post_appendToCSV : post.

Lemma plain_clean_end (t : str) : plain t = true -> clean_end t.
Proof.
  intros H. apply plain_parts in H. destruct H as (T & U & _).
  apply unpadded_parts in U. split; tauto.
Qed.

(** handleFileUpload, whatever is uploaded and whatever the transport does:
    the archive stays as it is or grows by one row. *)
Lemma post_handleFileUpload message : post only_appends (handleFileUpload message).
Proof.
  intros w. unfold handleFileUpload. unfold bind at 1. rewrite pick_file_picked.
  destruct (picked message) as [[[fileId fileName] fileType]|] eqn:P;
    [|apply frame_refl].
  cbv beta iota. destruct (truthy fileId) eqn:T; cbn [negb]; [|apply frame_refl].
  pose proof (plain_clean_end fileType
                (picked_type_plain message fileId fileName fileType P T)) as Ht.
  match goal with
  | |- only_appends w (snd (?m w)) => revert w; change (post only_appends m)
  end.
  post_auto.
Qed.

Lemma post_handleTelegramWebhook update : post only_appends (handleTelegramWebhook update).
Proof.
  pose proof post_handleFileUpload as H.
  unfold handleTelegramWebhook. post_auto.
Qed.

Lemma post_serve_updates updates : post only_appends (serve_updates updates).
Proof.
  induction updates as [|u updates IH]; cbn [serve_updates].
  - apply post_ret. typeclasses eauto.
  - pose proof (post_handleTelegramWebhook u) as H. post_auto.
Qed.

(** The webhook answers whatever happens. *)
Lemma handleTelegramWebhook_answers update w :
  exists reply, fst (handleTelegramWebhook update w) = Ok reply.
Proof.
  unfold handleTelegramWebhook, try_catch.
  match goal with
  | |- context [match ?b w with _ => _ end] => destruct (b w) as [[r|e] w1]
  end.
  - exists r. reflexivity.
  - exists ReplyError. reflexivity.
Qed.

Lemma serve_updates_answers updates :
  forall w, exists replies, fst (serve_updates updates w) = Ok replies.
Proof.
  induction updates as [|u updates IH]; intros w.
  - exists []. reflexivity.
  - cbn [serve_updates]. unfold bind.
    destruct (handleTelegramWebhook_answers u w) as (r & Er).
    destruct (handleTelegramWebhook u w) as [res w1]. simpl in Er. subst res.
    destruct (IH w1) as (rs & Ers).
    destruct (serve_updates updates w1) as [res w2]. simpl in Ers. subst res.
    exists (r :: rs). reflexivity.
Qed.

Lemma before_newline_prefix (a b l : str) :
  before_newline a = Some l -> before_newline (a ++ b) = Some l.
Proof.
  revert l. induction a as [|c a IH]; intros l; [discriminate|].
  cbn [app before_newline]. destruct (Ascii.eqb c newline); [auto|].
  destruct (before_newline a) as [l'|]; [|discriminate].
  intros E. rewrite (IH l' eq_refl). exact E.
Qed.

Lemma hasHeader_prefix (a b : str) :
  hasHeader ((a ++ [newline]) ++ b) = hasHeader (a ++ [newline]).
Proof.
  unfold hasHeader.
  destruct (before_newline (a ++ [newline])) as [l|] eqn:E.
  - rewrite (before_newline_prefix _ b l E). reflexivity.
  - exfalso. clear b. induction a as [|c a IH]; [discriminate|].
    cbn [app before_newline] in E. destruct (Ascii.eqb c newline); [discriminate|].
    destruct (before_newline (a ++ [newline])); [discriminate | auto].
Qed.

Lemma tl_app_not_nil {A} (l x : list A) : l <> [] -> tl (l ++ x) = tl l ++ x.
Proof. destruct l; [congruence | reflexivity]. Qed.

(** Text added behind a content that ends with a newline adds records
    behind the records of the content. *)
Lemma records_of_grow (a ext : str) :
  exists added,
    records_of ((a ++ [newline]) ++ ext) = records_of (a ++ [newline]) ++ added.
Proof.
  unfold records_of. rewrite hasHeader_prefix.
  rewrite <- app_assoc. cbn [app].
  rewrite (split_lines_concat a ext), (split_lines_concat a []).
  exists (flat_map record_of_line (nonblank_lines (split_lines ext))).
  destruct (hasHeader (a ++ [newline]));
    rewrite ?(tl_app_not_nil _ _ (split_lines_not_nil a));
    rewrite !nonblank_lines_app, !flat_map_app;
    change (nonblank_lines (split_lines [])) with (@nil str);
    cbn [flat_map]; rewrite app_nil_r; reflexivity.
Qed.

Lemma grows_archive w1 w2 :
  settled (stored w1) -> grows (stored w1) (stored w2) ->
  exists added, archive w2 = archive w1 ++ added.
Proof.
  unfold archive. intros Hs Hg.
  destruct (stored w1) as [c1|]; [|eexists; reflexivity].
  destruct (stored w2) as [c2|]; [|contradiction].
  destruct Hg as (ext & E). subst c2.
  destruct Hs as (b & x & E & _). subst c1.
  change (b ++ [x; newline]) with (b ++ [x] ++ [newline]). rewrite app_assoc.
  apply records_of_grow.
Qed.

(* ===================================================================== *)
(** * The claims of the specification *)
(* ===================================================================== *)

(** C1. For every queue and every time [now], a sweep whose load and
    writeback are served leaves in the persisted queue exactly the jobs with
    [deleteAt > now], in their original order: the jobs with
    [deleteAt <= now] are removed and no other. When a job is due the sweep
    sends one write, of the remaining jobs under the version it loaded; when
    none is due it writes nothing and leaves the file as it is. A second
    sweep with the same [now], right after, changes nothing: no write and no
    deletion request. *)
Theorem sweep_removes_exactly_the_due_jobs (now : Z) (w : World) :
  fault_at 0 w = NoFault ->
  fault_at (1 + List.length (due now (queue w))) w = NoFault ->
  forall r w', handleScheduledDeletions now w = (r, w') ->
    queue w' = pending now (queue w)
    /\ (forall j, In j (queue w') <-> In j (queue w) /\ (now < deleteAt j)%Z)
    /\ (due now (queue w) <> [] ->
        queue_writes (trace w')
        = queue_writes (trace w)
          ++ [(pending now (queue w), option_map (@rf_sha _) (del_file w))])
    /\ (due now (queue w) = [] ->
        del_file w' = del_file w
        /\ queue_writes (trace w') = queue_writes (trace w))
    /\ (forall r2 w2, handleScheduledDeletions now w' = (r2, w2) ->
        del_file w2 = del_file w'
        /\ queue_writes (trace w2) = queue_writes (trace w')
        /\ attempted_deletions (trace w2) = attempted_deletions (trace w')).
Proof.
  intros Hload Hput r w' Hrun.
  destruct (sweep_run now w) as (w1 & E & _ & _ & _ & Hnone & Hsome).
  rewrite E in Hrun. inversion Hrun; subst r w1. clear Hrun.
  assert (Hl : loaded_jobs w = queue w) by (unfold loaded_jobs; rewrite Hload; reflexivity).
  rewrite Hl in *.
  assert (Hq : queue w' = pending now (queue w)).
  { destruct (due now (queue w)) eqn:D.
    - destruct (Hnone eq_refl) as [Hd _]. unfold queue at 1. rewrite Hd.
      fold (queue w). symmetry. apply pending_no_due. exact D.
    - apply Hsome; [discriminate | exact Hput]. }
  split; [exact Hq|].
  split.
  { intros j. rewrite Hq. unfold pending. rewrite filter_In.
    rewrite negb_true_iff, Z.leb_gt. tauto. }
  split; [intros H; apply Hsome; exact H|].
  split; [exact Hnone|].
  intros r2 w2 Hrun2.
  destruct (sweep_run now w') as (w3 & E2 & _ & A2 & _ & Hnone2 & _).
  rewrite E2 in Hrun2. inversion Hrun2; subst r2 w3. clear Hrun2.
  assert (Hd : due now (loaded_jobs w') = []).
  { unfold loaded_jobs. destruct (fault_at 0 w'); try reflexivity.
    rewrite Hq. apply due_pending_all_pending. }
  rewrite Hd in A2. simpl in A2. rewrite app_nil_r in A2.
  destruct (Hnone2 Hd) as [H1 H2]. auto.
Qed.

Lemma sweep_removes_exactly_the_due_jobs_witness :
  queue (snd (handleScheduledDeletions 1500 sweep_world)) = [job_b; job_d]
  /\ queue_writes (trace (snd (handleScheduledDeletions 1500 sweep_world)))
     = [([job_b; job_d], Some 5)].
Proof.
  assert (Hload : fault_at 0 sweep_world = NoFault) by (vm_compute; reflexivity).
  assert (Hput : fault_at (1 + List.length (due 1500 (queue sweep_world))) sweep_world
                 = NoFault) by (vm_compute; reflexivity).
  assert (Hrun : handleScheduledDeletions 1500 sweep_world
                 = (Ok tt, snd (handleScheduledDeletions 1500 sweep_world)))
    by (vm_compute; reflexivity).
  destruct (sweep_removes_exactly_the_due_jobs 1500 sweep_world Hload Hput _ _ Hrun)
    as (Hq & _ & Hw & _ & _).
  split.
  - rewrite Hq. vm_compute. reflexivity.
  - rewrite Hw; [vm_compute; reflexivity|]. vm_compute. discriminate.
Defined.

(** C2, as stated, fails: a record whose display name begins with a blank
    is appended to the empty store; probed with that very name,
    checkForDuplicate reports no hit. *)
Lemma padded_name_is_not_a_duplicate :
  fst ((append padded_record ;;
        checkForDuplicate (display_name padded_record) (lit "AgADother"))
         empty_world)
  = Ok None.
Proof. vm_compute. reflexivity. Qed.

(** The header line is scanned by checkForDuplicate like a record: a file
    named file_name is reported as a duplicate of it. *)
Lemma header_line_is_a_duplicate :
  fst ((append earlier_record ;;
        checkForDuplicate (lit "file_name") (lit "AgADother"))
         empty_world)
  = Ok (Some (mkDup (lit "numerical_file_id")
                    (mkData (lit "file_id") (lit "file_name") (lit "file_type")))).
Proof. vm_compute. reflexivity. Qed.

(** C2, amended. On a store written by appendToCSV from well-formed
    records, with every request served, and for a probe whose display name
    is not the header word file_name and whose file reference is not the
    header word file_id: checkForDuplicate returns a hit exactly when some
    appended record has the probed display name or the probed file
    reference (either one is enough), and the hit is the earliest such
    record in the order of the appends. *)
Theorem findDuplicate_name_or_reference
  (rs : list ArchiveRecord) (name ref : str) (w : World) :
  faults w = [] -> stored w = None ->
  Forall (fun r => well_formed r = true) rs ->
  name <> lit "file_name" -> ref <> lit "file_id" ->
  exists w1 w2 hit,
    append_all rs w = (Ok tt, w1)
    /\ checkForDuplicate name ref w1 = (Ok (option_map dup_of hit), w2)
    /\ (hit <> None
        <-> exists r, In r rs /\ (display_name r = name \/ external_file_ref r = ref))
    /\ (forall r, hit = Some r ->
          exists before after,
            rs = before ++ r :: after
            /\ (display_name r = name \/ external_file_ref r = ref)
            /\ forall r0, In r0 before ->
                 display_name r0 <> name /\ external_file_ref r0 <> ref).
Proof.
  intros F S W Hname Href.
  destruct (append_all_served rs [] w F S (Forall_nil _) W) as (w1 & E1 & F1 & S1 & _).
  simpl app in S1.
  destruct (checkForDuplicate_served name ref w1 F1) as (w2 & E2 & _).
  exists w1, w2, (find (collides name ref) rs).
  split; [exact E1|]. split.
  { rewrite E2. f_equal. f_equal.
    rewrite (read_result_file_of _ None w1 rs S1).
    destruct rs as [|r rs]; [reflexivity|].
    rewrite (check_in_render name ref (r :: rs) W).
    cbn [find].
    assert (Hh : collides name ref header_record = false).
    { unfold collides, header_record. cbn [display_name external_file_ref].
      apply orb_false_intro; apply str_eqb_neq; congruence. }
    rewrite Hh. reflexivity. }
  split.
  { rewrite find_some_iff. split; intros (r & Hin & Hc); exists r; split; auto;
      apply collides_iff; exact Hc. }
  intros r Hr. destruct (find_earliest _ _ _ Hr) as (before & after & El & Hc & Hb).
  exists before, after. split; [exact El|].
  split; [apply collides_iff; exact Hc|].
  intros r0 H0. specialize (Hb r0 H0). unfold collides in Hb.
  apply orb_false_elim in Hb. destruct Hb as [Hb1 Hb2].
  split; apply str_eqb_neq; assumption.
Qed.

Lemma findDuplicate_name_or_reference_witness :
  exists w1 w2,
    append_all [earlier_record; quoted_record; later_record] empty_world = (Ok tt, w1)
    /\ checkForDuplicate (lit "talk.mp4") (lit "BQACAgQAAxkBAAIB") w1
       = (Ok (Some (dup_of quoted_record)), w2).
Proof.
  assert (W : Forall (fun r => well_formed r = true)
                [earlier_record; quoted_record; later_record]).
  { repeat constructor. }
  assert (Hn : lit "talk.mp4" <> lit "file_name") by discriminate.
  assert (Hr : lit "BQACAgQAAxkBAAIB" <> lit "file_id") by discriminate.
  destruct (findDuplicate_name_or_reference
              [earlier_record; quoted_record; later_record]
              (lit "talk.mp4") (lit "BQACAgQAAxkBAAIB") empty_world
              eq_refl eq_refl W Hn Hr) as (w1 & w2 & hit & E1 & E2 & Hiff & Hfirst).
  exists w1, w2. split; [exact E1|]. rewrite E2. f_equal. f_equal.
  destruct hit as [r|].
  - destruct (Hfirst r eq_refl) as (before & after & El & Hc & Hb).
    destruct before as [|b0 before].
    + exfalso. inversion El; subst r. destruct Hc; discriminate.
    + inversion El as [[Eb0 El']]. subst b0.
      destruct before as [|b1 before].
      * inversion El'; subst r. reflexivity.
      * exfalso. inversion El' as [[Eb1 El'']]. subst b1.
        destruct (Hb quoted_record (or_intror (or_introl eq_refl))) as [_ Hbad].
        apply Hbad. reflexivity.
  - exfalso. apply (proj2 Hiff); [|reflexivity].
    exists quoted_record. split; [simpl; tauto | right; reflexivity].
Defined.

(** C3, as stated, fails: two documents of different content are uploaded
    under the same name, which begins with a blank. The duplicate check
    compares the trimmed name of the stored row with the name as uploaded,
    finds no duplicate, and the store ends with two records of one display
    name, in the file as well as read back from it. *)
Lemma padded_uploads_share_a_name :
  stored (snd (serve_updates [padded_upload_1; padded_upload_2] empty_world))
  = Some (render
            [mkRecord (lit "3074185296307418") (lit "BQACAgQAAxkBAAIB")
                      (lit " report.pdf") (lit "Document");
             mkRecord (lit "5296307418529630") (lit "BQACAgQAAxkBAAIC")
                      (lit " report.pdf") (lit "Document")])
  /\ map display_name
       (archive (snd (serve_updates [padded_upload_1; padded_upload_2] empty_world)))
     = [lit "report.pdf"; lit "report.pdf"]
  /\ ~ NoDup (map display_name
                (archive (snd (serve_updates [padded_upload_1; padded_upload_2]
                                 empty_world)))).
Proof.
  assert (E : map display_name
                (archive (snd (serve_updates [padded_upload_1; padded_upload_2]
                                 empty_world)))
              = [lit "report.pdf"; lit "report.pdf"]) by (vm_compute; reflexivity).
  split; [vm_compute; reflexivity|].
  split; [exact E|]. rewrite E. intros N. inversion N as [|x l Hx _]; subst.
  apply Hx. left. reflexivity.
Qed.

(** A duplicate check whose read fails reports no duplicate: the same clean
    document uploaded twice is appended twice when the probe of the second
    check is rejected. *)
Lemma failed_check_lets_a_duplicate_in :
  map external_file_ref
    (archive (snd (serve_updates [clean_upload_1; clean_upload_1] flaky_world)))
  = [lit "BQACAgQAAxkBAAIB"; lit "BQACAgQAAxkBAAIB"].
Proof. vm_compute. reflexivity. Qed.

(** C3, amended. For every sequence of upload-handling operations starting
    from an empty store, whatever is uploaded and whatever the transport
    does, no operation modifies or deletes an existing record: every
    handler answers, and the records after more operations are the records
    before with records added behind them. When moreover every request is
    served and every uploaded file has a reference that is a plain field and
    a name without line break and without white space at either end, the
    record store holds at most one record with any given file reference and
    at most one with any given display name: the duplicate check runs before
    the append, and an upload that collides with a stored record on the name
    or on the reference leaves the store as it is. *)
Theorem uploads_keep_records_unique :
  (forall updates more w,
      stored w = None ->
      exists replies w1 replies' w2 added,
        serve_updates updates w = (Ok replies, w1)
        /\ serve_updates more w1 = (Ok replies', w2)
        /\ archive w2 = archive w1 ++ added)
  /\ (forall updates w,
        faults w = [] -> stored w = None -> (forall i, random w i < 10) ->
        Forall (fun u => clean_update u = true) updates ->
        exists replies w1,
          serve_updates updates w = (Ok replies, w1)
          /\ NoDup (map external_file_ref (archive w1))
          /\ NoDup (map display_name (archive w1))
          /\ stored w1 = file_of (archive w1)
          /\ (forall message fileId fileName fileType r,
                clean_message message = true ->
                picked message = Some (fileId, fileName, fileType) ->
                In r (archive w1) ->
                display_name r = fileName \/ external_file_ref r = fileId ->
                exists reply w3,
                  handleTelegramWebhook (Some message) w1 = (Ok reply, w3)
                  /\ stored w3 = stored w1)).
Proof.
  split.
  { intros updates more w S.
    destruct (serve_updates_answers updates w) as (replies & E1).
    destruct (serve_updates_answers more (snd (serve_updates updates w)))
      as (replies' & E2).
    pose proof (post_serve_updates updates w) as G1.
    pose proof (post_serve_updates more (snd (serve_updates updates w))) as G2.
    destruct (serve_updates updates w) as [res1 w1] eqn:Q1. simpl in *. subst res1.
    destruct (serve_updates more w1) as [res2 w2] eqn:Q2. simpl in *. subst res2.
    assert (S0 : settled (stored w)) by (rewrite S; exact I).
    destruct (G1 S0) as [S1 _]. destruct (G2 S1) as [_ G].
    destruct (grows_archive w1 w2 S1 G) as (added & Ea).
    exists replies, w1, replies', w2, added.
    split; [reflexivity|]. split; [exact Q2 | exact Ea]. }
  intros updates w F S R C.
  assert (I0 : store_invariant w []).
  { repeat split; try assumption; constructor. }
  destruct (serve_updates_served updates w [] I0 C) as (replies & w1 & rs & E1 & I1).
  simpl app in I1.
  destruct I1 as (F1 & S1 & W1 & [U1r U1n] & R1).
  exists replies, w1.
  rewrite (archive_file_of w1 rs S1 W1).
  split; [exact E1|]. split; [exact U1r|]. split; [exact U1n|].
  split; [exact S1|].
  intros message fileId fileName fileType r Cm P Hin Hc.
  destruct (handleTelegramWebhook_served (Some message) w1 rs F1 S1 W1 R1 Cm)
    as (reply & w3 & E3 & _ & S3 & _).
  exists reply, w3. split; [exact E3|].
  rewrite S3, S1. cbn [update_outcome].
  rewrite (upload_outcome_duplicate rs (random w1) message fileId fileName fileType r
             P Hin Hc).
  reflexivity.
Qed.

Lemma uploads_keep_records_unique_witness :
  (exists replies w1 replies' w2 added,
      serve_updates [padded_upload_1; clean_upload_3] sweep_world = (Ok replies, w1)
      /\ serve_updates [padded_upload_2] w1 = (Ok replies', w2)
      /\ archive w2 = archive w1 ++ added)
  /\ (exists replies w1,
        serve_updates [clean_upload_1; clean_upload_2; clean_upload_3] empty_world
        = (Ok replies, w1)
        /\ NoDup (map external_file_ref (archive w1))
        /\ NoDup (map display_name (archive w1))).
Proof.
  split.
  - apply (proj1 uploads_keep_records_unique
             [padded_upload_1; clean_upload_3] [padded_upload_2] sweep_world).
    reflexivity.
  - assert (R : forall i, random empty_world i < 10).
    { intros i. apply Nat.mod_upper_bound. discriminate. }
    assert (C : Forall (fun u => clean_update u = true)
                  [clean_upload_1; clean_upload_2; clean_upload_3]).
    { repeat constructor. }
    destruct (proj2 uploads_keep_records_unique
                [clean_upload_1; clean_upload_2; clean_upload_3] empty_world
                eq_refl eq_refl R C)
      as (replies & w1 & E1 & Nr & Nn & _).
    exists replies, w1. auto.
Defined.

(** C4. In a sweep every due job has its deletion attempted, in the order of
    the queue, whichever of the requests fail: the sweep never throws, each
    rejected request is logged by deleteMessage itself, and when a job is due
    the writeback of the pending jobs is sent after the attempts. *)
Theorem deletion_failures_are_isolated (now : Z) (w : World) :
  exists w',
    handleScheduledDeletions now w = (Ok tt, w')
    /\ attempted_deletions (trace w')
       = attempted_deletions (trace w) ++ map target (due now (loaded_jobs w))
    /\ logged_deletion_errors (trace w')
       = logged_deletion_errors (trace w)
         ++ failed_deletions (due now (loaded_jobs w)) (tl (faults w))
    /\ (due now (loaded_jobs w) <> [] ->
        queue_writes (trace w')
        = queue_writes (trace w)
          ++ [(pending now (loaded_jobs w), option_map (@rf_sha _) (del_file w))])
    /\ (forall c m w0, exists w1, deleteMessage c m w0 = (Ok tt, w1)).
Proof.
  destruct (sweep_run now w) as (w' & E & _ & A & L & _ & Hsome).
  exists w'. split; [exact E|]. split; [exact A|]. split; [exact L|].
  split; [intros H; apply Hsome; exact H|].
  intros c m w0. destruct (deleteMessage_run c m w0) as (w1 & E1 & _).
  exists w1. exact E1.
Qed.

Lemma deletion_failures_are_isolated_witness :
  exists w',
    handleScheduledDeletions 1500 sweep_world = (Ok tt, w')
    /\ attempted_deletions (trace w') = [(7, 41); (8, 43)]%Z
    /\ logged_deletion_errors (trace w') = [41%Z]
    /\ queue_writes (trace w') = [([job_b; job_d], Some 5)].
Proof.
  destruct (deletion_failures_are_isolated 1500 sweep_world)
    as (w' & E & A & L & Q & _).
  exists w'. split; [exact E|]. split; [exact A|]. split; [exact L|].
  apply Q. discriminate.
Defined.

(** C5, as stated, fails: a record whose display name begins with a blank
    is appended to the empty store and looked up by its logical id; the
    record found carries the name without the blank. *)
Lemma padded_name_is_not_read_back :
  exists found,
    fst ((append padded_record ;; findFileByIdStreaming (logical_id padded_record))
           empty_world)
    = Ok (Some found)
    /\ file_name found = lit "report.pdf"
    /\ file_name found <> display_name padded_record.
Proof.
  eexists. split; [vm_compute; reflexivity|].
  split; [reflexivity | discriminate].
Qed.

(** C5, amended. On a store written by appendToCSV from well-formed records
    (no field empty, none with white space at either end or a line break,
    and no comma or quote in the logical id, the file reference and the
    media kind), with every request served: after the append of a
    well-formed record whose logical id no earlier record has,
    findFileByIdStreaming of that id returns its file reference, its display
    name and its media kind as they were appended, and of an id that no
    record has it returns nothing. *)
Theorem findById_round_trip (rs : list ArchiveRecord) (r : ArchiveRecord) (w : World) :
  faults w = [] -> stored w = None ->
  Forall (fun r0 => well_formed r0 = true) rs -> well_formed r = true ->
  (forall r0, In r0 rs -> logical_id r0 <> logical_id r) ->
  exists w1,
    (append_all rs ;; append r) w = (Ok tt, w1)
    /\ (exists w2,
          findFileByIdStreaming (logical_id r) w1
          = (Ok (Some (mkData (external_file_ref r) (display_name r) (media_kind r))),
             w2))
    /\ (forall id,
          (forall r0, In r0 (rs ++ [r]) -> logical_id r0 <> id) ->
          exists w3, findFileByIdStreaming id w1 = (Ok None, w3)).
Proof.
  intros F S W Wr Hid.
  assert (Wall : Forall (fun r0 => well_formed r0 = true) (rs ++ [r])).
  { apply Forall_app. split; [exact W | constructor; [exact Wr | constructor]]. }
  destruct (append_all_served (rs ++ [r]) [] w F S (Forall_nil _) Wall)
    as (w1 & E1 & F1 & S1 & _).
  assert (Erun : (append_all rs ;; append r) w = (Ok tt, w1)).
  { rewrite <- append_all_snoc. exact E1. }
  exists w1. split; [exact Erun|].
  simpl app in S1.
  assert (Hread : forall id,
            exists w', findFileByIdStreaming id w1 = (Ok (lookup id (rs ++ [r])), w')).
  { intros id. destruct (findFileByIdStreaming_served id w1 F1) as (w' & E & _).
    exists w'. rewrite E. f_equal. f_equal.
    rewrite (read_result_render _ None w1 (rs ++ [r]) S1 (snoc_not_nil rs r)).
    apply find_in_render. exact Wall. }
  split.
  - destruct (Hread (logical_id r)) as (w2 & E2). exists w2. rewrite E2.
    rewrite (lookup_last (logical_id r) rs r Hid eq_refl). reflexivity.
  - intros id Hnone. destruct (Hread id) as (w3 & E3). exists w3. rewrite E3.
    rewrite (lookup_none id (rs ++ [r]) Hnone). reflexivity.
Qed.

Lemma findById_round_trip_witness :
  exists w1,
    (append_all [earlier_record] ;; append quoted_record) empty_world = (Ok tt, w1)
    /\ (exists w2,
          findFileByIdStreaming (lit "1234567890123456") w1
          = (Ok (Some (mkData (lit "BQACAgQAAxkBAAIB") quoted_name (lit "Document"))), w2))
    /\ (exists w3, findFileByIdStreaming (lit "9999999999999999") w1 = (Ok None, w3)).
Proof.
  assert (W : Forall (fun r0 => well_formed r0 = true) [earlier_record]).
  { constructor; [vm_compute; reflexivity | constructor]. }
  assert (Wq : well_formed quoted_record = true) by (vm_compute; reflexivity).
  assert (Hid : forall r0, In r0 [earlier_record] -> logical_id r0 <> logical_id quoted_record).
  { intros r0 [H | []]. subst r0. discriminate. }
  destruct (findById_round_trip [earlier_record] quoted_record empty_world
              eq_refl eq_refl W Wq Hid) as (w1 & E1 & H2 & H3).
  exists w1. split; [exact E1|]. split; [exact H2|].
  apply H3. intros r0 [H | [H | []]]; subst r0; discriminate.
Defined.

(** C6, as stated, fails: one record whose display name holds a line break
    is appended to the absent store, and getFileCount returns two. *)
Lemma count_of_two_line_record :
  fst ((append_all [two_line_record] ;; getFileCount) empty_world) = Ok 2%Z.
Proof. vm_compute. reflexivity. Qed.

(** C6, amended. After N appends, all served, of records none of whose
    fields holds a line break, starting from an absent store file,
    getFileCount returns N; the header line is not counted. getFileCount
    never returns a negative number. *)
Theorem count_after_appends :
  (forall content, (0 <= count_of content)%Z)
  /\ (forall rs w,
        faults w = [] -> stored w = None ->
        Forall (fun r => one_line r = true) rs ->
        exists w1 w2,
          append_all rs w = (Ok tt, w1)
          /\ getFileCount w1 = (Ok (Z.of_nat (List.length rs)), w2)).
Proof.
  split; [intros content; unfold count_of; lia|].
  intros rs w F S W.
  assert (NE : stored w <> Some []) by (rewrite S; discriminate).
  destruct (append_all_written rs w F NE) as (w1 & E1 & F1 & S1).
  destruct (getFileCount_served w1 F1) as (w2 & E2 & _).
  exists w1, w2. split; [exact E1|]. rewrite E2. f_equal. f_equal.
  unfold read_result. rewrite S1, S.
  destruct rs as [|r rs]; [reflexivity|].
  destruct (written_headed (r :: rs)) as (c & Ec & Hc & Hn); [discriminate|].
  rewrite Ec.
  assert (T : truthy c = true) by (destruct Hc as (x & Ex); subst c; reflexivity).
  rewrite T, (count_of_headed c Hc), (Hn W). lia.
Qed.

Lemma count_after_appends_witness :
  exists w1 w2,
    append_all [earlier_record; quoted_record; later_record] empty_world = (Ok tt, w1)
    /\ getFileCount w1 = (Ok 3%Z, w2).
Proof.
  apply (proj2 count_after_appends
           [earlier_record; quoted_record; later_record] empty_world eq_refl eq_refl).
  repeat constructor.
Defined.




(** C8. getFileContent picks its route from the size that the probe
    reports and from nothing else. With every request served it reads the
    blob endpoint, under the version of the probe, exactly when the reported
    size is above 1048576 bytes (1 MiB), and the path endpoint otherwise;
    whatever the transport does, a blob request is made only after a served
    probe that reports a size above the limit. On the same stored bytes the
    two routes return the same content, the stored bytes: both endpoints
    send the content in base64, in lines of 60 characters, and both routes
    decode it with atob, which undoes the coding. *)
Theorem getFileContent_route_by_reported_size :
  GITHUB_SIZE_LIMIT = (2 ^ 20)%Z
  /\ (forall w f,
        faults w = [] -> csv_file w = Some f ->
        exists w',
          getFileContent w = (Ok (Some (rf_content f)), w')
          /\ csv_file w' = csv_file w
          /\ requests (trace w')
             = requests (trace w)
               ++ (if (rf_size f >? GITHUB_SIZE_LIMIT)%Z
                   then [GetCsv; GetCsv; GetBlob (Some (rf_sha f))]
                   else [GetCsv; GetCsv]))
  /\ (forall w, exists new,
        trace (snd (getFileContent w)) = trace w ++ new
        /\ ((exists s, In (GetBlob s) (requests new)) ->
            exists f, csv_file w = Some f
                      /\ (rf_size f > GITHUB_SIZE_LIMIT)%Z
                      /\ fault_at 0 w = NoFault))
  /\ (forall w1 w2 f1 f2,
        faults w1 = [] -> faults w2 = [] ->
        csv_file w1 = Some f1 -> csv_file w2 = Some f2 ->
        rf_content f1 = rf_content f2 ->
        (rf_size f1 > GITHUB_SIZE_LIMIT)%Z -> (rf_size f2 <= GITHUB_SIZE_LIMIT)%Z ->
        fst (getFileContent w1) = fst (getFileContent w2))
  /\ (forall w f,
        faults w = [] -> csv_file w = Some f ->
        fst (fetch_blob (Some (rf_sha f)) w)
        = Ok (Http 200 (Some (mkBlob (lit "base64") (wire (rf_content f)))))
        /\ fst (downloadLargeFile w) = Ok (Some (rf_content f))
        /\ forgiving_base64_decode (wire (rf_content f)) = Some (rf_content f)).
Proof.
  split; [reflexivity|].
  split.
  { intros w f F C. rewrite (getFileContent_served w F), C.
    eexists. split; [reflexivity|]. split; [simpl; exact C|].
    simpl. rewrite requests_app, requests_fetches. reflexivity. }
  split.
  { intros w. destruct (blob_only_if_large w) as (new & T & _ & H).
    exists new. split; assumption. }
  split.
  { intros w1 w2 f1 f2 F1 F2 C1 C2 E _ _.
    rewrite (getFileContent_served w1 F1), (getFileContent_served w2 F2), C1, C2.
    simpl. rewrite E. reflexivity. }
  intros w f F C. split; [|split].
  - destruct w as [csv del sha fs rnd msg tr]. simpl in F, C. subst fs csv.
    unfold fetch_blob, transport, bind, next_fault, emit, ret, get_world. simpl.
    rewrite Nat.eqb_refl. reflexivity.
  - rewrite (downloadLargeFile_served w f F C). reflexivity.
  - apply decode_wire.
Qed.

Lemma getFileContent_route_by_reported_size_witness :
  requests (trace (snd (getFileContent large_world))) = [GetCsv; GetCsv; GetBlob (Some 9)]
  /\ requests (trace (snd (getFileContent small_world))) = [GetCsv; GetCsv]
  /\ fst (getFileContent large_world) = fst (getFileContent small_world).
Proof.
  destruct getFileContent_route_by_reported_size as (_ & Hroute & _ & Hsame & _).
  split; [|split].
  - destruct (Hroute large_world _ eq_refl eq_refl) as (w' & E & _ & R).
    rewrite E. exact R.
  - destruct (Hroute small_world _ eq_refl eq_refl) as (w' & E & _ & R).
    rewrite E. exact R.
  - apply (Hsame large_world small_world _ _ eq_refl eq_refl eq_refl eq_refl eq_refl);
      reflexivity || discriminate.
Defined.

(** C9. parseCSVLine is a total function: on every line, an unterminated
    quote included, it returns at least one field. A quote that is opened
    and never closed takes the rest of the line, commas included, into the
    current field. Blank lines are skipped by the counting loop of
    getFileCount, which counts exactly the lines that are not blank, and by
    the scans of findFileByIdStreaming and checkForDuplicate, which give the
    same result with and without them. *)
Theorem parseCSVLine_total_and_blank_lines_skipped :
  (forall line, exists fields,
      parseCSVLine line = fields /\ 1 <= List.length fields)
  /\ (forall rest current result,
        has_char dquote rest = false ->
        parseCSVLine_loop (dquote :: rest) current false result
        = result ++ [trim (current ++ rest)])
  /\ (forall f rest,
        has_char comma f = false -> has_char dquote f = false ->
        has_char dquote rest = false ->
        parseCSVLine (f ++ dquote :: rest) = [trim (f ++ rest)])
  /\ (forall content,
        getFileCount_loop content [] 0
        = Z.of_nat (List.length (nonblank_lines (split_lines content))))
  /\ (forall id lines h,
        findFileByIdStreaming_loop id lines h
        = findFileByIdStreaming_loop id (nonblank_lines lines) h)
  /\ (forall name ref lines,
        checkForDuplicate_loop name ref lines
        = checkForDuplicate_loop name ref (nonblank_lines lines)).
Proof.
  split.
  { intros line. eexists. split; [reflexivity|].
    pose proof (loop_length line [] false []) as H. simpl in H.
    unfold parseCSVLine. lia. }
  split.
  { intros rest current result Hq.
    rewrite loop_open_quote. apply loop_unterminated. exact Hq. }
  split.
  { intros f rest Hc Hq Hr. unfold parseCSVLine.
    rewrite (loop_plain f Hc Hq). rewrite loop_open_quote.
    rewrite (loop_unterminated rest Hr). reflexivity. }
  split; [exact getFileCount_loop_nonblank|].
  split; [exact findFileByIdStreaming_loop_skips_blank|].
  exact checkForDuplicate_loop_skips_blank.
Qed.

Lemma parseCSVLine_total_and_blank_lines_skipped_witness :
  parseCSVLine (lit "7,x" ++ dquote :: lit "b,c ") = [lit "7"; lit "xb,c"]
  /\ parseCSVLine (lit "x" ++ dquote :: lit "b,c ") = [lit "xb,c"].
Proof.
  destruct parseCSVLine_total_and_blank_lines_skipped as (_ & H2 & H3 & _).
  split.
  - exact (H2 (lit "b,c ") (lit "x") [lit "7"] eq_refl).
  - exact (H3 (lit "x") (lit "b,c ") eq_refl eq_refl eq_refl).
Defined.

(** C10. Whatever digits the random source picks, generateNumericalFileId
    with its default length returns sixteen characters, each a decimal
    digit. *)
Theorem generateNumericalFileId_sixteen_digits (draw : nat -> nat) :
  (forall i, draw i < List.length digits) ->
  List.length (generateNumericalFileId draw) = 16
  /\ forallb is_digit (generateNumericalFileId draw) = true.
Proof.
  intros Hdraw.
  unfold generateNumericalFileId, generateNumericalFileId_len.
  apply (generateNumericalFileId_loop_digits 16 draw []); [exact Hdraw | reflexivity].
Qed.

Lemma generateNumericalFileId_sixteen_digits_witness :
  generateNumericalFileId (fun i => (7 * i + 3) mod 10) = lit "3074185296307418"
  /\ List.length (generateNumericalFileId (fun i => (7 * i + 3) mod 10)) = 16
  /\ forallb is_digit (generateNumericalFileId (fun i => (7 * i + 3) mod 10)) = true.
Proof.
  split; [reflexivity|].
  apply (generateNumericalFileId_sixteen_digits (fun i => (7 * i + 3) mod 10)).
  intros i. apply Nat.mod_upper_bound. discriminate.
Defined.

(* ===================================================================== *)
(** * Further lemmas on the parser, the readers and the sweep *)
(* ===================================================================== *)

Lemma starts_clean_trimStart (s : str) : starts_clean (trimStart s) = true.
Proof.
  induction s as [|c s IH]; [reflexivity|].
  simpl. destruct (is_ws c) eqn:C; [exact IH|]. simpl. rewrite C. reflexivity.
Qed.

Lemma trim_is_unpadded (s : str) : unpadded (trim s) = true.
Proof.
  unfold unpadded, trim. apply andb_true_intro. split.
  - pose proof (starts_clean_trimStart s) as H.
    destruct (trimStart s) as [|c x]; [reflexivity|].
    destruct (trimEnd_head c x) as [E | [y E]]; rewrite E; [reflexivity | exact H].
  - unfold trimEnd. rewrite rev_involutive. apply starts_clean_trimStart.
Qed.

Lemma loop_fields (P : str -> Prop) :
  (forall x, P (trim x)) ->
  forall n line, List.length line <= n ->
  forall current inQuotes result,
    Forall P result -> Forall P (parseCSVLine_loop line current inQuotes result).
Proof.
  intros HP. induction n as [|n IH]; intros line Hn current inQuotes result HR.
  - destruct line; [|simpl in Hn; lia]. simpl.
    apply Forall_app. split; [exact HR | constructor; [apply HP | constructor]].
  - destruct line as [|c line].
    + simpl. apply Forall_app. split; [exact HR | constructor; [apply HP | constructor]].
    + simpl in Hn. simpl. destruct (Ascii.eqb c dquote).
      * destruct line as [|next rest2].
        -- simpl. apply Forall_app. split; [exact HR | constructor; [apply HP | constructor]].
        -- simpl in Hn.
           destruct (inQuotes && Ascii.eqb next dquote); apply IH; simpl; try lia; exact HR.
      * destruct (Ascii.eqb c comma && negb inQuotes).
        -- apply IH; [lia|]. apply Forall_app.
           split; [exact HR | constructor; [apply HP | constructor]].
        -- apply IH; [lia | exact HR].
Qed.

Lemma loop_count (line : str) :
  has_char dquote line = false ->
  forall current result,
    List.length (parseCSVLine_loop line current false result)
    = List.length result + S (count_occ ascii_dec line comma).
Proof.
  induction line as [|c line IH]; intros Hq current result.
  - simpl. rewrite length_app. simpl. lia.
  - rewrite has_char_cons in Hq. apply orb_false_elim in Hq. destruct Hq as [Hq1 Hq2].
    rewrite Ascii.eqb_sym in Hq1. simpl. rewrite Hq1.
    destruct (Ascii.eqb c comma) eqn:Ec; simpl.
    + apply Ascii.eqb_eq in Ec. subst c.
      destruct (ascii_dec comma comma) as [_|N]; [|congruence].
      rewrite (IH Hq2), length_app. simpl. lia.
    + destruct (ascii_dec c comma) as [E|_].
      { subst c. rewrite Ascii.eqb_refl in Ec. discriminate. }
      apply (IH Hq2).
Qed.

#[local] Instance reads_only_frame : Frame reads_only.
Proof.
  split.
  - intros w. split; [reflexivity|]. split; [reflexivity|].
    exists []. rewrite app_nil_r. split; reflexivity.
  - intros a b c (C1 & D1 & n1 & T1 & R1) (C2 & D2 & n2 & T2 & R2).
    split; [congruence|]. split; [congruence|].
    exists (n1 ++ n2). split; [rewrite T2, T1, app_assoc; reflexivity|].
    rewrite requests_app, forallb_app, R1, R2. reflexivity.
Qed.

Lemma reads_emit_error c : post reads_only (emit (Error c)).
Proof.
  intros w. split; [reflexivity|]. split; [reflexivity|].
  exists [Error c]. split; reflexivity.
Qed.

Lemma reads_emit_fetch r : is_read r = true -> post reads_only (emit (Fetch r)).
Proof.
  intros H w. split; [reflexivity|]. split; [reflexivity|].
  exists [Fetch r]. split; [reflexivity|]. simpl. rewrite H. reflexivity.
Qed.

Lemma reads_next_fault : post reads_only next_fault.
Proof.
  intros w. unfold next_fault. destruct (faults w); apply frame_refl ||
  (split; [reflexivity|]; split; [reflexivity|]; exists []; simpl;
   rewrite app_nil_r; split; reflexivity).
Qed.

Lemma reads_get_world : post reads_only get_world.
Proof. intros w. apply frame_refl. Qed.

#[local] Hint Resolve reads_emit_error reads_next_fault reads_get_world : post.

Lemma reads_transport r : is_read r = true -> post reads_only (transport r).
Proof.
  intros H. unfold transport.
  apply post_bind; [typeclasses eauto | apply reads_next_fault | intros f].
  apply post_bind; [typeclasses eauto | apply reads_emit_fetch; exact H | intros _].
  post_auto.
Qed.

Lemma reads_json {A} (r : Response A) : post reads_only (json r).
Proof. unfold json. post_auto. Qed.

#[local] Hint Resolve reads_json : post.

Lemma reads_console_error c : post reads_only (console_error c).
Proof. unfold console_error. post_auto. Qed.

#[local] Hint Resolve reads_console_error : post.

Lemma reads_fetch_csv : post reads_only fetch_csv.
Proof.
  unfold fetch_csv.
  apply post_bind; [typeclasses eauto | apply reads_transport; reflexivity | intros f].
  post_auto.
Qed.

Lemma reads_fetch_blob s : post reads_only (fetch_blob s).
Proof.
  unfold fetch_blob.
  apply post_bind; [typeclasses eauto | apply reads_transport; reflexivity | intros f].
  post_auto.
Qed.

Lemma reads_fetch_deletions : post reads_only fetch_deletions.
Proof.
  unfold fetch_deletions.
  apply post_bind; [typeclasses eauto | apply reads_transport; reflexivity | intros f].
  post_auto.
Qed.

#[local] Hint Resolve reads_fetch_csv reads_fetch_blob reads_fetch_deletions : post.

Lemma reads_getFileInfo : post reads_only getFileInfo.
Proof. unfold getFileInfo. post_auto. Qed.

#[local] Hint Resolve reads_getFileInfo : post.

Lemma reads_downloadLargeFile : post reads_only downloadLargeFile.
Proof. unfold downloadLargeFile. post_auto. Qed.

#[local] Hint Resolve reads_downloadLargeFile : post.

Lemma reads_getFileContent : post reads_only getFileContent.
Proof. unfold getFileContent. post_auto. Qed.

#[local] Hint Resolve reads_getFileContent : post.

Lemma reads_findFileByIdStreaming id : post reads_only (findFileByIdStreaming id).
Proof. unfold findFileByIdStreaming. post_auto. Qed.

Lemma reads_getFileCount : post reads_only getFileCount.
Proof. unfold getFileCount. post_auto. Qed.

Lemma reads_checkForDuplicate n f : post reads_only (checkForDuplicate n f).
Proof. unfold checkForDuplicate. post_auto. Qed.

Lemma reads_getDeletions : post reads_only getDeletions.
Proof. unfold getDeletions. post_auto. Qed.

#[local] Hint Resolve reads_findFileByIdStreaming reads_getFileCount
  reads_checkForDuplicate reads_getDeletions : post.

(** A [try]/[catch] whose handler returns a value never throws. *)
Lemma try_catch_returns {A} (body : M A) (h : Err -> M A) w :
  (forall e w0, exists a w1, h e w0 = (Ok a, w1)) ->
  exists a w', try_catch body h w = (Ok a, w').
Proof.
  intros Hh. unfold try_catch. destruct (body w) as [[a|e] w1].
  - exists a, w1. reflexivity.
  - apply Hh.
Qed.

Lemma reader_run {A} (m : M A) w :
  (exists a w', m w = (Ok a, w')) -> post reads_only m ->
  exists a w', m w = (Ok a, w') /\ reads_only w w'.
Proof.
  intros (a & w' & E) P. exists a, w'. split; [exact E|].
  specialize (P w). rewrite E in P. exact P.
Qed.

Ltac reader_total :=
  apply reader_run;
  [ apply try_catch_returns; intros; do 2 eexists; reflexivity
  | auto with post ].

Lemma getFileContent_failed w k :
  k < List.length (content_requests (csv_file w)) ->
  fault_at k w <> NoFault ->
  fst (getFileContent w) = Ok None.
Proof.
  destruct w as [csv del sha fs rnd msg tr].
  unfold getFileContent, downloadLargeFile, getFileInfo, try_catch, fetch_csv,
    fetch_blob, transport, bind, next_fault, emit, console_error, throw, ret,
    get_world, json, atob, fault_at, content_requests.
  destruct csv as [[c s z]|]; simpl;
  try (destruct (z >? GITHUB_SIZE_LIMIT)%Z eqn:Z; simpl);
  intros Hk Hf;
  destruct fs as [|[] [|[] [|[] fs]]]; simpl;
  rewrite ?Z; simpl; rewrite ?Nat.eqb_refl; simpl; try reflexivity;
  exfalso;
  (destruct k as [|[|[|k]]]; simpl in Hf; try congruence; simpl in Hk; lia).
Qed.

Lemma reader_of_no_content {A} (k : option str -> M A) (h : Err -> M A) w a :
  fst (getFileContent w) = Ok None ->
  (forall w0, fst (k None w0) = Ok a) ->
  fst (try_catch (content <- getFileContent ;; k content) h w) = Ok a.
Proof.
  intros E Hk. unfold try_catch, bind.
  destruct (getFileContent w) as [r w1]. simpl in E. subst r.
  specialize (Hk w1). destruct (k None w1) as [r2 w2]. simpl in Hk. subst r2.
  reflexivity.
Qed.

(** A write of the archive, whatever the transport does: when updateFile
    returns, the file is the content sent and the version named was the
    current one; when it throws, the file is as before. *)
Lemma updateFile_result content sha w :
  del_file (snd (updateFile content sha w)) = del_file w
  /\ match fst (updateFile content sha w) with
     | Ok _ => version_matches (csv_file w) sha = true
               /\ stored (snd (updateFile content sha w)) = Some content
     | Throw _ => csv_file (snd (updateFile content sha w)) = csv_file w
     end.
Proof.
  destruct w as [csv del s fs rnd msg tr].
  unfold updateFile, fetch_put_csv, transport, bind, next_fault, emit, throw, ret,
    json, stored.
  rewrite decode_btoa.
  destruct fs as [|[] fs]; simpl; auto;
    destruct (version_matches csv sha) eqn:V; simpl; auto; destruct sha; simpl; auto.
Qed.

Lemma reads_csv w w' : reads_only w w' -> csv_file w' = csv_file w.
Proof. intros (H & _). exact H. Qed.

Lemma reads_del w w' : reads_only w w' -> del_file w' = del_file w.
Proof. intros (_ & H & _). exact H. Qed.

Lemma appendToCSV_result (numericalFileId fileId fileName fileType : str)
  (w : World) :
  del_file (snd (appendToCSV numericalFileId fileId fileName fileType w)) = del_file w
  /\ match fst (appendToCSV numericalFileId fileId fileName fileType w) with
     | Ok _ =>
         stored (snd (appendToCSV numericalFileId fileId fileName fileType w))
         = Some (appended (stored w) numericalFileId fileId fileName fileType)
     | Throw _ =>
         csv_file (snd (appendToCSV numericalFileId fileId fileName fileType w))
         = csv_file w
     end.
Proof.
  unfold appendToCSV, try_catch, bind.
  destruct (getFileInfo_any w) as (fi & w1 & E1 & C1 & _ & Hfi).
  pose proof (reads_getFileInfo w) as R1. rewrite E1 in *. simpl in R1.
  destruct (fi_exists fi) eqn:X; cbn [negb].
  - destruct (getFileContent_any w1) as (c & w2 & E2 & C2 & _ & Hc).
    pose proof (reads_getFileContent w1) as R2. rewrite E2 in *. simpl in R2.
    destruct (no_content c) eqn:N.
    + unfold throw, console_error, emit. simpl.
      split; [rewrite (reads_del _ _ R2), (reads_del _ _ R1); reflexivity|].
      congruence.
    + destruct c as [s|]; [|discriminate]. cbn [text_of].
      assert (Ss : stored w = Some s).
      { rewrite <- (Hc s eq_refl). unfold stored. rewrite C1. reflexivity. }
      destruct (updateFile_result
                  (trimEnd s ++ [newline] ++ row numericalFileId fileId fileName fileType
                     ++ [newline]) (fi_sha fi) w2) as [D H].
      destruct (updateFile _ (fi_sha fi) w2) as [[[]|e] w3]; simpl in *.
      * split; [rewrite D, (reads_del _ _ R2), (reads_del _ _ R1); reflexivity|].
        rewrite Ss. cbn [appended]. apply H.
      * split; [rewrite D, (reads_del _ _ R2), (reads_del _ _ R1); reflexivity|].
        congruence.
  - destruct (updateFile_result
                (header ++ [newline] ++ row numericalFileId fileId fileName fileType
                   ++ [newline]) None w1) as [D H].
    change (updateFile ?c None) with (createFile c) in *.
    destruct (createFile _ w1) as [[[]|e] w3]; simpl in *.
    + split; [rewrite D, (reads_del _ _ R1); reflexivity|].
      destruct H as [V H].
      assert (Sn : stored w = None).
      { unfold stored. rewrite <- C1. destruct (csv_file w1); [discriminate | reflexivity]. }
      rewrite Sn. cbn [appended]. exact H.
    + split; [rewrite D, (reads_del _ _ R1); reflexivity|]. congruence.
Qed.

(** The writeback of a sweep that is rejected or refused: the queue file
    stays and the failure is logged. *)
Lemma writeback_failed (p : list DeletionJob) (sha : option Sha) w :
  fault_at 0 w <> NoFault ->
  exists w',
    try_catch (updateDeletions p sha) (fun _ => console_error ErrUpdatingDeletions) w
    = (Ok tt, w')
    /\ del_file w' = del_file w
    /\ trace w' = trace w ++ [Fetch (PutDeletions p sha); Error ErrUpdatingDeletions].
Proof.
  unfold updateDeletions, try_catch, fetch_put_deletions, transport, bind, next_fault,
    emit, console_error, throw, ret, get_world, json, fault_at.
  destruct w as [csv del s fs rnd msg tr]. simpl.
  destruct fs as [|[] fs]; simpl; intros H; try congruence;
    eexists; (split; [reflexivity|]); simpl; rewrite <- ?app_assoc; split; reflexivity.
Qed.

Lemma console_errors_app a b : console_errors (a ++ b) = console_errors a ++ console_errors b.
Proof. unfold console_errors. apply flat_map_app. Qed.

(** A sweep that finds due jobs, step by step: the load, the deletions, the
    writeback. *)
Lemma sweep_walk now w :
  fault_at 0 w = NoFault -> due now (queue w) <> [] ->
  exists w2 w3,
    handleScheduledDeletions now w = (Ok tt, w3)
    /\ del_file w2 = del_file w
    /\ faults w2 = skipn (1 + List.length (due now (queue w))) (faults w)
    /\ attempted_deletions (trace w2)
       = attempted_deletions (trace w) ++ map target (due now (queue w))
    /\ try_catch (updateDeletions (pending now (queue w))
                    (option_map (@rf_sha _) (del_file w)))
         (fun _ => console_error ErrUpdatingDeletions) w2 = (Ok tt, w3).
Proof.
  intros Hload Hdue.
  destruct (getDeletions_run w) as (w1 & E1 & C1 & D1 & S1 & F1 & A1 & Q1 & L1).
  assert (Hj : loaded_jobs w = queue w) by (unfold loaded_jobs; rewrite Hload; reflexivity).
  rewrite Hload, Hj in E1.
  unfold handleScheduledDeletions, bind. rewrite E1.
  destruct (List.length (queue w) =? 0) eqn:Z0.
  { apply length_zero_nil in Z0. rewrite Z0 in Hdue. exfalso. apply Hdue. reflexivity. }
  rewrite partition_due_filter. cbn [app]. cbv iota.
  destruct (List.length (due now (queue w)) =? 0) eqn:Z1.
  { apply length_zero_nil in Z1. contradiction. }
  destruct (delete_all_run (due now (queue w)) w1)
    as (w2 & E2 & C2 & D2 & S2 & F2 & A2 & Q2 & L2).
  cbv beta. rewrite E2.
  destruct (writeback_run (pending now (queue w))
              (option_map (@rf_sha _) (del_file w)) w2)
    as (w3 & E3 & _).
  exists w2, w3. rewrite E3.
  split; [reflexivity|]. split; [congruence|].
  split; [rewrite F2, F1; apply skipn_tl|].
  split; [rewrite A2, A1; reflexivity|]. reflexivity.
Qed.

Lemma tl_skipn {A} n (l : list A) : tl (skipn n l) = skipn (S n) l.
Proof.
  revert l. induction n as [|n IH]; intros l.
  - destruct l; reflexivity.
  - destruct l as [|a l]; [reflexivity|]. simpl. rewrite IH. reflexivity.
Qed.

Lemma fault_at_skipn n k w w' :
  faults w' = skipn n (faults w) -> fault_at k w' = fault_at (n + k) w.
Proof. unfold fault_at. intros E. rewrite E. apply nth_skipn. Qed.

(** The queue after a sweep, whatever the transport does. *)
Lemma sweep_queue now w :
  del_file (snd (handleScheduledDeletions now w)) = del_file w
  \/ queue (snd (handleScheduledDeletions now w)) = pending now (queue w).
Proof.
  destruct (sweep_run now w) as (w' & E & _ & _ & _ & Hnone & Hsome).
  rewrite E. simpl.
  destruct (due now (loaded_jobs w)) as [|j js] eqn:D.
  { left. apply Hnone. reflexivity. }
  assert (Hload : fault_at 0 w = NoFault).
  { unfold loaded_jobs in D. destruct (fault_at 0 w); [reflexivity | discriminate ..]. }
  assert (Hj : loaded_jobs w = queue w) by (unfold loaded_jobs; rewrite Hload; reflexivity).
  rewrite Hj in *.
  assert (Hne : due now (queue w) <> []) by (rewrite D; discriminate).
  destruct (sweep_walk now w Hload Hne) as (w2 & w3 & E3 & D2 & F2 & _ & Ew).
  rewrite E in E3. inversion E3; subst w3.
  destruct (fault_at 0 w2) eqn:Fw.
  - right. destruct (writeback_run (pending now (queue w))
                       (option_map (@rf_sha _) (del_file w)) w2)
      as (w4 & E4 & _ & _ & _ & _ & _ & W4).
    rewrite Ew in E4. inversion E4; subst w4. apply W4; [exact Fw|].
    rewrite D2. destruct (del_file w) as [f|]; simpl; [apply Nat.eqb_refl | reflexivity].
  - left. destruct (writeback_failed (pending now (queue w))
                      (option_map (@rf_sha _) (del_file w)) w2) as (w4 & E4 & D4 & _).
    { rewrite Fw. discriminate. }
    rewrite Ew in E4. inversion E4; subst w4. congruence.
  - left. destruct (writeback_failed (pending now (queue w))
                      (option_map (@rf_sha _) (del_file w)) w2) as (w4 & E4 & D4 & _).
    { rewrite Fw. discriminate. }
    rewrite Ew in E4. inversion E4; subst w4. congruence.
Qed.

Lemma in_pending now jobs j :
  In j (pending now jobs) <-> In j jobs /\ (now < deleteAt j)%Z.
Proof.
  unfold pending. rewrite filter_In. rewrite negb_true_iff, Z.leb_gt. tauto.
Qed.

Lemma failed_deletions_none (items : list DeletionJob) :
  forall fs,
    (forall k, k < List.length items -> nth k fs NoFault <> NetworkDown) ->
    failed_deletions items fs = [].
Proof.
  induction items as [|j items IH]; intros fs H; [reflexivity|].
  simpl. rewrite (IH (tl fs)).
  - pose proof (H 0 (Nat.lt_0_succ _)) as H0.
    destruct fs as [|[] fs]; simpl in *; try reflexivity. congruence.
  - intros k Hk. specialize (H (S k)). simpl in H.
    destruct fs as [|f fs]; simpl in *; [destruct k; discriminate|].
    apply H. lia.
Qed.

Lemma reads_no_attempts (new : list Event) :
  forallb is_read (requests new) = true -> attempted_deletions new = [].
Proof.
  induction new as [|e new IH]; [reflexivity|].
  destruct e as [r|c|c m]; simpl; try exact IH.
  destruct r; simpl; try discriminate; exact IH.
Qed.

Lemma reads_only_attempts w w' :
  reads_only w w' -> attempted_deletions (trace w') = attempted_deletions (trace w).
Proof.
  intros (_ & _ & new & T & R). rewrite T. unfold attempted_deletions.
  rewrite flat_map_app. fold (attempted_deletions new).
  rewrite (reads_no_attempts new R). apply app_nil_r.
Qed.

Lemma fresh_message_unchanged w : unchanged w (snd (fresh_message w)).
Proof. unfold unchanged. simpl. auto. Qed.

Lemma updateDeletions_served p w :
  faults w = [] ->
  exists w',
    updateDeletions p (option_map (@rf_sha _) (del_file w)) w = (Ok tt, w')
    /\ faults w' = [] /\ csv_file w' = csv_file w /\ queue w' = p
    /\ attempted_deletions (trace w') = attempted_deletions (trace w).
Proof.
  intros F. destruct w as [csv del sha fs rnd msg tr]. simpl in F. subst fs.
  unfold updateDeletions, fetch_put_deletions, transport, bind, next_fault, emit,
    ret, json, queue, attempted_deletions.
  destruct del as [[c s z]|]; simpl; rewrite ?Nat.eqb_refl; simpl;
    eexists; (split; [reflexivity|]); simpl;
    rewrite ?flat_map_app; simpl; rewrite ?app_nil_r; auto.
Qed.

(* ===================================================================== *)
(** * What a run leaves alone: the files and the queue *)
(* ===================================================================== *)

#[local] Instance keeps_files_frame : Frame keeps_files.
Proof. split; unfold keeps_files; intuition congruence. Qed.

#[local] Instance keeps_del_frame : Frame keeps_del.
Proof. split; unfold keeps_del; congruence. Qed.

#[local] Instance queue_kept_frame : Frame queue_kept.
Proof.
  split; unfold queue_kept.
  - intros w. apply incl_refl.
  - intros a b c. apply incl_tran.
Qed.

(** A run that only reads keeps both files. *)
Lemma reads_keeps_files {A} (m : M A) : post reads_only m -> post keeps_files m.
Proof. intros H w. destruct (H w) as (C & D & _). split; assumption. Qed.

Lemma files_del {A} (m : M A) : post keeps_files m -> post keeps_del m.
Proof. intros H w. apply (H w). Qed.

Lemma keeps_next_fault : post keeps_files next_fault.
Proof. apply reads_keeps_files. apply reads_next_fault. Qed.
Lemma keeps_fresh_message : post keeps_files fresh_message.
Proof. intros w. split; reflexivity. Qed.
Lemma keeps_emit e : post keeps_files (emit e).
Proof. intros w. split; reflexivity. Qed.
Lemma keeps_fresh_id : post keeps_files fresh_id.
Proof. intros w. split; reflexivity. Qed.
Lemma keeps_console_error c : post keeps_files (console_error c).
Proof. apply reads_keeps_files. apply reads_console_error. Qed.
Lemma keeps_getFileInfo : post keeps_files getFileInfo.
Proof. apply reads_keeps_files. apply reads_getFileInfo. Qed.
Lemma keeps_getFileCount : post keeps_files getFileCount.
Proof. apply reads_keeps_files. apply reads_getFileCount. Qed.
Lemma keeps_findFileByIdStreaming id : post keeps_files (findFileByIdStreaming id).
Proof. apply reads_keeps_files. apply reads_findFileByIdStreaming. Qed.
Lemma keeps_checkForDuplicate n f : post keeps_files (checkForDuplicate n f).
Proof. apply reads_keeps_files. apply reads_checkForDuplicate. Qed.
Lemma keeps_getDeletions : post keeps_files getDeletions.
Proof. apply reads_keeps_files. apply reads_getDeletions. Qed.
Lemma keeps_fetch_telegram r : post keeps_files (fetch_telegram r).
Proof.
  intros w. destruct w as [csv del s fs rnd msg tr].
  unfold fetch_telegram, transport, bind, next_fault, emit, throw, ret.
  destruct fs as [|[] fs]; split; reflexivity.
Qed.
Lemma keeps_sendMessage c t : post keeps_files (sendMessage c t).
Proof. apply keeps_fetch_telegram. Qed.
Lemma keeps_deleteMessage c m : post keeps_files (deleteMessage c m).
Proof.
  intros w. destruct (deleteMessage_run c m w) as (w' & E & C & D & _).
  rewrite E. split; assumption.
Qed.
#[local] Hint Resolve keeps_next_fault keeps_fresh_message keeps_emit keeps_fresh_id
  keeps_console_error keeps_getFileInfo keeps_getFileCount keeps_findFileByIdStreaming
  keeps_checkForDuplicate keeps_getDeletions keeps_sendMessage keeps_deleteMessage : post.

(** A write of the queue, whatever the transport does: the file stays, or
    the version named was the current one and the queue is the list sent. *)
Lemma updateDeletions_result p sha w :
  csv_file (snd (updateDeletions p sha w)) = csv_file w
  /\ (del_file (snd (updateDeletions p sha w)) = del_file w
      \/ (version_matches (del_file w) sha = true
          /\ queue (snd (updateDeletions p sha w)) = p)).
Proof.
  destruct w as [csv del s fs rnd msg tr].
  unfold updateDeletions, fetch_put_deletions, transport, bind, next_fault, emit,
    throw, ret, json, queue.
  destruct fs as [|[] fs]; simpl; auto;
    destruct (version_matches del sha) eqn:V; simpl; auto; destruct sha; simpl; auto.
Qed.

(** The load of the queue and the write of the queue with one more job. *)
Lemma schedule_step (j : DeletionJob) w :
  schedules j w
    (snd ((loaded <- getDeletions ;;
           let (deletions, sha) := loaded in
           updateDeletions (deletions ++ [j]) sha) w)).
Proof.
  destruct (getDeletions_run w) as (w1 & E1 & C1 & D1 & _).
  unfold bind. rewrite E1.
  destruct (updateDeletions_result
              (loaded_jobs w ++ [j])
              (match fault_at 0 w with
               | NoFault => option_map (@rf_sha _) (del_file w)
               | _ => None
               end) w1) as (C2 & H2).
  split; [congruence|].
  destruct H2 as [H2 | [V H2]]; [left; congruence | right].
  rewrite H2. f_equal. unfold loaded_jobs.
  destruct (fault_at 0 w); try reflexivity;
    rewrite D1 in V; unfold queue; destruct (del_file w); simpl in V;
    try discriminate; reflexivity.
Qed.

Lemma keeps_schedules j w w' : keeps_files w w' -> schedules j w w'.
Proof. intros (C & D). split; [exact C | left; exact D]. Qed.

Lemma schedules_after j w0 w1 w2 :
  keeps_files w0 w1 -> schedules j w1 w2 -> schedules j w0 w2.
Proof.
  intros (C & D) (C2 & H). split; [congruence|].
  destruct H as [H | H]; [left; congruence | right].
  rewrite H. unfold queue. rewrite D. reflexivity.
Qed.

Lemma schedules_before j w0 w1 w2 :
  schedules j w0 w1 -> keeps_files w1 w2 -> schedules j w0 w2.
Proof.
  intros (C & H) (C2 & D). split; [congruence|].
  destruct H as [H | H]; [left; congruence | right].
  rewrite <- H. unfold queue. rewrite D. reflexivity.
Qed.

Lemma del_emit e : post keeps_del (emit e).
Proof. apply files_del, keeps_emit. Qed.
Lemma del_fresh_id : post keeps_del fresh_id.
Proof. apply files_del, keeps_fresh_id. Qed.
Lemma del_console_error c : post keeps_del (console_error c).
Proof. apply files_del, keeps_console_error. Qed.
Lemma del_sendMessage c t : post keeps_del (sendMessage c t).
Proof. apply files_del, keeps_sendMessage. Qed.
Lemma del_deleteMessage c m : post keeps_del (deleteMessage c m).
Proof. apply files_del, keeps_deleteMessage. Qed.
Lemma del_checkForDuplicate n f : post keeps_del (checkForDuplicate n f).
Proof. apply files_del, keeps_checkForDuplicate. Qed.
Lemma del_getFileCount : post keeps_del getFileCount.
Proof. apply files_del, keeps_getFileCount. Qed.
Lemma del_appendToCSV i f n t : post keeps_del (appendToCSV i f n t).
Proof. intros w. apply (appendToCSV_result i f n t w). Qed.
#[local] Hint Resolve del_emit del_fresh_id del_console_error del_sendMessage
  del_deleteMessage del_checkForDuplicate del_getFileCount del_appendToCSV : post.

(** An upload never touches the queue. *)
Lemma del_handleFileUpload message : post keeps_del (handleFileUpload message).
Proof.
  unfold handleFileUpload, pick_file.
  apply post_bind; [typeclasses eauto | post_auto | intros [[fileId fileName] fileType]].
  post_auto.
Qed.

Lemma del_queue_kept w w' : keeps_del w w' -> queue_kept w w'.
Proof. unfold keeps_del, queue_kept, queue. intros E. rewrite E. apply incl_refl. Qed.

Lemma schedules_queue_kept j w w' : schedules j w w' -> queue_kept w w'.
Proof.
  intros (_ & [H | H]); [apply del_queue_kept; exact H|].
  unfold queue_kept. rewrite H. apply incl_appl. apply incl_refl.
Qed.

Lemma kept_handleFileUpload message : post queue_kept (handleFileUpload message).
Proof. intros w. apply del_queue_kept. apply del_handleFileUpload. Qed.

Lemma kept_console_error c : post queue_kept (console_error c).
Proof. intros w. apply del_queue_kept. apply del_console_error. Qed.
#[local] Hint Resolve kept_handleFileUpload kept_console_error : post.

(* ===================================================================== *)
(** * Uploads that add a record *)
(* ===================================================================== *)




(* ===================================================================== *)
(** * What an upload tells the chat *)
(* ===================================================================== *)

Lemma render_headed rs : headed (render rs).
Proof. eexists. unfold render. reflexivity. Qed.

(** getFileCount on the file of well-formed records counts the records. *)
Lemma count_of_render rs :
  Forall (fun r => well_formed r = true) rs ->
  count_of (render rs) = Z.of_nat (List.length rs).
Proof.
  intros W. rewrite (count_of_headed _ (render_headed rs)).
  unfold count_nonblank. rewrite (split_lines_render rs W).
  cbn [nonblank_lines filter]. unfold blank at 1. rewrite header_not_blank.
  cbn [negb]. fold (nonblank_lines (map row_of rs ++ [[]])).
  rewrite (nonblank_rows rs W). cbn [List.length]. rewrite length_map. lia.
Qed.



(* ===================================================================== *)
(** * parseMarkdownContent *)
(* ===================================================================== *)

Lemma span_all (p : ascii -> bool) (a b : str) :
  forallb p a = true ->
  match b with c :: _ => p c = false | [] => True end ->
  span p (a ++ b) = (a, b).
Proof.
  intros Ha Hb. induction a as [|x a IH]; simpl in *.
  - destruct b as [|c b]; [reflexivity|]. simpl. rewrite Hb. reflexivity.
  - apply andb_prop in Ha. destruct Ha as [Hx Ha]. rewrite Hx, (IH Ha). reflexivity.
Qed.

Lemma trimStart_ws (a b : str) :
  forallb is_ws a = true -> starts_clean b = true -> trimStart (a ++ b) = b.
Proof.
  intros Ha Hb. induction a as [|x a IH]; simpl in *.
  - apply trimStart_clean. exact Hb.
  - apply andb_prop in Ha. destruct Ha as [Hx Ha]. rewrite Hx. apply IH. exact Ha.
Qed.

Lemma no_char_forallb (c : ascii) (s : str) :
  has_char c s = false -> forallb (fun x => negb (Ascii.eqb x c)) s = true.
Proof.
  induction s as [|x s IH]; [reflexivity|].
  rewrite has_char_cons. intros H. apply orb_false_elim in H. destruct H as [H1 H2].
  simpl. rewrite (Ascii.eqb_sym x c), H1, (IH H2). reflexivity.
Qed.

Lemma add_links_nil cur : add_links cur [] = cur.
Proof. destruct cur as [[t l]|]; [|reflexivity]. simpl. rewrite app_nil_r. reflexivity. Qed.

Lemma add_links_app cur a b : add_links (add_links cur a) b = add_links cur (a ++ b).
Proof. destruct cur as [[t l]|]; [|reflexivity]. simpl. rewrite app_assoc. reflexivity. Qed.

Lemma name_of_add_links cur a : name_of (add_links cur a) = name_of cur.
Proof. destruct cur as [[t l]|]; reflexivity. Qed.

(** The loop of parseMarkdownContent, from any state: the lines up to the
    first heading add their links to the open category, and every heading
    opens the category of its section. *)
Lemma parse_lines_sections (lines : list str) :
  forall categories currentCategory links,
    closed (fst (fst (DataGen.parse_lines lines categories currentCategory links)))
           (snd (fst (DataGen.parse_lines lines categories currentCategory links)))
    = closed categories
        (add_links currentCategory
           (links_under (name_of currentCategory) (fst (sections lines))))
      ++ map category_of (snd (sections lines))
    /\ snd (DataGen.parse_lines lines categories currentCategory links)
       = links ++ links_under (name_of currentCategory) (fst (sections lines))
         ++ List.concat (map DataGen.cat_links (map category_of (snd (sections lines)))).
Proof.
  induction lines as [|line lines IH]; intros cats cur links.
  - cbn [DataGen.parse_lines sections fst snd links_under flat_map map List.concat].
    rewrite add_links_nil, !app_nil_r. split; reflexivity.
  - cbn [DataGen.parse_lines sections].
    destruct (sections lines) as [lead secs] eqn:Es. cbn [fst snd] in IH.
    destruct (DataGen.headingMatch (trim line)) as [heading|].
    + specialize (IH (match cur with Some c => cats ++ [c] | None => cats end)
                     (Some (DataGen.mkCategory heading [])) links).
      destruct IH as [IH1 IH2]. cbn [fst snd]. split.
      * rewrite IH1. cbn [links_under flat_map add_links name_of closed
                          DataGen.cat_title DataGen.cat_links app map].
        rewrite add_links_nil. fold (closed cats cur).
        rewrite <- app_assoc. reflexivity.
      * rewrite IH2. cbn [links_under flat_map name_of DataGen.cat_title map
                          List.concat DataGen.cat_links app category_of fst snd].
        reflexivity.
    + cbn [fst snd links_under flat_map]. unfold link_of at 1 3.
      destruct (DataGen.linkMatch (trim line)) as [[t u]|].
      * fold (name_of cur).
        specialize (IH cats (add_links cur [DataGen.mkLink t u (name_of cur)])
                       (links ++ [DataGen.mkLink t u (name_of cur)])).
        destruct IH as [IH1 IH2].
        change (match cur with
                | Some c => Some (DataGen.mkCategory (DataGen.cat_title c)
                                    (DataGen.cat_links c ++ [DataGen.mkLink t u (name_of cur)]))
                | None => None
                end) with (add_links cur [DataGen.mkLink t u (name_of cur)]).
        split.
        -- rewrite IH1, add_links_app, name_of_add_links. reflexivity.
        -- rewrite IH2, name_of_add_links, <- !app_assoc. reflexivity.
      * specialize (IH cats cur links). destruct IH as [IH1 IH2].
        split; [exact IH1 | exact IH2].
Qed.
(* ===================================================================== *)
(** * Runs of the command handlers *)
(* ===================================================================== *)

Section CommandRuns.
Import Commands.

Lemma lift_run {A} (m : M A) s r w' :
  m (world s) = (r, w') -> lift m s = (r, mkSession w' (journal s)).
Proof. intros E. unfold lift. rewrite E. reflexivity. Qed.

Lemma cbind_ok {A B} (m : C A) (k : A -> C B) s a s' :
  m s = (Ok a, s') -> cbind m k s = k a s'.
Proof. intros E. unfold cbind. rewrite E. reflexivity. Qed.

Lemma ctry_catch_ok {A} (body : C A) h s a s' :
  body s = (Ok a, s') -> ctry_catch body h s = (Ok a, s').
Proof. intros E. unfold ctry_catch. rewrite E. reflexivity. Qed.

(** A request to the Bot API that is served. *)
Lemma fetch_bot_served c s :
  faults (world s) = [] ->
  fetch_bot c s
  = (Ok (mkReply true (next_message (world s))),
     mkSession (snd (fresh_message (world s)))
       (journal s ++ [Exchange c (Some (mkReply true (next_message (world s))))])).
Proof.
  intros F. destruct s as [[csv del sha fs rnd msg tr] j]. simpl in F. subst fs.
  reflexivity.
Qed.

Lemma deliver_served chatId id found d s :
  faults (world s) = [] ->
  (if str_eqb (file_type found) (lit "Photo")
   then sendPhoto chatId (file_id found)
          (mkCaption id (file_name found) (deleteDelayMinutes d))
   else sendDocument chatId (file_id found)
          (mkCaption id (file_name found) (deleteDelayMinutes d))) s
  = (Ok (mkReply true (next_message (world s))),
     mkSession (snd (fresh_message (world s)))
       (journal s ++ [Exchange (delivery chatId id found d)
                        (Some (mkReply true (next_message (world s))))])).
Proof.
  intros F. unfold delivery, sendPhoto, sendDocument.
  destruct (str_eqb (file_type found) (lit "Photo")); apply fetch_bot_served; exact F.
Qed.

(** handleFileRequest for a numeric id when every request is served, on
    the archive of well-formed records: the searching message is sent and
    deleted; a record that is found is delivered and its message is put on
    the queue, and otherwise the chat is told so. *)
Lemma handleFileRequest_served
  (env : Env) (now : Z) (message : TextMessage) (t : str)
  (rs : list ArchiveRecord) (s : Session) :
  faults (world s) = [] ->
  stored (world s) = file_of rs ->
  Forall (fun r => well_formed r = true) rs ->
  text message = Some t ->
  all_digits (requested_id t) = true ->
  exists s' searching sent,
    handleFileRequest env now message s = (Ok tt, s')
    /\ journal s'
       = journal s
         ++ [Exchange (SendNotice (chat (fields message)) TxtSearching)
               (Some (mkReply true searching));
             Exchange
               match lookup (requested_id t) rs with
               | Some found =>
                   delivery (chat (fields message)) (requested_id t) found
                     (deleteDelayMs env)
               | None => SendNotice (chat (fields message)) TxtNotFound
               end
               (Some (mkReply true sent))]
    /\ queue (world s')
       = queue (world s)
         ++ match lookup (requested_id t) rs with
            | Some _ => [mkJob (chat (fields message)) sent (now + deleteDelayMs env)]
            | None => []
            end
    /\ attempted_deletions (trace (world s'))
       = attempted_deletions (trace (world s)) ++ [(chat (fields message), searching)]
    /\ csv_file (world s') = csv_file (world s)
    /\ faults (world s') = [].
Proof.
  intros F S W T D.
  unfold handleFileRequest. rewrite T, D. cbn [negb].
  set (chatId := chat (fields message)).
  set (id := requested_id t) in *.
  (* the searching message *)
  pose proof (fetch_bot_served (SendNotice chatId TxtSearching) s F) as E1.
  set (s1 := mkSession (snd (fresh_message (world s)))
               (journal s ++ [Exchange (SendNotice chatId TxtSearching)
                                (Some (mkReply true (next_message (world s))))])) in *.
  assert (U1 : unchanged (world s) (world s1)) by apply fresh_message_unchanged.
  assert (F1 : faults (world s1) = []) by (destruct U1 as (H & _); congruence).
  (* the lookup *)
  destruct (findFileByIdStreaming_served id (world s1) F1) as (w2 & E2 & U2).
  assert (S1 : stored (world s1) = file_of rs).
  { rewrite (unchanged_stored _ _ U1). exact S. }
  assert (Hfind : read_result
                    (fun c => findFileByIdStreaming_loop id (split_lines c) false)
                    None (world s1) = lookup id rs).
  { rewrite (read_result_file_of _ None (world s1) rs S1).
    destruct rs as [|r rs]; [reflexivity|]. apply find_in_render. exact W. }
  rewrite Hfind in E2.
  assert (F2 : faults w2 = []) by (destruct U2 as (H & _); congruence).
  assert (T2 : attempted_deletions (trace w2) = attempted_deletions (trace (world s1))).
  { apply reads_only_attempts.
    pose proof (reads_findFileByIdStreaming id (world s1)) as R. rewrite E2 in R.
    exact R. }
  (* the searching message is deleted *)
  destruct (deleteMessage_run chatId (next_message (world s)) w2)
    as (w3 & E3 & C3 & D3 & _ & F3 & A3 & _).
  rewrite F2 in F3. simpl in F3.
  set (s3 := mkSession w3 (journal s1)).
  assert (C03 : csv_file w3 = csv_file (world s)).
  { rewrite C3. destruct U2 as (_ & H2 & _). rewrite H2.
    destruct U1 as (_ & H1 & _). exact H1. }
  assert (D03 : del_file w3 = del_file (world s)).
  { rewrite D3. destruct U2 as (_ & _ & H2 & _). rewrite H2.
    destruct U1 as (_ & _ & H1 & _). exact H1. }
  assert (Hhead : forall (k : option FileData -> C unit) r4 s4,
             k (lookup id rs) s3 = (r4, s4) ->
             (searchingMessage <- sendMessage chatId TxtSearching ;;
              fileData <- lift (findFileByIdStreaming id) ;;
              (if tg_ok searchingMessage
               then lift (deleteMessage chatId (tg_message_id searchingMessage))
               else cret tt) ;;
              k fileData)%cmd s = (r4, s4)).
  { intros k r4 s4 Ek.
    unfold sendMessage. rewrite (cbind_ok _ _ _ _ _ E1).
    rewrite (cbind_ok _ _ _ _ _ (lift_run _ s1 _ _ E2)).
    cbn [tg_ok tg_message_id].
    rewrite (cbind_ok _ _ _ _ _ (lift_run _ (mkSession w2 (journal s1)) _ _ E3)).
    exact Ek. }
  destruct (lookup id rs) as [found|] eqn:L.
  - (* the delivery *)
    pose proof (deliver_served chatId id found (deleteDelayMs env) s3 F3) as E4.
    set (s4 := mkSession (snd (fresh_message (world s3)))
                 (journal s3 ++ [Exchange (delivery chatId id found (deleteDelayMs env))
                                   (Some (mkReply true (next_message (world s3))))])) in *.
    assert (F4 : faults (world s4) = []) by exact F3.
    (* the job *)
    destruct (getDeletions_run (world s4)) as (w5 & E5 & C5 & D5 & _ & F5 & A5 & _).
    assert (H0 : fault_at 0 (world s4) = NoFault)
      by (unfold fault_at; rewrite F4; reflexivity).
    unfold loaded_jobs in E5. rewrite H0 in E5.
    rewrite F4 in F5. simpl in F5.
    destruct (updateDeletions_served
                (queue (world s4) ++ [mkJob chatId (next_message (world s3))
                                        (now + deleteDelayMs env)]) w5 F5)
      as (w6 & E6 & F6 & C6 & Q6 & A6).
    rewrite D5 in E6.
    exists (mkSession w6 (journal s4)), (next_message (world s)), (next_message (world s3)).
    split.
    { apply ctry_catch_ok. apply Hhead.
      rewrite (cbind_ok _ _ _ _ _ E4).
      cbn [tg_ok tg_message_id].
      rewrite (cbind_ok _ _ _ _ _ (lift_run _ s4 _ _ E5)).
      apply (lift_run _ (mkSession w5 (journal s4)) _ _ E6). }
    split.
    { subst s4 s3 s1. cbn [journal]. rewrite <- app_assoc. reflexivity. }
    split.
    { cbn [world]. rewrite Q6. unfold queue.
      change (del_file (world s4)) with (del_file w3). rewrite D03. reflexivity. }
    split.
    { cbn [world]. rewrite A6, A5. change (trace (world s4)) with (trace w3).
      rewrite A3, T2. reflexivity. }
    split.
    { cbn [world]. rewrite C6, C5. exact C03. }
    exact F6.
  - (* nothing is found *)
    pose proof (fetch_bot_served (SendNotice chatId TxtNotFound) s3 F3) as E4.
    set (s4 := mkSession (snd (fresh_message (world s3)))
                 (journal s3 ++ [Exchange (SendNotice chatId TxtNotFound)
                                   (Some (mkReply true (next_message (world s3))))])) in *.
    exists s4, (next_message (world s)), (next_message (world s3)).
    split.
    { apply ctry_catch_ok. apply Hhead.
      unfold sendMessage. rewrite (cbind_ok _ _ _ _ _ E4). reflexivity. }
    split.
    { subst s4 s3 s1. cbn [journal]. rewrite <- app_assoc. reflexivity. }
    split.
    { rewrite app_nil_r. unfold queue.
      change (del_file (world s4)) with (del_file w3). rewrite D03. reflexivity. }
    split.
    { change (trace (world s4)) with (trace w3). rewrite A3, T2. reflexivity. }
    split; [exact C03 | exact F3].
Qed.

(** ** What the command handlers do to the world, whatever the transport does *)

Section CPost.
Context (R : World -> World -> Prop) `{Frame R}.

Lemma cpost_ret {A} (a : A) : cpost R (cret a).
Proof. intros s. apply frame_refl. Qed.

Lemma cpost_throw {A} e : cpost R (@cthrow A e).
Proof. intros s. apply frame_refl. Qed.

Lemma cpost_note e : cpost R (note e).
Proof. intros s. apply frame_refl. Qed.

Lemma cpost_lift {A} (m : M A) : post R m -> cpost R (lift m).
Proof.
  intros Hm s. unfold lift. specialize (Hm (world s)).
  destruct (m (world s)) as [r w']. exact Hm.
Qed.

Lemma cpost_bind {A B} (m : C A) (k : A -> C B) :
  cpost R m -> (forall a, cpost R (k a)) -> cpost R (cbind m k).
Proof.
  intros Hm Hk s. unfold cbind. specialize (Hm s).
  destruct (m s) as [[a|e] s1]; simpl in *.
  - eapply frame_trans; [exact Hm | apply Hk].
  - exact Hm.
Qed.

Lemma cpost_try_catch {A} (body : C A) (h : Err -> C A) :
  cpost R body -> (forall e, cpost R (h e)) -> cpost R (ctry_catch body h).
Proof.
  intros Hm Hk s. unfold ctry_catch. specialize (Hm s).
  destruct (body s) as [[a|e] s1]; simpl in *.
  - exact Hm.
  - eapply frame_trans; [exact Hm | apply Hk].
Qed.
End CPost.

Create HintDb cpost discriminated.

Ltac cpost_step :=
  first
    [ apply cpost_ret; solve [typeclasses eauto]
    | apply cpost_throw; solve [typeclasses eauto]
    | apply cpost_note; solve [typeclasses eauto]
    | solve [auto with cpost]
    | apply cpost_lift; solve [auto with post]
    | apply cpost_bind; [solve [typeclasses eauto] | | intros ?]
    | apply cpost_try_catch; [solve [typeclasses eauto] | | intros ?]
    | match goal with
      | |- cpost _ (if ?b then _ else _) => destruct b
      | |- cpost _ (match ?x with _ => _ end) => destruct x
      | |- cpost _ (let (_, _) := ?x in _) => destruct x
      end ].

Ltac cpost_auto := repeat cpost_step.

Lemma keeps_fetch_bot c : cpost keeps_files (fetch_bot c).
Proof. unfold fetch_bot. cpost_auto. Qed.
#[local] Hint Resolve keeps_fetch_bot : cpost.
Lemma keeps_sendNotice c t : cpost keeps_files (sendMessage c t).
Proof. apply keeps_fetch_bot. Qed.
Lemma keeps_sendPhoto c p x : cpost keeps_files (sendPhoto c p x).
Proof. apply keeps_fetch_bot. Qed.
Lemma keeps_sendDocument c p x : cpost keeps_files (sendDocument c p x).
Proof. apply keeps_fetch_bot. Qed.
#[local] Hint Resolve keeps_sendNotice keeps_sendPhoto keeps_sendDocument : cpost.

Lemma keeps_handleDebug message : cpost keeps_files (handleDebug message).
Proof. unfold handleDebug. cpost_auto. Qed.

Lemma schedule_step_lifted (j : DeletionJob) :
  cpost (schedules j)
    (loaded <- lift getDeletions ;;
     let (deletions, sha) := loaded in
     lift (updateDeletions (deletions ++ [j]) sha))%cmd.
Proof.
  intros s. pose proof (schedule_step j (world s)) as Hs.
  unfold cbind, lift. unfold bind in Hs.
  destruct (getDeletions (world s)) as [[[deletions sha]|e] w5]; simpl in *.
  - destruct (updateDeletions _ sha w5) as [r6 w6]. exact Hs.
  - exact Hs.
Qed.

(** handleFileRequest, whatever the transport does: the archive stays, and
    the queue stays or gains one job for the chat, due [deleteDelayMs]
    after [now]. *)
Lemma handleFileRequest_any env now message s :
  exists sent,
    schedules (mkJob (chat (fields message)) sent (now + deleteDelayMs env))
      (world s) (world (snd (handleFileRequest env now message s))).
Proof.
  unfold handleFileRequest.
  destruct (text message) as [t|]; [|exists 0%Z; apply keeps_schedules; apply frame_refl].
  destruct (negb (all_digits (requested_id t))).
  { exists 0%Z. apply keeps_schedules.
    destruct (startsWith t (lit "/start"));
      match goal with |- keeps_files _ (world (snd (?m s))) =>
        assert (Hm : cpost keeps_files m) by cpost_auto; apply Hm end. }
  set (chatId := chat (fields message)).
  set (handler := fun error : Err =>
         (note ErrHandlingRequest ;; sendMessage chatId (TxtSearchError error) ;; cret tt)%cmd).
  assert (Hh : forall e, cpost keeps_files (handler e)) by (intros e; unfold handler; cpost_auto).
  unfold ctry_catch.
  match goal with |- context [match ?b s with _ => _ end] => set (body := b) end.
  assert (Hb : exists sent,
             schedules (mkJob chatId sent (now + deleteDelayMs env))
               (world s) (world (snd (body s)))).
  { unfold body, cbind.
    pose proof (keeps_sendNotice chatId TxtSearching s) as K1.
    destruct (sendMessage chatId TxtSearching s) as [[searching|e] s1]; simpl in K1;
      [|exists 0%Z; apply keeps_schedules; exact K1].
    assert (K2 : cpost keeps_files (lift (findFileByIdStreaming (requested_id t))))
      by cpost_auto.
    specialize (K2 s1).
    destruct (lift (findFileByIdStreaming (requested_id t)) s1) as [[fileData|e] s2];
      simpl in K2;
      [|exists 0%Z; apply keeps_schedules; eapply frame_trans; eassumption].
    assert (K3 : cpost keeps_files
                   (if tg_ok searching
                    then lift (deleteMessage chatId (tg_message_id searching))
                    else cret tt)) by cpost_auto.
    specialize (K3 s2).
    destruct ((if tg_ok searching
               then lift (deleteMessage chatId (tg_message_id searching))
               else cret tt) s2) as [[[]|e] s3]; simpl in K3;
      assert (K03 : keeps_files (world s) (world s3))
        by (eapply frame_trans; [exact K1|]; eapply frame_trans; eassumption);
      [|exists 0%Z; apply keeps_schedules; exact K03].
    destruct fileData as [fileData|].
    2:{ exists 0%Z. apply keeps_schedules. eapply frame_trans; [exact K03|].
        pose proof (keeps_sendNotice chatId TxtNotFound s3) as K4.
        destruct (sendMessage chatId TxtNotFound s3) as [[r|e] s4]; exact K4. }
    cbv zeta.
    assert (K4 : cpost keeps_files
                   (if str_eqb (file_type fileData) (lit "Photo")
                    then sendPhoto chatId (file_id fileData)
                           (mkCaption (requested_id t) (file_name fileData)
                              (deleteDelayMinutes (deleteDelayMs env)))
                    else sendDocument chatId (file_id fileData)
                           (mkCaption (requested_id t) (file_name fileData)
                              (deleteDelayMinutes (deleteDelayMs env)))))
      by cpost_auto.
    specialize (K4 s3).
    destruct ((if str_eqb (file_type fileData) (lit "Photo")
               then sendPhoto chatId (file_id fileData) _
               else sendDocument chatId (file_id fileData) _) s3)
      as [[sentMessage|e] s4]; simpl in K4;
      assert (K04 : keeps_files (world s) (world s4))
        by (eapply frame_trans; eassumption);
      [|exists 0%Z; apply keeps_schedules; exact K04].
    exists (tg_message_id sentMessage).
    destruct (tg_ok sentMessage); [|apply keeps_schedules; exact K04].
    apply (schedules_after _ _ _ _ K04).
    apply (schedule_step_lifted (mkJob chatId (tg_message_id sentMessage)
                                   (now + deleteDelayMs env)) s4). }
  destruct Hb as (sent & Hb). exists sent.
  destruct (body s) as [[[]|e] s1]; simpl in *; [exact Hb|].
  apply (schedules_before _ _ _ _ Hb). apply Hh.
Qed.

Lemma kept_handleFileRequest env now message :
  cpost queue_kept (handleFileRequest env now message).
Proof.
  intros s. destruct (handleFileRequest_any env now message s) as (sent & H).
  eapply schedules_queue_kept. exact H.
Qed.

Lemma kept_handleDebug message : cpost queue_kept (handleDebug message).
Proof. intros s. apply del_queue_kept. apply (keeps_handleDebug message s). Qed.

#[local] Hint Resolve kept_handleFileRequest kept_handleDebug : cpost.

Lemma kept_handleTelegramWebhook env now update :
  cpost queue_kept (handleTelegramWebhook env now update).
Proof. unfold handleTelegramWebhook. cpost_auto. Qed.

#[local] Hint Resolve kept_handleTelegramWebhook : cpost.

Lemma kept_fetch pathname method env now update :
  cpost queue_kept (fetch pathname method env now update).
Proof. unfold fetch. cpost_auto. Qed.

(** A job that is not due at the time of an invocation outlives it. *)
Lemma invoke_keeps_job env i s j :
  In j (queue (world s)) ->
  (forall t, i = OnScheduled t -> (t < deleteAt j)%Z) ->
  In j (queue (world (snd (invoke env i s)))).
Proof.
  intros Hin Ht. destruct i as [pathname method now update | now]; simpl.
  - pose proof (kept_fetch pathname method env now update s) as K.
    unfold cbind. destruct (fetch pathname method env now update s) as [[r|e] s1];
      simpl in *; apply K; exact Hin.
  - unfold cbind, scheduled, lift.
    destruct (sweep_queue now (world s)) as [H | H];
      destruct (handleScheduledDeletions now (world s)) as [[[]|e] w1]; simpl in *.
    + unfold queue. rewrite H. exact Hin.
    + unfold queue. rewrite H. exact Hin.
    + rewrite H. apply in_pending. split; [exact Hin | apply Ht; reflexivity].
    + rewrite H. apply in_pending. split; [exact Hin | apply Ht; reflexivity].
Qed.

(** ** The whole worker *)

Lemma ctry_catch_returns {A} (body : C A) (h : Err -> C A) s :
  (forall e s0, exists a s1, h e s0 = (Ok a, s1)) ->
  exists a s', ctry_catch body h s = (Ok a, s').
Proof.
  intros Hh. unfold ctry_catch. destruct (body s) as [[a|e] s1].
  - exists a, s1. reflexivity.
  - apply Hh.
Qed.

Lemma handleTelegramWebhook_returns env now update s :
  exists reply s', handleTelegramWebhook env now update s = (Ok reply, s').
Proof.
  apply ctry_catch_returns. intros e s0. do 2 eexists. reflexivity.
Qed.

Lemma invoke_returns env i s :
  exists reply s', invoke env i s = (Ok reply, s').
Proof.
  destruct i as [pathname method now update | now]; simpl.
  - unfold fetch. destruct (str_eqb pathname (lit "/webhook") && str_eqb method (lit "POST")).
    + destruct (handleTelegramWebhook_returns env now update s) as (r & s' & E).
      unfold cbind. rewrite E. do 2 eexists. reflexivity.
    + do 2 eexists. reflexivity.
  - destruct (sweep_run now (world s)) as (w' & E & _).
    unfold cbind, scheduled, lift. rewrite E. do 2 eexists. reflexivity.
Qed.

Lemma run_returns env calls :
  forall s, exists replies s', run env calls s = (Ok replies, s').
Proof.
  induction calls as [|i calls IH]; intros s.
  - do 2 eexists. reflexivity.
  - destruct (invoke_returns env i s) as (r & s1 & E1).
    destruct (IH s1) as (rs & s2 & E2).
    simpl. unfold cbind. rewrite E1, E2. do 2 eexists. reflexivity.
Qed.

Lemma files_appends {A} (m : C A) : cpost keeps_files m -> cpost only_appends m.
Proof. intros H s. apply only_appends_same. apply (H s). Qed.

Lemma appends_handleFileRequest env now message :
  cpost only_appends (handleFileRequest env now message).
Proof.
  intros s. destruct (handleFileRequest_any env now message s) as (sent & C & _).
  apply only_appends_same. exact C.
Qed.

Lemma appends_handleDebug message : cpost only_appends (handleDebug message).
Proof. apply files_appends. apply keeps_handleDebug. Qed.

Lemma appends_console_error c : post only_appends (console_error c).
Proof. apply post_keeps. apply post_console_error. Qed.

Lemma appends_handleScheduledDeletions now :
  post only_appends (handleScheduledDeletions now).
Proof.
  intros w. apply only_appends_same.
  destruct (sweep_run now w) as (w' & E & C & _). rewrite E. exact C.
Qed.
#[local] Hint Resolve post_handleFileUpload appends_console_error
  appends_handleScheduledDeletions : post.
#[local] Hint Resolve appends_handleFileRequest appends_handleDebug : cpost.

Lemma appends_handleTelegramWebhook env now update :
  cpost only_appends (handleTelegramWebhook env now update).
Proof. unfold handleTelegramWebhook. cpost_auto. Qed.
#[local] Hint Resolve appends_handleTelegramWebhook : cpost.

Lemma appends_invoke env i : cpost only_appends (invoke env i).
Proof. destruct i; simpl; unfold fetch, scheduled; cpost_auto. Qed.
#[local] Hint Resolve appends_invoke : cpost.

Lemma appends_run env calls : cpost only_appends (run env calls).
Proof. induction calls as [|i calls IH]; simpl; cpost_auto. Qed.

(** ** The id that a command asks for *)

Lemma split_on_plain sep (a : str) :
  has_char sep a = false -> split_on sep a = [a].
Proof.
  induction a as [|c a IH]; intros H; [reflexivity|].
  rewrite has_char_cons in H. apply orb_false_elim in H. destruct H as [H1 H2].
  rewrite Ascii.eqb_sym in H1. simpl. rewrite H1, (IH H2). reflexivity.
Qed.

Lemma split_on_app sep (a b : str) :
  has_char sep a = false -> split_on sep (a ++ sep :: b) = a :: split_on sep b.
Proof.
  induction a as [|c a IH]; intros H.
  - simpl. rewrite Ascii.eqb_refl. reflexivity.
  - rewrite has_char_cons in H. apply orb_false_elim in H. destruct H as [H1 H2].
    rewrite Ascii.eqb_sym in H1. simpl. rewrite H1, (IH H2). reflexivity.
Qed.

Lemma requested_id_of_command (command id : str) :
  has_char space command = false -> has_char space id = false ->
  requested_id (command ++ space :: id) = id.
Proof.
  intros Hc Hi. unfold requested_id.
  rewrite (split_on_app space command id Hc), (split_on_plain space id Hi).
  reflexivity.
Qed.

Lemma digits_no_space (id : str) : forallb is_digit id = true -> has_char space id = false.
Proof.
  induction id as [|c id IH]; [reflexivity|].
  simpl. intros H. apply andb_prop in H. destruct H as [H1 H2].
  rewrite (IH H2), orb_false_r.
  destruct (Ascii.eqb space c) eqn:E; [|reflexivity].
  apply Ascii.eqb_eq in E. subst c. discriminate.
Qed.

(** ** A request to the Bot API, whatever the transport does *)

Lemma fetch_bot_any c s :
  exists answer,
    journal (snd (fetch_bot c s)) = journal s ++ [Exchange c answer]
    /\ trace (world (snd (fetch_bot c s))) = trace (world s)
    /\ keeps_files (world s) (world (snd (fetch_bot c s)))
    /\ match fst (fetch_bot c s) with
       | Ok reply => answer = Some reply
       | Throw _ => answer = None
       end.
Proof.
  destruct s as [[csv del sha fs rnd msg tr] j].
  unfold fetch_bot, cbind, lift, next_fault, note, cthrow, cret, fresh_message, keeps_files.
  destruct fs as [|[] fs]; simpl; eexists; repeat split; reflexivity.
Qed.

(** A command without a numeric id: one message and nothing else. *)
Lemma handleFileRequest_invalid env now message t s :
  text message = Some t ->
  all_digits (requested_id t) = false ->
  handleFileRequest env now message s
  = (sendMessage (chat (fields message))
       (if startsWith t (lit "/start") then TxtWelcome else TxtInvalidCommand) ;;
     cret tt)%cmd s.
Proof.
  intros T D. unfold handleFileRequest. rewrite T, D. cbn [negb].
  destruct (startsWith t (lit "/start")); reflexivity.
Qed.

(** The sweep that follows on a session without faults. *)
Lemma scheduled_served later s :
  faults (world s) = [] ->
  exists s',
    scheduled later s = (Ok tt, s')
    /\ journal s' = journal s
    /\ csv_file (world s') = csv_file (world s)
    /\ queue (world s') = pending later (queue (world s))
    /\ attempted_deletions (trace (world s'))
       = attempted_deletions (trace (world s)) ++ map target (due later (queue (world s))).
Proof.
  intros F.
  destruct (sweep_run later (world s)) as (w' & E & C & A & _ & Hnone & Hsome).
  assert (Hall : forall k, fault_at k (world s) = NoFault).
  { intros k. unfold fault_at. rewrite F. destruct k; reflexivity. }
  assert (Hj : loaded_jobs (world s) = queue (world s)).
  { unfold loaded_jobs. rewrite (Hall 0). reflexivity. }
  rewrite Hj in *.
  exists (mkSession w' (journal s)).
  split; [unfold scheduled; apply lift_run; exact E|].
  split; [reflexivity|]. split; [exact C|].
  split; [|exact A].
  cbn [world]. destruct (due later (queue (world s))) as [|j js] eqn:D.
  - destruct (Hnone eq_refl) as [Hd _]. unfold queue at 1. rewrite Hd.
    symmetry. apply pending_no_due. exact D.
  - apply Hsome; [discriminate | apply Hall].
Qed.

End CommandRuns.
(* ===================================================================== *)
(** * Further properties of the code *)
(* ===================================================================== *)

(** X1. A file name that escapeCSV has written is read back by parseCSVLine
    as the name without the white space at its ends, whatever it holds
    (commas, quotes, line breaks): alone on a line, and as the third field
    of the row that appendToCSV writes when the id, the file reference and
    the type hold no comma and no quote. *)
Theorem escaped_name_is_read_back :
  (forall field, parseCSVLine (escapeCSV field) = [trim field])
  /\ (forall numericalFileId fileId fileName fileType,
        has_char comma numericalFileId = false ->
        has_char dquote numericalFileId = false ->
        has_char comma fileId = false -> has_char dquote fileId = false ->
        has_char comma fileType = false -> has_char dquote fileType = false ->
        parseCSVLine (row numericalFileId fileId fileName fileType)
        = [trim numericalFileId; trim fileId; trim fileName; trim fileType]).
Proof.
  split.
  - intros field. unfold parseCSVLine.
    rewrite <- (app_nil_r (escapeCSV field)).
    rewrite loop_escaped by reflexivity. reflexivity.
  - intros i f n t Hic Hiq Hfc Hfq Htc Htq. unfold parseCSVLine, row.
    rewrite (loop_plain i Hic Hiq). simpl app at 1. rewrite loop_comma.
    rewrite (loop_plain f Hfc Hfq). simpl app at 1. rewrite loop_comma.
    rewrite loop_escaped by reflexivity. simpl app at 1. rewrite loop_comma.
    rewrite <- (app_nil_r t) at 1.
    rewrite (loop_plain t Htc Htq). reflexivity.
Qed.

Lemma escaped_name_is_read_back_witness :
  parseCSVLine (escapeCSV awkward_name) = [awkward_name]
  /\ parseCSVLine (row (lit "12") (lit "AgAD") awkward_name (lit "Document"))
     = [lit "12"; lit "AgAD"; awkward_name; lit "Document"].
Proof.
  destruct escaped_name_is_read_back as [H1 H2]. split.
  - rewrite H1. vm_compute. reflexivity.
  - rewrite H2; [vm_compute; reflexivity | reflexivity ..].
Defined.

(** X2. Every field that parseCSVLine returns is trimmed: it has no white
    space at either end. A line without a quote character is cut at every
    comma: it yields one field more than it has commas. *)
Theorem parseCSVLine_fields :
  (forall line, Forall (fun f => unpadded f = true) (parseCSVLine line))
  /\ (forall line,
        has_char dquote line = false ->
        List.length (parseCSVLine line) = S (count_occ ascii_dec line comma)).
Proof.
  split.
  - intros line. unfold parseCSVLine.
    apply (loop_fields _ trim_is_unpadded (List.length line)); [lia | constructor].
  - intros line Hq. unfold parseCSVLine. rewrite (loop_count line Hq). reflexivity.
Qed.

Lemma parseCSVLine_fields_witness :
  Forall (fun f => unpadded f = true) (parseCSVLine (lit " 12 , a b ,,x "))
  /\ List.length (parseCSVLine (lit " 12 , a b ,,x ")) = 4.
Proof.
  destruct parseCSVLine_fields as [H1 H2]. split.
  - apply H1.
  - rewrite H2; reflexivity.
Defined.

(** X3. The readers of the two files never throw and never write, whatever
    the transport does: getFileInfo, downloadLargeFile, getFileContent,
    findFileByIdStreaming, getFileCount, checkForDuplicate and getDeletions
    return a value on every world, leave both files as they are, and send
    GET requests only. *)
Theorem readers_never_throw_and_never_write (w : World) :
  (exists info w', getFileInfo w = (Ok info, w') /\ reads_only w w')
  /\ (exists content w', downloadLargeFile w = (Ok content, w') /\ reads_only w w')
  /\ (exists content w', getFileContent w = (Ok content, w') /\ reads_only w w')
  /\ (forall numericalFileId,
        exists found w',
          findFileByIdStreaming numericalFileId w = (Ok found, w') /\ reads_only w w')
  /\ (exists count w', getFileCount w = (Ok count, w') /\ reads_only w w')
  /\ (forall fileName fileId,
        exists hit w',
          checkForDuplicate fileName fileId w = (Ok hit, w') /\ reads_only w w')
  /\ (exists loaded w', getDeletions w = (Ok loaded, w') /\ reads_only w w').
Proof.
  split; [reader_total|].
  split; [reader_total|].
  split; [reader_total|].
  split; [intros id; reader_total|].
  split; [reader_total|].
  split; [intros n f; reader_total|].
  reader_total.
Qed.

(** X4. A read of the archive of which any request fails (it is rejected or
    answered with status 500) is not told apart from an archive that does
    not exist: getFileContent returns null, findFileByIdStreaming returns
    null for every id, getFileCount returns 0 and checkForDuplicate reports
    no duplicate. *)
Theorem failed_read_looks_like_an_empty_archive (w : World) (k : nat) :
  k < List.length (content_requests (csv_file w)) ->
  fault_at k w <> NoFault ->
  fst (getFileContent w) = Ok None
  /\ (forall numericalFileId, fst (findFileByIdStreaming numericalFileId w) = Ok None)
  /\ fst (getFileCount w) = Ok 0%Z
  /\ (forall fileName fileId, fst (checkForDuplicate fileName fileId w) = Ok None).
Proof.
  intros Hk Hf. pose proof (getFileContent_failed w k Hk Hf) as E.
  split; [exact E|].
  split; [intros id; apply reader_of_no_content; [exact E | reflexivity]|].
  split; [apply reader_of_no_content; [exact E | reflexivity]|].
  intros n f. apply reader_of_no_content; [exact E | reflexivity].
Qed.

Lemma failed_read_looks_like_an_empty_archive_witness :
  stored interrupted_world = Some (render [earlier_record; later_record])
  /\ fst (findFileByIdStreaming (logical_id earlier_record) interrupted_world) = Ok None
  /\ fst (getFileCount interrupted_world) = Ok 0%Z
  /\ fst (checkForDuplicate (display_name earlier_record)
            (external_file_ref earlier_record) interrupted_world) = Ok None.
Proof.
  assert (Hk : 1 < List.length (content_requests (csv_file interrupted_world)))
    by (vm_compute; lia).
  assert (Hf : fault_at 1 interrupted_world <> NoFault) by (vm_compute; discriminate).
  destruct (failed_read_looks_like_an_empty_archive interrupted_world 1 Hk Hf)
    as (_ & Hfind & Hcount & Hdup).
  split; [reflexivity|]. split; [apply Hfind|]. split; [exact Hcount | apply Hdup].
Defined.

(** X5. appendToCSV writes the whole row or nothing, whatever the
    transport does: after it, the archive file is as it was, or it is the
    one before with the new row behind it (the header and the row when
    there was no file). No stored row is dropped or changed and no part of
    a row is written. When appendToCSV returns, the row is in. It never
    touches the queue file. *)
Theorem appendToCSV_all_or_nothing
  (numericalFileId fileId fileName fileType : str) (w : World) :
  del_file (snd (appendToCSV numericalFileId fileId fileName fileType w)) = del_file w
  /\ (csv_file (snd (appendToCSV numericalFileId fileId fileName fileType w))
      = csv_file w
      \/ stored (snd (appendToCSV numericalFileId fileId fileName fileType w))
         = Some (appended (stored w) numericalFileId fileId fileName fileType))
  /\ match fst (appendToCSV numericalFileId fileId fileName fileType w) with
     | Ok _ =>
         stored (snd (appendToCSV numericalFileId fileId fileName fileType w))
         = Some (appended (stored w) numericalFileId fileId fileName fileType)
     | Throw _ => True
     end.
Proof.
  destruct (appendToCSV_result numericalFileId fileId fileName fileType w) as [D H].
  split; [exact D|].
  destruct (fst (appendToCSV numericalFileId fileId fileName fileType w)).
  - split; [right; exact H | exact H].
  - split; [left; exact H | exact I].
Qed.

(** X6. What appendToCSV does when it cannot read what it is to extend.
    On an archive file that exists and is empty it throws (failed to read
    current file content) and sends no write. When the probe of an existing
    file fails, it takes the file for absent and asks for the creation of a
    file that holds the header and the new row only; the content API
    refuses a creation over an existing file, so appendToCSV throws and the
    archive stays. *)
Theorem appendToCSV_on_unreadable_archive
  (numericalFileId fileId fileName fileType : str) (w : World) (file : RemoteFile str) :
  csv_file w = Some file ->
  (faults w = [] -> rf_content file = [] ->
   fst (appendToCSV numericalFileId fileId fileName fileType w) = Throw ReadCurrentFailed
   /\ reads_only w (snd (appendToCSV numericalFileId fileId fileName fileType w)))
  /\ (fault_at 0 w <> NoFault -> fault_at 1 w = NoFault ->
      fst (appendToCSV numericalFileId fileId fileName fileType w)
      = Throw (GitHubApiError 409)
      /\ csv_file (snd (appendToCSV numericalFileId fileId fileName fileType w))
         = csv_file w
      /\ requests (trace (snd (appendToCSV numericalFileId fileId fileName fileType w)))
         = requests (trace w)
           ++ [GetCsv;
               PutCsv (btoa (header ++ [newline]
                               ++ row numericalFileId fileId fileName fileType
                               ++ [newline]))
                      None]).
Proof.
  intros C. destruct w as [csv del sha fs rnd msg tr]. simpl in C. subst csv.
  destruct file as [c s z]. split.
  - intros F E. simpl in F, E. subst fs c.
    unfold appendToCSV, getFileContent, downloadLargeFile, getFileInfo, try_catch,
      fetch_csv, fetch_blob, transport, bind, next_fault, emit, console_error, throw,
      ret, get_world, json, atob, reads_only.
    simpl. destruct (z >? GITHUB_SIZE_LIMIT)%Z; simpl; rewrite ?Nat.eqb_refl; simpl;
      rewrite ?decode_wire; simpl;
      (split; [reflexivity|]); (split; [reflexivity|]); (split; [reflexivity|]);
      eexists; (split; [rewrite <- ?app_assoc; reflexivity|]); reflexivity.
  - unfold fault_at. simpl. intros F0 F1.
    unfold appendToCSV, createFile, getFileInfo, try_catch, fetch_csv, fetch_put_csv,
      transport, bind, next_fault, emit, console_error, throw, ret, get_world, json,
      requests.
    rewrite decode_btoa.
    destruct fs as [|[] [|[] fs]]; simpl in *; try congruence;
      rewrite ?flat_map_app; simpl; rewrite <- ?app_assoc; simpl;
      repeat split; reflexivity.
Qed.

Lemma appendToCSV_on_unreadable_archive_witness :
  fst (appendToCSV (lit "12") (lit "AgAD") (lit "a.pdf") (lit "Document") hollow_world)
  = Throw ReadCurrentFailed
  /\ fst (appendToCSV (lit "12") (lit "AgAD") (lit "a.pdf") (lit "Document")
            unreachable_world)
     = Throw (GitHubApiError 409).
Proof.
  split.
  - apply (appendToCSV_on_unreadable_archive (lit "12") (lit "AgAD") (lit "a.pdf")
             (lit "Document") hollow_world (mkFile [] 3 0%Z) eq_refl); reflexivity.
  - apply (appendToCSV_on_unreadable_archive (lit "12") (lit "AgAD") (lit "a.pdf")
             (lit "Document") unreachable_world
             (mkFile (render [earlier_record; later_record]) 3 147%Z) eq_refl).
    + vm_compute. discriminate.
    + reflexivity.
Defined.

(** X7. A sweep never removes a job that is not yet due and never adds a
    job, whatever the transport does: after handleScheduledDeletions the
    queue is the queue before or the jobs of it that are not due, and the
    archive file is as it was. *)
Theorem sweep_keeps_the_jobs_not_due (now : Z) (w : World) :
  csv_file (snd (handleScheduledDeletions now w)) = csv_file w
  /\ (queue (snd (handleScheduledDeletions now w)) = queue w
      \/ queue (snd (handleScheduledDeletions now w)) = pending now (queue w))
  /\ (forall j, In j (queue w) -> (now < deleteAt j)%Z ->
        In j (queue (snd (handleScheduledDeletions now w))))
  /\ (forall j, In j (queue (snd (handleScheduledDeletions now w))) -> In j (queue w)).
Proof.
  assert (Hq : queue (snd (handleScheduledDeletions now w)) = queue w
               \/ queue (snd (handleScheduledDeletions now w)) = pending now (queue w)).
  { destruct (sweep_queue now w) as [H | H]; [left | right; exact H].
    unfold queue. rewrite H. reflexivity. }
  split.
  { destruct (sweep_run now w) as (w' & E & C & _). rewrite E. exact C. }
  split; [exact Hq|].
  split.
  - intros j Hin Hlt. destruct Hq as [H | H]; rewrite H; [exact Hin|].
    apply in_pending. split; assumption.
  - intros j Hin. destruct Hq as [H | H]; rewrite H in Hin; [exact Hin|].
    apply in_pending in Hin. apply Hin.
Qed.

(** X8. When the writeback of a sweep is refused, that is rejected before
    it reaches the repository or answered with an error status, so that
    the queue file is not rewritten, the failure is only logged and the
    sweep returns normally. The next sweep, its load served, finds the
    queue as it was and requests the deletion of the same messages once
    more. *)
Theorem failed_writeback_repeats_the_deletions (now later : Z) (w : World) :
  fault_at 0 w = NoFault ->
  due now (queue w) <> [] ->
  refused (1 + List.length (due now (queue w))) w ->
  fault_at (2 + List.length (due now (queue w))) w = NoFault ->
  (now <= later)%Z ->
  exists w1 w2,
    handleScheduledDeletions now w = (Ok tt, w1)
    /\ handleScheduledDeletions later w1 = (Ok tt, w2)
    /\ del_file w1 = del_file w
    /\ In ErrUpdatingDeletions (console_errors (trace w1))
    /\ attempted_deletions (trace w2)
       = attempted_deletions (trace w)
         ++ map target (due now (queue w)) ++ map target (due later (queue w))
    /\ (forall j, In j (due now (queue w)) -> In j (due later (queue w))).
Proof.
  intros Hload Hdue Hput Hnext Hle.
  destruct (sweep_walk now w Hload Hdue) as (w2 & w1 & E1 & D2 & F2 & A2 & Ew).
  assert (Fw : fault_at 0 w2 <> NoFault).
  { rewrite (fault_at_skipn _ 0 w w2 F2), Nat.add_0_r. exact Hput. }
  destruct (writeback_failed (pending now (queue w))
              (option_map (@rf_sha _) (del_file w)) w2 Fw) as (w4 & E4 & D4 & T4).
  rewrite Ew in E4. inversion E4; subst w4.
  destruct (writeback_run (pending now (queue w))
              (option_map (@rf_sha _) (del_file w)) w2)
    as (w5 & E5 & _ & F5 & A5 & _).
  rewrite Ew in E5. inversion E5; subst w5.
  destruct (sweep_run later w1) as (w3 & E3 & _ & A3 & _).
  assert (Hl1 : fault_at 0 w1 = NoFault).
  { unfold fault_at in *. rewrite F5, F2. rewrite tl_skipn, nth_skipn.
    rewrite Nat.add_0_r. exact Hnext. }
  assert (Hj : loaded_jobs w1 = queue w).
  { unfold loaded_jobs. rewrite Hl1. unfold queue. rewrite D4, D2. reflexivity. }
  rewrite Hj in A3.
  exists w1, w3. split; [exact E1|]. split; [exact E3|].
  split; [congruence|].
  split.
  { rewrite T4, console_errors_app. apply in_or_app. right. simpl. left. reflexivity. }
  split; [rewrite A3, A5, A2, <- app_assoc; reflexivity|].
  intros j Hin. unfold due in *. rewrite filter_In in *.
  destruct Hin as [Hin Hd]. split; [exact Hin|].
  apply Z.leb_le in Hd. apply Z.leb_le. lia.
Qed.

Lemma failed_writeback_repeats_the_deletions_witness :
  queue (snd (handleScheduledDeletions 1500 failing_write_world))
  = [job_a; job_b; job_c; job_d]
  /\ attempted_deletions
       (trace (snd (handleScheduledDeletions 1600
                      (snd (handleScheduledDeletions 1500 failing_write_world)))))
     = [target job_a; target job_c; target job_a; target job_c].
Proof.
  assert (H0 : fault_at 0 failing_write_world = NoFault) by reflexivity.
  assert (Hd : due 1500 (queue failing_write_world) <> []) by (vm_compute; discriminate).
  assert (H1 : refused (1 + List.length (due 1500 (queue failing_write_world)))
                 failing_write_world) by (vm_compute; discriminate).
  assert (H2 : fault_at (2 + List.length (due 1500 (queue failing_write_world)))
                 failing_write_world = NoFault) by reflexivity.
  assert (Hl : (1500 <= 1600)%Z) by lia.
  destruct (failed_writeback_repeats_the_deletions 1500 1600 failing_write_world
              H0 Hd H1 H2 Hl) as (w1 & w2 & E1 & E2 & D & _ & A & _).
  rewrite E1. cbn [snd]. rewrite E2. cbn [snd]. split.
  - unfold queue. rewrite D. reflexivity.
  - rewrite A. vm_compute. reflexivity.
Defined.

(** X9. deleteMessage never looks at the answer of the Bot API, and the
    sweep never looks at the outcome of a deletion: when every deletion
    request of a sweep gets an answer, be it an error status, nothing is
    logged, and with the load and the writeback served every due job leaves
    the queue, deleted or not. *)
Theorem answered_deletions_are_never_checked (now : Z) (w : World) :
  fault_at 0 w = NoFault ->
  (forall k, k < List.length (due now (queue w)) -> fault_at (1 + k) w <> NetworkDown) ->
  fault_at (1 + List.length (due now (queue w))) w = NoFault ->
  exists w',
    handleScheduledDeletions now w = (Ok tt, w')
    /\ attempted_deletions (trace w')
       = attempted_deletions (trace w) ++ map target (due now (queue w))
    /\ logged_deletion_errors (trace w') = logged_deletion_errors (trace w)
    /\ queue w' = pending now (queue w)
    /\ (forall j, In j (due now (queue w)) -> ~ In j (queue w')).
Proof.
  intros Hload Hans Hput.
  destruct (sweep_run now w) as (w' & E & _ & A & L & Hnone & Hsome).
  assert (Hj : loaded_jobs w = queue w) by (unfold loaded_jobs; rewrite Hload; reflexivity).
  rewrite Hj in *.
  assert (Hq : queue w' = pending now (queue w)).
  { destruct (due now (queue w)) as [|j js] eqn:D.
    - destruct (Hnone eq_refl) as [Hd _]. unfold queue at 1. rewrite Hd.
      symmetry. apply pending_no_due. exact D.
    - apply Hsome; [discriminate | exact Hput]. }
  exists w'. split; [exact E|]. split; [exact A|].
  split.
  { rewrite L, failed_deletions_none; [apply app_nil_r|].
    intros k Hk. specialize (Hans k Hk). unfold fault_at in Hans.
    destruct (faults w); [destruct k; simpl; discriminate | exact Hans]. }
  split; [exact Hq|].
  intros j Hin Hin'. rewrite Hq in Hin'. apply in_pending in Hin'.
  unfold due in Hin. apply filter_In in Hin. destruct Hin as [_ Hd].
  apply Z.leb_le in Hd. lia.
Qed.

Lemma answered_deletions_are_never_checked_witness :
  queue (snd (handleScheduledDeletions 1500 refusing_world)) = [job_b; job_d]
  /\ logged_deletion_errors (trace (snd (handleScheduledDeletions 1500 refusing_world)))
     = [].
Proof.
  assert (H0 : fault_at 0 refusing_world = NoFault) by reflexivity.
  assert (Ha : forall k, k < List.length (due 1500 (queue refusing_world)) ->
                 fault_at (1 + k) refusing_world <> NetworkDown).
  { intros k Hk. change (List.length (due 1500 (queue refusing_world))) with 2 in Hk.
    destruct k as [|[|k]]; [vm_compute; discriminate | vm_compute; discriminate | lia]. }
  assert (H1 : fault_at (1 + List.length (due 1500 (queue refusing_world)))
                 refusing_world = NoFault) by reflexivity.
  destruct (answered_deletions_are_never_checked 1500 refusing_world H0 Ha H1)
    as (w1 & E1 & _ & L & Q & _).
  rewrite E1. cbn [snd]. split.
  - rewrite Q. vm_compute. reflexivity.
  - rewrite L. reflexivity.
Defined.


(** X11. An upload without a file to archive. A photo message whose list of
    sizes is empty has no last size to read: handleFileUpload throws before
    it sends anything and handleTelegramWebhook answers with status 500. A
    picked file whose file_id is empty is dropped without a word: no
    request, no timer, no change. *)
Theorem upload_without_a_file (message : Message) (w : World) :
  (picked message = None ->
   handleTelegramWebhook (Some message) w
   = (Ok ReplyError, add_trace w [Error ErrWebhook]))
  /\ (forall fileName fileType,
        picked message = Some ([], fileName, fileType) ->
        handleFileUpload message w = (Ok tt, w)).
Proof.
  split.
  - intros P. unfold handleTelegramWebhook, handleFileUpload, try_catch.
    assert (Hm : photo message <> None /\ document message = None).
    { unfold picked in P. destruct (document message); [discriminate|].
      destruct (photo message); [split; [discriminate | reflexivity]|].
      destruct (video message); discriminate. }
    destruct Hm as [Hp Hd]. rewrite Hd.
    destruct (photo message) as [sizes|]; [|congruence].
    unfold bind at 1. unfold bind at 1. rewrite pick_file_picked, P. reflexivity.
  - intros fileName fileType P. unfold handleFileUpload, bind.
    rewrite pick_file_picked, P. reflexivity.
Qed.

Lemma upload_without_a_file_witness :
  fst (handleTelegramWebhook (Some (mkMessage 7 1 None (Some []) None)) archive_world)
  = Ok ReplyError
  /\ handleFileUpload (mkMessage 7 1 (Some (mkMedia [] (Some (lit "a.pdf")))) None None)
       archive_world
     = (Ok tt, archive_world).
Proof.
  split.
  - rewrite (proj1 (upload_without_a_file (mkMessage 7 1 None (Some []) None)
                      archive_world) eq_refl).
    reflexivity.
  - apply (proj2 (upload_without_a_file
                    (mkMessage 7 1 (Some (mkMedia [] (Some (lit "a.pdf")))) None None)
                    archive_world) (lit "a.pdf") (lit "Document")).
    reflexivity.
Defined.




(** X13. parseMarkdownContent files every link under the nearest heading
    above it. Cut the lines of the content at the heading lines. The
    categories are the headings in order, each with its text as title and
    with the links of the lines under it, up to the next heading, in
    order, each naming that title as its category. The list of all links
    is the links of the lines before the first heading, which name the
    category Uncategorized and are in no category, followed by the links
    of the categories in order: every link line is found, once. When the
    content has no heading and at least one link, the one category is All
    Links with all the links, which still name Uncategorized; when it has
    neither, there is no category. *)
Theorem links_are_grouped_under_their_heading (content : str) :
  DataGen.links (DataGen.parseMarkdownContent content)
  = links_under (lit "Uncategorized") (fst (sections (split_lines content)))
    ++ List.concat (map DataGen.cat_links
                      (map category_of (snd (sections (split_lines content)))))
  /\ DataGen.categories (DataGen.parseMarkdownContent content)
     = match snd (sections (split_lines content)),
             links_under (lit "Uncategorized") (fst (sections (split_lines content))) with
       | [], _ :: _ =>
           [DataGen.mkCategory (lit "All Links")
              (links_under (lit "Uncategorized") (fst (sections (split_lines content))))]
       | secs, _ => map category_of secs
       end.
Proof.
  destruct (parse_lines_sections (split_lines content) [] None []) as [H1 H2].
  unfold DataGen.parseMarkdownContent.
  destruct (DataGen.parse_lines (split_lines content) [] None []) as [[cats cur] links].
  cbn [fst snd] in H1, H2. fold (closed cats cur). rewrite H1, H2.
  cbn [add_links closed name_of app].
  destruct (snd (sections (split_lines content))) as [|sec secs].
  - cbn [map List.concat]. rewrite app_nil_r.
    destruct (links_under (lit "Uncategorized") (fst (sections (split_lines content))));
      split; reflexivity.
  - cbn [map List.length Nat.eqb andb]. split; reflexivity.
Qed.

Lemma links_are_grouped_under_their_heading_witness :
  map (fun c => (DataGen.cat_title c, map DataGen.title (DataGen.cat_links c)))
      (DataGen.categories (DataGen.parseMarkdownContent sample_page))
  = [(lit "Tools", [lit "one"; lit "two"]); (lit "Empty", []);
     (lit "More", [lit "three"])]
  /\ map (fun l => (DataGen.title l, DataGen.url l, DataGen.category l))
         (DataGen.links (DataGen.parseMarkdownContent sample_page))
     = [(lit "zero", lit "u0", lit "Uncategorized"); (lit "one", lit "u1", lit "Tools");
        (lit "two", lit "u2", lit "Tools"); (lit "three", lit "u3", lit "More")].
Proof.
  destruct (links_are_grouped_under_their_heading sample_page) as [H1 H2].
  rewrite H1, H2. vm_compute. split; reflexivity.
Defined.

(** X14. The line patterns of parseMarkdownContent read back what a page
    writes. A line of two stars, a text and two stars is the heading with
    that text, when the text is not empty and holds no line break. A line
    of an optional numbering (digits, a dot, white space), a title in
    brackets and an address in parentheses is the link with that title and
    that address, when the title is not empty and holds no closing bracket
    and the address is not empty and holds no closing parenthesis; what
    follows the closing parenthesis is ignored. *)
Theorem markdown_lines_are_read_back :
  (forall text,
      truthy text = true -> existsb is_line_terminator text = false ->
      DataGen.headingMatch (lit "**" ++ text ++ lit "**") = Some text)
  /\ (forall number gap title url rest,
        forallb is_digit number = true -> forallb is_ws gap = true ->
        truthy title = true -> has_char "]"%char title = false ->
        truthy url = true -> has_char ")"%char url = false ->
        DataGen.linkMatch
          ("["%char :: title ++ lit "](" ++ url ++ ")"%char :: rest)
        = Some (title, url)
        /\ (truthy number = true ->
            DataGen.linkMatch
              (number ++ "."%char :: gap
                 ++ "["%char :: title ++ lit "](" ++ url ++ ")"%char :: rest)
            = Some (title, url))).
Proof.
  split.
  - intros text T L. unfold DataGen.headingMatch.
    change (skipn 2 (lit "**" ++ text ++ lit "**")) with (text ++ lit "**").
    assert (Hfirst : firstn (List.length (text ++ lit "**") - 2) (text ++ lit "**") = text).
    { rewrite length_app. cbn [List.length lit list_ascii_of_string].
      replace (List.length text + 2 - 2) with (List.length text + 0) by lia.
      rewrite firstn_app_2. cbn [firstn]. apply app_nil_r. }
    rewrite Hfirst, T, L.
    assert (Hend : endsWith (text ++ lit "**") (lit "**") = true).
    { unfold endsWith. rewrite rev_app_distr. cbn [lit list_ascii_of_string rev app].
      cbn [startsWith]. rewrite !Ascii.eqb_refl, startsWith_nil. reflexivity. }
    assert (Hstart : startsWith (lit "**" ++ text ++ lit "**") (lit "**") = true).
    { cbn [lit list_ascii_of_string app startsWith].
      rewrite !Ascii.eqb_refl, startsWith_nil. reflexivity. }
    rewrite Hend, Hstart. reflexivity.
  - intros number gap title url rest Hn Hg Tt Ht Tu Hu.
    assert (Hlink : DataGen.linkMatch
                      ("["%char :: title ++ lit "](" ++ url ++ ")"%char :: rest)
                    = Some (title, url)).
    { unfold DataGen.linkMatch, DataGen.skip_numbering. cbn [span]. cbn [is_digit].
      change (is_digit "["%char) with false. cbv iota.
      rewrite Ascii.eqb_refl.
      rewrite (span_all _ title (lit "](" ++ url ++ ")"%char :: rest)
                 (no_char_forallb _ _ Ht) eq_refl).
      destruct title as [|t0 title]; [discriminate|].
      cbn [lit list_ascii_of_string app]. rewrite !Ascii.eqb_refl. cbn [andb].
      rewrite (span_all _ url (")"%char :: rest) (no_char_forallb _ _ Hu) eq_refl).
      destruct url as [|u0 url]; [discriminate|]. reflexivity. }
    split; [exact Hlink|].
    intros Tn. unfold DataGen.linkMatch, DataGen.skip_numbering.
    rewrite (span_all is_digit number
               ("."%char :: gap
                  ++ "["%char :: title ++ lit "](" ++ url ++ ")"%char :: rest)
               Hn eq_refl).
    destruct number as [|d number]; [discriminate|].
    rewrite Ascii.eqb_refl.
    rewrite (trimStart_ws gap
               ("["%char :: title ++ lit "](" ++ url ++ ")"%char :: rest) Hg eq_refl).
    exact Hlink.
Qed.

Lemma markdown_lines_are_read_back_witness :
  DataGen.headingMatch (lit "**Proof assistants**") = Some (lit "Proof assistants")
  /\ DataGen.linkMatch (lit "12.  [Rocq](https://rocq-prover.org) - the prover")
     = Some (lit "Rocq", lit "https://rocq-prover.org").
Proof.
  destruct markdown_lines_are_read_back as [H1 H2]. split.
  - apply (H1 (lit "Proof assistants")); reflexivity.
  - apply (H2 (lit "12") (lit "  ") (lit "Rocq") (lit "https://rocq-prover.org")
              (lit " - the prover")); reflexivity.
Defined.

Section CommandProperties.
Import Commands.

(** X15. On an archive of well-formed records, when a text command asks for
    the id of a stored record and every request is served, handleFileRequest
    sends the searching message and deletes it, delivers the file under the
    stored file reference (a photo as a photo, anything else as a
    document), and appends one job to the deletion queue: the chat, the id
    of the delivered message, and the time of the request plus the
    configured delay. The archive is not touched. The time, the delay and
    their sum are safe integers (below 2^53), where the arithmetic of the
    code is exact. *)
Theorem delivered_file_is_scheduled_for_deletion
  (env : Env) (now : Z) (message : TextMessage) (t : str)
  (rs : list ArchiveRecord) (found : FileData) (s : Session) :
  faults (world s) = [] ->
  stored (world s) = file_of rs ->
  Forall (fun r => well_formed r = true) rs ->
  text message = Some t ->
  all_digits (requested_id t) = true ->
  lookup (requested_id t) rs = Some found ->
  exact_times env now = true ->
  exists s' searching sent,
    handleFileRequest env now message s = (Ok tt, s')
    /\ journal s'
       = journal s
         ++ [Exchange (SendNotice (chat (fields message)) TxtSearching)
               (Some (mkReply true searching));
             Exchange (delivery (chat (fields message)) (requested_id t) found
                         (deleteDelayMs env))
               (Some (mkReply true sent))]
    /\ queue (world s')
       = queue (world s)
         ++ [mkJob (chat (fields message)) sent (now + deleteDelayMs env)]
    /\ attempted_deletions (trace (world s'))
       = attempted_deletions (trace (world s)) ++ [(chat (fields message), searching)]
    /\ csv_file (world s') = csv_file (world s).
Proof.
  intros F S W T D L _.
  destruct (handleFileRequest_served env now message t rs s F S W T D)
    as (s' & searching & sent & E & J & Q & A & C & _).
  rewrite L in J, Q.
  exists s', searching, sent. repeat split; assumption.
Qed.

Lemma delivered_file_is_scheduled_for_deletion_witness :
  exists searching sent,
    journal (snd (handleFileRequest default_env 1000 get_photo (session_of archive_world)))
    = [Exchange (SendNotice 7 TxtSearching) (Some (mkReply true searching));
       Exchange (SendPhoto 7 (lit "AgACAgQAAxkBAAIC")
                   (mkCaption (lit "0000000000000001") (lit "holiday.jpg") 90))
                (Some (mkReply true sent))]
    /\ queue (world (snd (handleFileRequest default_env 1000 get_photo
                            (session_of archive_world))))
       = [job_b; mkJob 7 sent 5401000].
Proof.
  assert (W : Forall (fun r => well_formed r = true) [earlier_record; later_record])
    by (repeat constructor).
  destruct (delivered_file_is_scheduled_for_deletion default_env 1000 get_photo
              (lit "/get 0000000000000001") [earlier_record; later_record]
              (data_of earlier_record) (session_of archive_world)
              eq_refl eq_refl W eq_refl eq_refl eq_refl eq_refl)
    as (s' & searching & sent & E & J & Q & _).
  exists searching, sent. rewrite E. cbn [snd]. split.
  - rewrite J. reflexivity.
  - rewrite Q. reflexivity.
Defined.

(** X16. A delivered file is deleted by the first sweep at or after its
    deadline and by no sweep before. On an archive of well-formed records,
    with every request served and with the time of the request, the delay
    and their sum safe integers (below 2^53), a sweep that follows the
    delivery requests the deletion of the delivered message and takes its
    job off the queue exactly when the time of the sweep has reached the
    time of the request plus the delay; before that the job stays and the
    message is left alone. *)
Theorem delivered_file_is_deleted_when_due
  (env : Env) (now later : Z) (message : TextMessage) (t : str)
  (rs : list ArchiveRecord) (found : FileData) (s : Session) :
  faults (world s) = [] ->
  stored (world s) = file_of rs ->
  Forall (fun r => well_formed r = true) rs ->
  text message = Some t ->
  all_digits (requested_id t) = true ->
  lookup (requested_id t) rs = Some found ->
  exact_times env now = true ->
  exists s1 s2 job,
    handleFileRequest env now message s = (Ok tt, s1)
    /\ scheduled later s1 = (Ok tt, s2)
    /\ queue (world s1) = queue (world s) ++ [job]
    /\ chatId job = chat (fields message)
    /\ deleteAt job = (now + deleteDelayMs env)%Z
    /\ attempted_deletions (trace (world s2))
       = attempted_deletions (trace (world s1))
         ++ map target (due later (queue (world s)))
         ++ (if (now + deleteDelayMs env <=? later)%Z then [target job] else [])
    /\ queue (world s2)
       = pending later (queue (world s))
         ++ (if (now + deleteDelayMs env <=? later)%Z then [] else [job]).
Proof.
  intros F S W T D L _.
  destruct (handleFileRequest_served env now message t rs s F S W T D)
    as (s1 & searching & sent & E & _ & Q & _ & _ & F1).
  rewrite L in Q.
  destruct (scheduled_served later s1 F1) as (s2 & E2 & _ & _ & Q2 & A2).
  exists s1, s2, (mkJob (chat (fields message)) sent (now + deleteDelayMs env)).
  split; [exact E|]. split; [exact E2|]. split; [exact Q|].
  split; [reflexivity|]. split; [reflexivity|].
  rewrite A2, Q2, Q. unfold due, pending. rewrite !filter_app. cbn [filter deleteAt].
  destruct (now + deleteDelayMs env <=? later)%Z; cbn [negb];
    rewrite ?map_app, ?app_nil_r; split; reflexivity.
Qed.

Lemma delivered_file_is_deleted_when_due_witness :
  (exists sent,
     queue (world (snd (scheduled 5400999
                          (snd (handleFileRequest default_env 1000 get_photo
                                  (session_of archive_world))))))
     = [mkJob 7 sent 5401000])
  /\ queue (world (snd (scheduled 5401000
                          (snd (handleFileRequest default_env 1000 get_photo
                                  (session_of archive_world))))))
     = [].
Proof.
  assert (W : Forall (fun r => well_formed r = true) [earlier_record; later_record])
    by (repeat constructor).
  split.
  - destruct (delivered_file_is_deleted_when_due default_env 1000 5400999 get_photo
                (lit "/get 0000000000000001") [earlier_record; later_record]
                (data_of earlier_record) (session_of archive_world)
                eq_refl eq_refl W eq_refl eq_refl eq_refl eq_refl)
      as (s1 & s2 & job & E1 & E2 & _ & Hc & Hd & _ & Q).
    exists (messageId job). rewrite E1. cbn [snd]. rewrite E2. cbn [snd]. rewrite Q.
    destruct job as [c m d]. cbn in Hc, Hd. subst c d. reflexivity.
  - destruct (delivered_file_is_deleted_when_due default_env 1000 5401000 get_photo
                (lit "/get 0000000000000001") [earlier_record; later_record]
                (data_of earlier_record) (session_of archive_world)
                eq_refl eq_refl W eq_refl eq_refl eq_refl eq_refl)
      as (s1 & s2 & job & E1 & E2 & _ & _ & _ & _ & Q).
    rewrite E1. cbn [snd]. rewrite E2. cbn [snd]. rewrite Q. reflexivity.
Defined.

(** X17. On an archive of well-formed records, or without an archive, when
    a text command asks for an id that no record has and every request is
    served, handleFileRequest sends the searching message and requests its
    deletion, tells the chat that the file was not found, delivers nothing
    and schedules nothing: its two messages and the one deletion are all
    that it sends to the Bot API, and both files stay as they are. *)
Theorem unknown_id_is_answered_and_nothing_is_scheduled
  (env : Env) (now : Z) (message : TextMessage) (t : str)
  (rs : list ArchiveRecord) (s : Session) :
  faults (world s) = [] ->
  stored (world s) = file_of rs ->
  Forall (fun r => well_formed r = true) rs ->
  text message = Some t ->
  all_digits (requested_id t) = true ->
  (forall r, In r rs -> logical_id r <> requested_id t) ->
  exists s' searching told,
    handleFileRequest env now message s = (Ok tt, s')
    /\ journal s'
       = journal s
         ++ [Exchange (SendNotice (chat (fields message)) TxtSearching)
               (Some (mkReply true searching));
             Exchange (SendNotice (chat (fields message)) TxtNotFound)
               (Some (mkReply true told))]
    /\ attempted_deletions (trace (world s'))
       = attempted_deletions (trace (world s)) ++ [(chat (fields message), searching)]
    /\ queue (world s') = queue (world s)
    /\ csv_file (world s') = csv_file (world s).
Proof.
  intros F S W T D N.
  destruct (handleFileRequest_served env now message t rs s F S W T D)
    as (s' & searching & sent & E & J & Q & A & C & _).
  rewrite (lookup_none (requested_id t) rs N) in J, Q. rewrite app_nil_r in Q.
  exists s', searching, sent.
  split; [exact E|]. split; [exact J|]. split; [exact A|].
  split; [exact Q | exact C].
Qed.

Lemma unknown_id_is_answered_and_nothing_is_scheduled_witness :
  exists searching told,
    journal (snd (handleFileRequest default_env 1000 get_unknown
                    (session_of archive_world)))
    = [Exchange (SendNotice 7 TxtSearching) (Some (mkReply true searching));
       Exchange (SendNotice 7 TxtNotFound) (Some (mkReply true told))]
    /\ attempted_deletions
         (trace (world (snd (handleFileRequest default_env 1000 get_unknown
                               (session_of archive_world)))))
       = [(7%Z, searching)]
    /\ queue (world (snd (handleFileRequest default_env 1000 get_unknown
                            (session_of archive_world))))
       = [job_b].
Proof.
  assert (W : Forall (fun r => well_formed r = true) [earlier_record; later_record])
    by (repeat constructor).
  assert (N : forall r, In r [earlier_record; later_record] ->
                logical_id r <> requested_id (lit "/get 42")).
  { intros r [H | [H | []]]; subst r; vm_compute; discriminate. }
  destruct (unknown_id_is_answered_and_nothing_is_scheduled default_env 1000 get_unknown
              (lit "/get 42") [earlier_record; later_record] (session_of archive_world)
              eq_refl eq_refl W eq_refl eq_refl N)
    as (s' & searching & told & E & J & A & Q & _).
  exists searching, told. rewrite E. cbn [snd]. split; [|split].
  - rewrite J. reflexivity.
  - rewrite A. reflexivity.
  - rewrite Q. reflexivity.
Defined.

(** X18. Whatever the transport does and whatever the text is,
    handleFileRequest leaves the archive file as it is, and the queue file
    as it is or with one job added at the end of the queue, for the chat
    of the message: a retrieval never removes or changes a scheduled
    deletion, and a load of the queue that fails does not make it
    overwrite the queue. When the time of the request, the delay and their
    sum are safe integers (below 2^53), the job is due the configured
    delay after the request. *)
Theorem handleFileRequest_schedules_at_most_one_job
  (env : Env) (now : Z) (message : TextMessage) (s : Session) :
  csv_file (world (snd (handleFileRequest env now message s))) = csv_file (world s)
  /\ (del_file (world (snd (handleFileRequest env now message s))) = del_file (world s)
      \/ exists job,
           queue (world (snd (handleFileRequest env now message s)))
           = queue (world s) ++ [job]
           /\ chatId job = chat (fields message)
           /\ (exact_times env now = true ->
               deleteAt job = (now + deleteDelayMs env)%Z)).
Proof.
  destruct (handleFileRequest_any env now message s) as (sent & C & [D | Q]).
  - split; [exact C | left; exact D].
  - split; [exact C | right].
    exists (mkJob (chat (fields message)) sent (now + deleteDelayMs env)).
    split; [exact Q|]. split; [reflexivity | intros _; reflexivity].
Qed.

(** X19. No job is lost before it is due. Over any sequence of invocations
    of the worker (uploads, text commands, other requests, ticks of the cron
    trigger) and whatever the transport does, a job that is in the queue
    stays in the queue as long as every tick of the cron trigger comes
    before its deleteAt. *)
Theorem no_job_is_lost_before_it_is_due
  (env : Env) (calls : list Invocation) (s : Session) (j : DeletionJob) :
  In j (queue (world s)) ->
  (forall t, In (OnScheduled t) calls -> (t < deleteAt j)%Z) ->
  In j (queue (world (snd (run env calls s)))).
Proof.
  revert s. induction calls as [|i calls IH]; intros s Hin Ht; [exact Hin|].
  simpl. unfold cbind at 1.
  pose proof (invoke_keeps_job env i s j Hin) as H1.
  destruct (invoke env i s) as [[r|e] s1]; simpl in H1.
  - assert (Hin1 : In j (queue (world s1))).
    { apply H1. intros t E. apply Ht. left. exact E. }
    specialize (IH s1 Hin1 (fun t H => Ht t (or_intror H))).
    unfold cbind. destruct (run env calls s1) as [[rs|e] s2]; exact IH.
  - apply H1. intros t E. apply Ht. left. exact E.
Qed.

Lemma no_job_is_lost_before_it_is_due_witness :
  In job_d (queue (world (snd (run default_env
                                 [OnScheduled 1500;
                                  OnFetch (lit "/webhook") (lit "POST") 1600
                                    (Some get_photo);
                                  OnScheduled 2500]
                                 (session_of sweep_world))))).
Proof.
  apply no_job_is_lost_before_it_is_due.
  - vm_compute. auto.
  - intros t [H | [H | [H | []]]]; inversion H; subst; vm_compute; reflexivity.
Defined.

(** X20. The worker always answers and the archive only grows. Start from
    an archive file that is absent or ends as the files that appendToCSV
    writes end: in one line break behind a character that is not white
    space. Over any sequence of invocations and whatever the transport
    does, every invocation returns (a webhook call with status 200 or 500,
    never with an exception), the file keeps ending in that way, and no
    invocation changes or removes a stored record: the records after more
    invocations are the records before with records added behind them. *)
Theorem worker_always_answers_and_archive_only_grows
  (env : Env) (calls more : list Invocation) (s : Session) :
  settled (stored (world s)) ->
  exists replies s1 replies' s2 added,
    run env calls s = (Ok replies, s1)
    /\ run env more s1 = (Ok replies', s2)
    /\ settled (stored (world s1)) /\ settled (stored (world s2))
    /\ archive (world s2) = archive (world s1) ++ added.
Proof.
  intros S0.
  destruct (run_returns env calls s) as (replies & s1 & E1).
  destruct (run_returns env more s1) as (replies' & s2 & E2).
  pose proof (appends_run env calls s S0) as G1. rewrite E1 in G1. destruct G1 as [S1 _].
  pose proof (appends_run env more s1 S1) as G2. rewrite E2 in G2. destruct G2 as [S2 G].
  destruct (grows_archive (world s1) (world s2) S1 G) as (added & Ea).
  exists replies, s1, replies', s2, added.
  split; [exact E1|]. split; [exact E2|]. split; [exact S1|].
  split; [exact S2 | exact Ea].
Qed.

Lemma worker_always_answers_and_archive_only_grows_witness :
  exists added,
    archive (world (snd (run default_env busy_day
                           (snd (run default_env busy_day (session_of empty_world))))))
    = [mkRecord (lit "3074185296307418") (lit "BQACAgQAAxkBAAIB") (lit "report.pdf")
                (lit "Document")]
      ++ added.
Proof.
  destruct (worker_always_answers_and_archive_only_grows default_env busy_day busy_day
              (session_of empty_world) I)
    as (replies & s1 & replies' & s2 & added & E1 & E2 & _ & _ & Ea).
  assert (H : archive (world (snd (run default_env busy_day (session_of empty_world))))
              = [mkRecord (lit "3074185296307418") (lit "BQACAgQAAxkBAAIB")
                   (lit "report.pdf") (lit "Document")])
    by (vm_compute; reflexivity).
  exists added. rewrite E1 in *. cbn [snd] in *. rewrite E2. cbn [snd].
  rewrite Ea, H. reflexivity.
Defined.

(** X21. A text that begins with /start and carries a numeric id is served
    like the /get command with that id (the form in which a deep link to the
    bot arrives): on a message without media the webhook does the same with
    both texts, whatever the archive holds and whatever the transport
    does. *)
Theorem start_with_an_id_retrieves_like_get
  (env : Env) (now : Z) (f : Message) (id : str) (s : Session) :
  document f = None -> photo f = None -> video f = None ->
  all_digits id = true ->
  Commands.handleTelegramWebhook env now
    (Some (mkText f (Some (lit "/start" ++ space :: id)))) s
  = Commands.handleTelegramWebhook env now
      (Some (mkText f (Some (lit "/get" ++ space :: id)))) s.
Proof.
  intros Hd Hp Hv D.
  assert (Hs : has_char space id = false).
  { apply digits_no_space. unfold all_digits in D. apply andb_prop in D. apply D. }
  unfold Commands.handleTelegramWebhook. cbn [fields text]. rewrite Hd, Hp, Hv.
  assert (E1 : handleFileRequest env now (mkText f (Some (lit "/start" ++ space :: id)))
               = handleFileRequest env now (mkText f (Some (lit "/get" ++ space :: id)))).
  { unfold handleFileRequest. cbn [fields text].
    rewrite (requested_id_of_command (lit "/start") id eq_refl Hs).
    rewrite (requested_id_of_command (lit "/get") id eq_refl Hs).
    rewrite D. reflexivity. }
  change (truthy (lit "/start" ++ space :: id)) with true.
  change (truthy (lit "/get" ++ space :: id)) with true.
  change (startsWith (lit "/start" ++ space :: id) (lit "/start")) with true.
  change (startsWith (lit "/get" ++ space :: id) (lit "/start")) with false.
  change (startsWith (lit "/get" ++ space :: id) (lit "/get")) with true.
  cbn [orb]. rewrite E1. reflexivity.
Qed.

Lemma start_with_an_id_retrieves_like_get_witness :
  Commands.handleTelegramWebhook default_env 1000 (Some start_photo)
    (session_of archive_world)
  = Commands.handleTelegramWebhook default_env 1000 (Some get_photo)
      (session_of archive_world).
Proof.
  apply (start_with_an_id_retrieves_like_get default_env 1000 (no_media 7)
           (lit "0000000000000001") (session_of archive_world));
    reflexivity.
Defined.

(** X22. A command whose second word is not a number (no second word, two
    spaces before the id, letters in the id) is only answered: whatever the
    transport does, handleFileRequest sends one message, the welcome when
    the text begins with /start and the usage note otherwise, it sends no
    request to the content API and leaves both files as they are. *)
Theorem command_without_numeric_id_only_answers
  (env : Env) (now : Z) (message : TextMessage) (t : str) (s : Session) :
  text message = Some t ->
  all_digits (requested_id t) = false ->
  exists answer,
    journal (snd (handleFileRequest env now message s))
    = journal s
      ++ [Exchange (SendNotice (chat (fields message))
                      (if startsWith t (lit "/start") then TxtWelcome
                       else TxtInvalidCommand))
            answer]
    /\ trace (world (snd (handleFileRequest env now message s))) = trace (world s)
    /\ keeps_files (world s) (world (snd (handleFileRequest env now message s))).
Proof.
  intros T D. rewrite (handleFileRequest_invalid env now message t s T D).
  unfold Commands.sendMessage, cbind.
  destruct (fetch_bot_any
              (SendNotice (chat (fields message))
                 (if startsWith t (lit "/start") then TxtWelcome else TxtInvalidCommand))
              s) as (answer & J & Tr & K & _).
  exists answer.
  destruct (fetch_bot _ s) as [[r|e] s1]; simpl in *; repeat split; try assumption;
    apply K.
Qed.

Lemma command_without_numeric_id_only_answers_witness :
  exists answer,
    journal (snd (handleFileRequest default_env 1000 get_misspelt
                    (session_of interrupted_world)))
    = [Exchange (SendNotice 7 TxtInvalidCommand) answer]
    /\ trace (world (snd (handleFileRequest default_env 1000 get_misspelt
                            (session_of interrupted_world))))
       = [].
Proof.
  destruct (command_without_numeric_id_only_answers default_env 1000 get_misspelt
              (lit "/get  0000000000000001") (session_of interrupted_world)
              eq_refl eq_refl) as (answer & J & T & _).
  exists answer. split; [exact J | exact T].
Defined.



(** X24. The report of the /debug command. With every request served, on
    the archive of well-formed records, handleDebug sends one message that
    tells the number of stored records, the size that the content API
    reports for the file and whether that size is above the limit of the
    direct route; without an archive it tells 0 records and size 0. It
    writes nothing. *)
Theorem debug_reports_the_archive
  (message : TextMessage) (s : Session) (rs : list ArchiveRecord) :
  faults (world s) = [] ->
  stored (world s) = file_of rs ->
  Forall (fun r => well_formed r = true) rs ->
  exists s' told,
    handleDebug message s = (Ok tt, s')
    /\ journal s'
       = journal s
         ++ [Exchange
               (SendNotice (chat (fields message))
                  (TxtDebugInfo (Z.of_nat (List.length rs))
                     (fi_size (info_of (csv_file (world s))))
                     (isLarge (info_of (csv_file (world s))))))
               (Some (mkReply true told))]
    /\ keeps_files (world s) (world s').
Proof.
  intros F St W. unfold handleDebug.
  pose proof (getFileInfo_served (world s) F) as E1.
  set (s1 := mkSession (add_trace (world s) [Fetch GetCsv]) (journal s)).
  assert (F1 : faults (world s1) = []) by exact F.
  assert (Hcount : exists s2,
             (if fi_exists (info_of (csv_file (world s)))
              then lift getFileCount else cret 0%Z) s1
             = (Ok (Z.of_nat (List.length rs)), s2)
             /\ faults (world s2) = [] /\ journal s2 = journal s
             /\ keeps_files (world s) (world s2)).
  { destruct (csv_file (world s)) as [file|] eqn:Cf.
    - cbn [info_of fi_exists].
      destruct (getFileCount_served (world s1) F1) as (w2 & E2 & U2).
      exists (mkSession w2 (journal s1)).
      assert (S1 : stored (world s1) = file_of rs) by exact St.
      assert (Hne : rs <> []).
      { intros N. subst rs. unfold stored in St. rewrite Cf in St. discriminate. }
      rewrite (read_result_render _ _ (world s1) rs S1 Hne), (count_of_render rs W) in E2.
      split; [apply lift_run; exact E2|].
      destruct U2 as (Hf & Hc & Hd & _).
      split; [cbn [world]; congruence|]. split; [reflexivity|].
      split; cbn [world]; [rewrite Hc | rewrite Hd]; reflexivity.
    - cbn [info_of no_file fi_exists].
      exists s1. unfold stored in St. rewrite Cf in St.
      destruct rs as [|r rs]; [|discriminate].
      split; [reflexivity|]. split; [exact F1|]. split; [reflexivity|].
      split; reflexivity. }
  destruct Hcount as (s2 & E2 & F2 & J2 & K2).
  pose proof (fetch_bot_served
                (SendNotice (chat (fields message))
                   (TxtDebugInfo (Z.of_nat (List.length rs))
                      (fi_size (info_of (csv_file (world s))))
                      (isLarge (info_of (csv_file (world s)))))) s2 F2) as E3.
  eexists. exists (next_message (world s2)).
  split.
  { apply ctry_catch_ok.
    rewrite (cbind_ok _ _ _ _ _ (lift_run _ s _ _ E1)). fold s1.
    rewrite (cbind_ok _ _ _ _ _ E2).
    unfold Commands.sendMessage. rewrite (cbind_ok _ _ _ _ _ E3). reflexivity. }
  split; [cbn [journal]; rewrite J2; reflexivity|].
  exact K2.
Qed.

Lemma debug_reports_the_archive_witness :
  exists told,
    journal (snd (handleDebug get_photo (session_of archive_world)))
    = [Exchange (SendNotice 7 (TxtDebugInfo 2 147 false)) (Some (mkReply true told))].
Proof.
  assert (W : Forall (fun r => well_formed r = true) [earlier_record; later_record])
    by (repeat constructor).
  destruct (debug_reports_the_archive get_photo (session_of archive_world)
              [earlier_record; later_record] eq_refl eq_refl W)
    as (s' & told & E & J & _).
  exists told. rewrite E. cbn [snd]. rewrite J. reflexivity.
Defined.

End CommandProperties.

(** X25. On an update that carries no command, that is an update without a
    message, a message with a document, a photo or a video, or a message
    whose text is missing, empty or begins with none of the three command
    words, the webhook does exactly what its upload branch does: it runs
    handleFileUpload on a message with media and nothing otherwise, and
    sends nothing of its own. *)
Theorem webhook_without_command_is_the_upload_webhook
  (env : Commands.Env) (now : Z) (update : option Commands.TextMessage)
  (s : Commands.Session) :
  match update with
  | Some message => is_command message = false
  | None => True
  end ->
  Commands.handleTelegramWebhook env now update s
  = Commands.lift (handleTelegramWebhook (option_map Commands.fields update)) s.
Proof.
  intros H. destruct s as [w j]. destruct update as [[f t]|]; [|reflexivity].
  unfold is_command in H. cbn [Commands.fields Commands.text] in H.
  unfold Commands.handleTelegramWebhook, handleTelegramWebhook, Commands.lift,
    Commands.ctry_catch, try_catch, Commands.cbind, bind.
  cbv beta iota delta [option_map Commands.fields Commands.text Commands.world
                         Commands.journal Commands.cret ret].
  destruct (document f) as [d|]; [|destruct (photo f) as [p|]; [|destruct (video f) as [v|]]];
    try (destruct (handleFileUpload f w) as [[[]|e] w1]; reflexivity).
  destruct t as [t|]; [|reflexivity].
  destruct (truthy t); [|reflexivity]. cbn [andb] in H.
  apply orb_false_elim in H. destruct H as [H Hd].
  rewrite H, Hd. reflexivity.
Qed.

Lemma webhook_without_command_is_the_upload_webhook_witness :
  Commands.handleTelegramWebhook default_env 1000
    (Some (Commands.mkText report_upload (Some (lit "/get 0000000000000001"))))
    (session_of archive_world)
  = Commands.lift (handleTelegramWebhook (Some report_upload)) (session_of archive_world).
Proof.
  apply (webhook_without_command_is_the_upload_webhook default_env 1000
           (Some (Commands.mkText report_upload (Some (lit "/get 0000000000000001"))))
           (session_of archive_world)).
  reflexivity.
Defined.
